(** * Recovery orchestrator and dead-man's-switch scheduler

    A shallow embedding of the server core of the repository: the two
    services [recoveryService] and [dmsService] and the two route groups
    [routes/recovery.ts] and [routes/dms.ts], over a model of the Redis
    store they share.  Every service function is a computation in a small
    state-and-exception monad over the store; every route maps a typed
    request to an HTTP status and body. *)

From Stdlib Require Import ZArith Ascii String List Lia.
From stdpp Require Import base option gmap sets list strings pretty.

Local Open Scope string_scope.

(** ** JavaScript values held in hashes

    Redis hashes hold untyped fields.  [hval] is the universe of the values
    the two services write: text, integers, the not-a-number value, the
    JSON text of a string array ([JSON.stringify(string[])], read back with
    [JSON.parse]) and the ISO-8601 text of an instant ([toISOString], read
    back with [new Date(..)]), the last two kept in decoded form.  A field
    that is absent reads as [undefined], here [None]. *)

Inductive hval :=
  | VStr (s : string)
  | VNum (n : Z)
  | VNaN
  | VList (l : list string)
  | VTime (ms : Z).

#[global] Instance hval_eq_dec : EqDecision hval.
Proof. solve_decision. Defined.

Abbreviation hash := (gmap string hval).

(** JavaScript truthiness of a field: [undefined], the empty string, zero
    and NaN are falsy.  A JSON or ISO text is never empty. *)
Definition truthy (v : option hval) : bool :=
  match v with
  | None => false
  | Some (VStr s) => negb (String.eqb s "")
  | Some (VNum n) => negb (n =? 0)%Z
  | Some VNaN => false
  | Some (VList _) => true
  | Some (VTime _) => true
  end.

(** [Number(v)]: [None] is NaN.  The services only ever write integers to
    the fields they read back with [Number]. *)
Definition Number (v : option hval) : option Z :=
  match v with
  | Some (VNum n) => Some n
  | _ => None
  end.

Definition of_number (n : option Z) : hval :=
  match n with
  | Some z => VNum z
  | None => VNaN
  end.

(** [String.prototype.includes], [startsWith] and [replace] (first
    occurrence of a text pattern). *)
Fixpoint is_prefix (pat s : string) : bool :=
  match pat with
  | EmptyString => true
  | String c pat' =>
      match s with
      | EmptyString => false
      | String d s' => Ascii.eqb c d && is_prefix pat' s'
      end
  end.

Fixpoint includes (s pat : string) : bool :=
  if is_prefix pat s then true
  else match s with
       | EmptyString => false
       | String _ s' => includes s' pat
       end.

Definition startsWith (s pat : string) : bool := is_prefix pat s.

Fixpoint drop_chars (n : nat) (s : string) : string :=
  match n, s with
  | O, _ => s
  | S n', String _ s' => drop_chars n' s'
  | S _, EmptyString => EmptyString
  end.

Fixpoint replace_first (s pat rep : string) : string :=
  if is_prefix pat s then rep +:+ drop_chars (String.length pat) s
  else match s with
       | EmptyString => EmptyString
       | String c s' => String c (replace_first s' pat rep)
       end.

(** ** The store

    One table per Redis type, each indexed by the full key text that the
    key builders of the services produce, and, for the keys that carry a
    time to live, the milliseconds the key still has to live. *)

Record Store := mkStore {
  hashes : gmap string hash;
  strs : gmap string string;
  sets : gmap string (gset string);
  lives : gmap string Z
}.

(** The time to live of the keys in whole seconds, as TTL reports it: the
    seconds given to SETEX or EXPIRE, less the time passed since. *)
Definition ttls (σ : Store) : gmap string Z :=
  (λ ms, ms / 1000)%Z <$> lives σ.

Definition empty_store : Store := mkStore ∅ ∅ ∅ ∅.

(** ** Exceptions and the service monad

    A thrown exception does not undo the writes made before it: the
    outcome carries the store in both cases. *)

Inductive exn :=
  | Error (msg : string)
  | SyntaxError
  | RangeError
  | TypeError.

Inductive outcome (A : Type) :=
  | Ret (a : A)
  | Throw (e : exn).
Arguments Ret {A} a.
Arguments Throw {A} e.

Definition M (A : Type) : Type := Store → outcome A * Store.

Definition ret {A} (a : A) : M A := λ σ, (Ret a, σ).
Definition throw {A} (e : exn) : M A := λ σ, (Throw e, σ).
Definition bind {A B} (m : M A) (k : A → M B) : M B :=
  λ σ, match m σ with
       | (Ret a, σ') => k a σ'
       | (Throw e, σ') => (Throw e, σ')
       end.
Definition try_catch {A} (m : M A) (h : exn → M A) : M A :=
  λ σ, match m σ with
       | (Ret a, σ') => (Ret a, σ')
       | (Throw e, σ') => h e σ'
       end.

Notation "'let*' x ':=' m 'in' k" := (bind m (λ x, k))
  (at level 10, x name, m at level 100, k at level 200).
Notation "'do' m 'in' k" := (bind m (λ _, k))
  (at level 10, m at level 100, k at level 200).

(** [for (const x of l) { await f(x) }] *)
Fixpoint forM_ {A} (l : list A) (f : A → M unit) : M unit :=
  match l with
  | [] => ret tt
  | x :: l' => do f x in forM_ l' f
  end.

(** A loop that threads an accumulator (arrays pushed to, counters). *)
Fixpoint foldM {A B} (l : list A) (acc : B) (f : B → A → M B) : M B :=
  match l with
  | [] => ret acc
  | x :: l' => let* acc' := f acc x in foldM l' acc' f
  end.

Definition run {A} (m : M A) (σ : Store) : outcome A := fst (m σ).
Definition exec {A} (m : M A) (σ : Store) : Store := snd (m σ).

(** ** The store adapter ([services/redis.js])

    The adapter is not among the sources.  The specification describes
    it as "typed hash records, string records with TTL, set membership",
    and the services use it as the Redis commands named below.  The
    tables hold the keys that are alive: a key whose time to live has run
    out is taken out of them by [elapse], so that a read finds what has
    not expired. *)

(** Modelled from the spec: [getHash] of the missing adapter, HGETALL;
    [None] when the key holds no hash. *)
Definition getHash (key : string) : M (option hash) :=
  λ σ, (Ret (hashes σ !! key), σ).

(** Modelled from the spec: [setHash] of the missing adapter, HSET; the
    fields given are written over the record, its other fields stay
    (the services update single fields of a record with it). *)
Definition setHash (key : string) (data : hash) : M unit :=
  λ σ, (Ret tt,
        mkStore (<[key := data ∪ default ∅ (hashes σ !! key)]> (hashes σ))
                (strs σ) (sets σ) (lives σ)).

(** Modelled from the spec: [getString] of the missing adapter, GET. *)
Definition getString (key : string) : M (option string) :=
  λ σ, (Ret (strs σ !! key), σ).

(** Modelled from the spec: [setStringWithExpiry] of the missing adapter,
    SETEX: a string record with its TTL in seconds. *)
Definition setStringWithExpiry (key value : string) (ttl : Z) : M unit :=
  λ σ, (Ret tt,
        mkStore (hashes σ) (<[key := value]> (strs σ)) (sets σ)
                (<[key := (ttl * 1000)%Z]> (lives σ))).

(** Modelled from the spec: [setExpiry] of the missing adapter, EXPIRE. *)
Definition setExpiry (key : string) (ttl : Z) : M unit :=
  λ σ, (Ret tt,
        mkStore (hashes σ) (strs σ) (sets σ)
                (<[key := (ttl * 1000)%Z]> (lives σ))).

(** Modelled from the spec: [deleteKey] of the missing adapter, DEL: the
    key goes, whatever its type. *)
Definition deleteKey (key : string) : M unit :=
  λ σ, (Ret tt,
        mkStore (delete key (hashes σ)) (delete key (strs σ))
                (delete key (sets σ)) (delete key (lives σ))).

(** Modelled from the spec: the expiry of the store, which deletes a
    record when its time to live has run out ("expires by TTL", "record
    deleted").  A key has expired [δ] milliseconds after [σ] when it had
    at most [δ] milliseconds to live. *)
Definition expired (δ : Z) (σ : Store) (key : string) : bool :=
  match lives σ !! key with
  | Some rest => (rest <=? δ)%Z
  | None => false
  end.

(** The keys of a table that have not expired. *)
Definition unexpired {A} (δ : Z) (σ : Store) (m : gmap string A)
    : gmap string A :=
  map_imap (λ key v, if expired δ σ key then None else Some v) m.

(** Modelled from the spec: [elapse δ σ] is the store [δ] milliseconds
    after [σ], no command having reached it in between: the keys that
    have expired are gone, whatever their type, and the other keys that
    carry a time to live have [δ] milliseconds less of it.  Within one
    request no time passes. *)
Definition elapse (δ : Z) (σ : Store) : Store :=
  mkStore (unexpired δ σ (hashes σ)) (unexpired δ σ (strs σ))
          (unexpired δ σ (sets σ))
          (map_imap (λ _ rest, if (rest <=? δ)%Z then None else Some (rest - δ)%Z)
             (lives σ)).

(** The members of a set; a key that holds no set has none. *)
Definition members (σ : Store) (key : string) : gset string :=
  default ∅ (sets σ !! key).

(** [redis.smembers], [redis.sadd] and [redis.srem], called on the
    client directly.  The order in which SMEMBERS lists a set is not
    specified; the model lists it in the order of [elements]. *)
Definition smembers (key : string) : M (list string) :=
  λ σ, (Ret (elements (members σ key)), σ).

Definition sadd (key member : string) : M unit :=
  λ σ, (Ret tt,
        mkStore (hashes σ) (strs σ)
                (<[key := {[member]} ∪ members σ key]> (sets σ)) (lives σ)).

Definition srem (key member : string) : M unit :=
  λ σ, (Ret tt,
        mkStore (hashes σ) (strs σ)
                (<[key := members σ key ∖ {[member]}]> (sets σ)) (lives σ)).

(** Modelled from the spec: [storeMessageBlob] and [getMessageContent] of
    the missing adapter; the storage layout lists the fallback payload
    [dms:<localId>] and the released message [dms:release:<switchId>] as
    string records with a TTL, under the key the route passes.  A blob is
    read back for as long as its time to live has not run out. *)
Definition storeMessageBlob (key content : string) (ttl : Z) : M unit :=
  setStringWithExpiry key content ttl.

Definition getMessageContent (key : string) : M (option string) :=
  getString key.

(** ** External collaborators

    The signature middleware, the identity registry, the blob store, the
    cron secret of the configuration and the platform's text renderers are
    outside the services; they are taken as given. *)

Record Env := mkEnv {
  (** [verifySignature(signature, timestamp, expectedMessage, pubkey)] *)
  verifySignature : string → Z → string → string → bool;
  (** [getUserAccount(username)] resolves to an account object *)
  getUserAccount : option hval → bool;
  (** [fetch(url)]: the body of an ok response *)
  fetchUrl : string → option string;
  dmsCronSecret : string;
  toISOString : Z → string;
  JSON_stringify_array : list string → string;
  JSON_stringify : list (string * hval) → string
}.

(** [JSON.parse] of a field that holds the JSON text of a string array;
    anything else is not such a text. *)
Definition JSON_parse (v : option hval) : M (list string) :=
  match v with
  | Some (VList l) => ret l
  | _ => throw SyntaxError
  end.

(** An object literal given to [JSON.stringify]: fields whose value is
    [undefined] are not printed. *)
Definition fields (l : list (string * option hval)) : list (string * hval) :=
  omap (λ kv, match kv.2 with Some v => Some (kv.1, v) | None => None end) l.

(** [x === s] for a text [s]. *)
Definition is_text (v : option hval) (s : string) : bool :=
  bool_decide (v = Some (VStr s)).

(** ** recoveryService *)

Record Guardian := mkGuardian {
  pubkey : string;
  encryptedShare : string;
  shareIndex : Z
}.

Definition configKey (owner : string) : string :=
  "recovery:config:" +:+ owner.

Definition shareKey (guardian owner : string) : string :=
  "recovery:share:" +:+ guardian +:+ ":" +:+ owner.

Definition sessionKey (sessionId : string) : string :=
  "recovery:session:" +:+ sessionId.

Definition sessionShareKey (sessionId guardian : string) : string :=
  "recovery:session:" +:+ sessionId +:+ ":share:" +:+ guardian.

Definition SESSION_TTL : Z := 24 * 60 * 60.

Definition distributeShares (now : Z) (ownerPubkey : string) (threshold : Z)
    (guardians : list Guardian) : M unit :=
  let cfg : hash := list_to_map
    [("ownerPubkey", VStr ownerPubkey);
     ("threshold", VNum threshold);
     ("guardianPubkeys", VList (map pubkey guardians));
     ("createdAt", VTime now)] in
  do setHash (configKey ownerPubkey) cfg in
  forM_ guardians (λ g,
    let share : hash := list_to_map
      [("encryptedShare", VStr (encryptedShare g));
       ("ownerPubkey", VStr ownerPubkey);
       ("shareIndex", VNum (shareIndex g));
       ("createdAt", VTime now)] in
    setHash (shareKey (pubkey g) ownerPubkey) share).

Definition getRecoveryConfig (ownerPubkey : string) : M (option hash) :=
  let* data := getHash (configKey ownerPubkey) in
  match data with
  | None => ret None
  | Some d => if truthy (d !! "ownerPubkey") then ret (Some d) else ret None
  end.

Definition getShareForGuardian (guardianPubkey ownerPubkey : string)
    : M (option hash) :=
  let* data := getHash (shareKey guardianPubkey ownerPubkey) in
  match data with
  | None => ret None
  | Some d => if truthy (d !! "encryptedShare") then ret (Some d) else ret None
  end.

Definition revokeShares (ownerPubkey : string) : M unit :=
  let* cfg := getRecoveryConfig ownerPubkey in
  do match cfg with
     | Some c =>
         let* guardians := JSON_parse (c !! "guardianPubkeys") in
         forM_ guardians (λ g, deleteKey (shareKey g ownerPubkey))
     | None => ret tt
     end in
  deleteKey (configKey ownerPubkey).

Definition createSession (now : Z) (uuid : string)
    (ownerPubkey ephemeralPubkey : string) (requestedGuardians : list string)
    : M hash :=
  let* cfg := getRecoveryConfig ownerPubkey in
  match cfg with
  | None => throw (Error "No recovery config found for this identity")
  | Some c =>
      let* validGuardians := JSON_parse (c !! "guardianPubkeys") in
      do forM_ requestedGuardians (λ g,
           if bool_decide (g ∈ validGuardians) then ret tt
           else throw (Error (g +:+ " is not a guardian for this identity"))) in
      let sessionId := uuid in
      let session : hash := list_to_map
        [("sessionId", VStr sessionId);
         ("ownerPubkey", VStr ownerPubkey);
         ("ephemeralPubkey", VStr ephemeralPubkey);
         ("status", VStr "pending");
         ("approvals", VNum 0);
         ("threshold", of_number (Number (c !! "threshold")));
         ("guardianPubkeys", VList requestedGuardians);
         ("createdAt", VTime now)] in
      do setHash (sessionKey sessionId) session in
      do setExpiry (sessionKey sessionId) SESSION_TTL in
      ret session
  end.

Definition getSession (sessionId : string) : M (option hash) :=
  let* data := getHash (sessionKey sessionId) in
  match data with
  | None => ret None
  | Some d =>
      if truthy (d !! "sessionId") then
        ret (Some (<["threshold" := of_number (Number (d !! "threshold"))]>
                   (<["approvals" := of_number (Number (d !! "approvals"))]> d)))
      else ret None
  end.

Record Approval := mkApproval {
  approved : bool;
  approvalsReceived : option Z;
  thresholdRequired : option Z
}.

Section Services.
Context (E : Env).

(** A template literal [`${v}`]. *)
Definition text_of (v : option hval) : string :=
  match v with
  | None => "undefined"
  | Some (VStr s) => s
  | Some (VNum n) => pretty n
  | Some VNaN => "NaN"
  | Some (VList l) => JSON_stringify_array E l
  | Some (VTime ms) => toISOString E ms
  end.

Definition approveSession (sessionId guardianPubkey reEncryptedShare : string)
    : M Approval :=
  let* session := getSession sessionId in
  match session with
  | None => throw (Error "Session not found or expired")
  | Some s =>
      if negb (is_text (s !! "status") "pending") then
        throw (Error ("Session is " +:+ text_of (s !! "status")))
      else
        let* guardians := JSON_parse (s !! "guardianPubkeys") in
        if negb (bool_decide (guardianPubkey ∈ guardians)) then
          throw (Error "Not a valid guardian for this session")
        else
          let* existing := getString (sessionShareKey sessionId guardianPubkey) in
          if negb (bool_decide (existing = None ∨ existing = Some "")) then
            throw (Error "Guardian already approved this session")
          else
            do setStringWithExpiry (sessionShareKey sessionId guardianPubkey)
                 reEncryptedShare SESSION_TTL in
            let newCount := Z.succ <$> Number (s !! "approvals") in
            let ready :=
              match newCount, Number (s !! "threshold") with
              | Some n, Some t => (t <=? n)%Z
              | _, _ => false
              end in
            let updates : hash :=
              if ready
              then list_to_map [("approvals", of_number newCount);
                                ("status", VStr "ready")]
              else list_to_map [("approvals", of_number newCount)] in
            do setHash (sessionKey sessionId) updates in
            ret (mkApproval true newCount (Number (s !! "threshold")))
  end.

Definition getReleasedShares (sessionId : string)
    : M (list (string * string)) :=
  let* session := getSession sessionId in
  match session with
  | None => throw (Error "Session not found or expired")
  | Some s =>
      if negb (is_text (s !! "status") "ready") then
        throw (Error "Session not ready — more approvals needed")
      else
        let* guardians := JSON_parse (s !! "guardianPubkeys") in
        foldM guardians [] (λ shares g,
          let* share := getString (sessionShareKey sessionId g) in
          match share with
          | Some sh => if negb (String.eqb sh "") then ret (shares ++ [(g, sh)])%list
                       else ret shares
          | None => ret shares
          end)
  end.

End Services.

(** ** dmsService *)

Record DMSSwitchInput := mkInput {
  in_senderPubkey : string;
  in_recipientUsername : string;
  in_arweaveTxId : string;
  in_intervalHours : Z
}.

Definition switchKey (switchId : string) : string :=
  "dms:switch:" +:+ switchId.

Definition userSwitchesKey (pubkey : string) : string :=
  "dms:user:" +:+ pubkey.

Definition ACTIVE_SET : string := "dms:active".

Definition HOUR_MS : Z := 60 * 60 * 1000.

(** [new Date(v)]: the instant of an ISO text or of a number of
    milliseconds; anything else is an invalid date. *)
Definition Date_of (v : option hval) : option Z :=
  match v with
  | Some (VTime ms) => Some ms
  | Some (VNum n) => Some n
  | _ => None
  end.

(** [d.toISOString()] throws on an invalid date. *)
Definition ISO (d : option Z) : M Z :=
  match d with
  | Some ms => ret ms
  | None => throw RangeError
  end.

Definition createSwitch (now : Z) (uuid : string) (input : DMSSwitchInput)
    : M hash :=
  let switchId := uuid in
  let deadline := (now + in_intervalHours input * HOUR_MS)%Z in
  let record : hash := list_to_map
    [("switchId", VStr switchId);
     ("senderPubkey", VStr (in_senderPubkey input));
     ("recipientUsername", VStr (in_recipientUsername input));
     ("arweaveTxId", VStr (in_arweaveTxId input));
     ("intervalHours", VNum (in_intervalHours input));
     ("nextDeadline", VTime deadline);
     ("status", VStr "active");
     ("createdAt", VTime now)] in
  do setHash (switchKey switchId) record in
  do sadd (userSwitchesKey (in_senderPubkey input)) switchId in
  do sadd ACTIVE_SET switchId in
  ret record.

Definition getSwitch (switchId : string) : M (option hash) :=
  let* data := getHash (switchKey switchId) in
  match data with
  | None => ret None
  | Some d => if truthy (d !! "switchId") then ret (Some d) else ret None
  end.

Definition getUserSwitches (pubkey : string) : M (list hash) :=
  let* ids := smembers (userSwitchesKey pubkey) in
  foldM ids [] (λ switches id,
    let* sw := getSwitch id in
    match sw with
    | Some s => ret (switches ++ [s])%list
    | None => ret switches
    end).

Definition later (iso : Z) (latest : option Z) : option Z :=
  match latest with
  | None => Some iso
  | Some l => if (l <? iso)%Z then Some iso else Some l
  end.

Section DmsService.
Context (E : Env).

Definition refreshDeadlines (now : Z) (pubkey : string)
    : M (nat * option Z) :=
  let* switches := getUserSwitches pubkey in
  let active := filter (λ s : hash, s !! "status" = Some (VStr "active")) switches in
  let* latestDeadline := foldM active None (λ latestDeadline sw,
    let* iso := ISO ((λ n, now + n * HOUR_MS)%Z <$> Number (sw !! "intervalHours")) in
    do setHash (switchKey (text_of E (sw !! "switchId")))
         {[ "nextDeadline" := VTime iso ]} in
    ret (later iso latestDeadline)) in
  ret (length active, latestDeadline).

Definition cancelSwitch (switchId requesterPubkey : string) : M bool :=
  let* sw := getSwitch switchId in
  match sw with
  | None => ret false
  | Some s =>
      if negb (is_text (s !! "senderPubkey") requesterPubkey) then ret false
      else
        do setHash (switchKey switchId) {[ "status" := VStr "cancelled" ]} in
        do srem ACTIVE_SET switchId in
        do srem (userSwitchesKey requesterPubkey) switchId in
        ret true
  end.

Definition is_overdue (now : Z) (sw : hash) : bool :=
  match Date_of (sw !! "nextDeadline") with
  | Some d => (d <? now)%Z
  | None => false
  end.

Definition getOverdueSwitches (now : Z) : M (list hash) :=
  let* activeIds := smembers ACTIVE_SET in
  foldM activeIds [] (λ overdue id,
    let* sw := getSwitch id in
    match sw with
    | None => do srem ACTIVE_SET id in ret overdue
    | Some s =>
        if negb (is_text (s !! "status") "active") then
          do srem ACTIVE_SET id in ret overdue
        else if is_overdue now s then ret (overdue ++ [s])%list
        else ret overdue
    end).

Definition markTriggered (now : Z) (switchId : string) : M unit :=
  do setHash (switchKey switchId)
       (list_to_map [("status", VStr "triggered"); ("triggeredAt", VTime now)]) in
  srem ACTIVE_SET switchId.

End DmsService.

(** ** HTTP surface

    A request body is typed as the route's TypeScript annotation types it;
    a missing text field is the empty text, a missing number is [0] (both
    falsy, as [undefined] is), a missing or non-array [guardians] is
    [None].  A response is the status code and the JSON body. *)

Inductive body :=
  | BError (error : string)
  | BDistributed (guardianCount : nat) (threshold : Z)
  | BRequested (sessionId threshold : option hval)
  | BApproval (result : Approval)
  | BShares (shares : list (string * string))
  | BSuccess
  | BCreated (switchId nextDeadline : option hval)
  | BCheckedIn (switchCount : nat) (nextDeadline : option Z)
  | BList (switches : list (list (string * hval)))
  | BNoOverdue
  | BProcessed (processed total : nat) (errors : list string).

Definition Response : Type := Z * body.

Record DistributeReq := mkDistributeReq {
  d_senderPubkey : string;
  d_threshold : Z;
  d_guardians : option (list Guardian);
  d_signature : string;
  d_timestamp : Z
}.

Record SessionReq := mkSessionReq {
  r_ownerPubkey : string;
  r_ephemeralPubkey : string;
  r_requestedGuardians : option (list string)
}.

Record ApproveReq := mkApproveReq {
  a_guardianPubkey : string;
  a_reEncryptedShare : string;
  a_signature : string;
  a_timestamp : Z
}.

(** The body of [/revoke], [/checkin] and [DELETE /:switchId]. *)
Record SignedReq := mkSignedReq {
  s_senderPubkey : string;
  s_signature : string;
  s_timestamp : Z
}.

Record CreateReq := mkCreateReq {
  c_recipientUsername : string;
  c_encryptedMessage : string;
  c_checkInIntervalHours : Z;
  c_senderPubkey : string;
  c_signature : string;
  c_timestamp : Z
}.

Definition missing (s : string) : bool := String.eqb s "".

(** [error.message]: the text given to [new Error], or the engine's text
    for the exceptions the platform raises. *)
Definition message_of (e : exn) : string :=
  match e with
  | Error msg => msg
  | SyntaxError => "Unexpected token in JSON"
  | RangeError => "Invalid time value"
  | TypeError => "Cannot read properties of undefined"
  end.

Section Routes.
Context (E : Env).

(** *** routes/recovery.ts *)

Definition distribute_route (now : Z) (req : DistributeReq) : M Response :=
  try_catch
    (let senderPubkey := d_senderPubkey req in
     let threshold := d_threshold req in
     match d_guardians req with
     | None => ret (400, BError "Missing required fields")%Z
     | Some guardians =>
         if missing senderPubkey || (threshold =? 0)%Z then
           ret (400, BError "Missing required fields")%Z
         else if (threshold <? 2)%Z then
           ret (400, BError "Threshold must be at least 2")%Z
         else if (Z.of_nat (length guardians) <? threshold)%Z then
           ret (400, BError "Need at least as many guardians as the threshold")%Z
         else if (10 <? Z.of_nat (length guardians))%Z then
           ret (400, BError "Maximum 10 guardians allowed")%Z
         else if missing (d_signature req) || (d_timestamp req =? 0)%Z then
           ret (401, BError "Request must be signed")%Z
         else if negb (verifySignature E (d_signature req) (d_timestamp req)
                         ("recovery:distribute:" +:+ pretty (d_timestamp req))
                         senderPubkey) then
           ret (403, BError "Invalid signature")%Z
         else
           do revokeShares senderPubkey in
           do distributeShares now senderPubkey threshold guardians in
           ret (200, BDistributed (length guardians) threshold)%Z
     end)
    (λ _, ret (500, BError "Failed to distribute shares")%Z).

Definition request_route (now : Z) (uuid : string) (req : SessionReq)
    : M Response :=
  try_catch
    (match r_requestedGuardians req with
     | None => ret (400, BError "Missing required fields")%Z
     | Some requestedGuardians =>
         if missing (r_ownerPubkey req) || missing (r_ephemeralPubkey req) then
           ret (400, BError "Missing required fields")%Z
         else if bool_decide (requestedGuardians = []) then
           ret (400, BError "Must request at least one guardian")%Z
         else
           let* session := createSession now uuid (r_ownerPubkey req)
                             (r_ephemeralPubkey req) requestedGuardians in
           ret (200, BRequested (session !! "sessionId") (session !! "threshold"))%Z
     end)
    (λ error,
       let message := message_of error in
       if includes message "No recovery config" then
         ret (404, BError "No recovery setup found for this identity")%Z
       else if includes message "not a guardian" then
         ret (400, BError message)%Z
       else ret (500, BError "Failed to create recovery session")%Z).

Definition approve_route (sessionId : string) (req : ApproveReq) : M Response :=
  try_catch
    (if missing (a_guardianPubkey req) || missing (a_reEncryptedShare req)
        || missing (a_signature req) || (a_timestamp req =? 0)%Z then
       ret (400, BError "Missing required fields")%Z
     else if negb (verifySignature E (a_signature req) (a_timestamp req)
                     ("recovery:approve:" +:+ sessionId +:+ ":"
                        +:+ pretty (a_timestamp req))
                     (a_guardianPubkey req)) then
       ret (403, BError "Invalid signature")%Z
     else
       let* result := approveSession E sessionId (a_guardianPubkey req)
                        (a_reEncryptedShare req) in
       ret (200, BApproval result)%Z)
    (λ error,
       let message := message_of error in
       if includes message "not found" || includes message "expired" then
         ret (404, BError message)%Z
       else if includes message "already approved" then
         ret (409, BError message)%Z
       else if includes message "not a valid guardian" then
         ret (403, BError message)%Z
       else ret (500, BError "Failed to approve recovery")%Z).

Definition shares_route (sessionId : string) : M Response :=
  try_catch
    (let* shares := getReleasedShares sessionId in
     ret (200, BShares shares)%Z)
    (λ error,
       let message := message_of error in
       if includes message "not found" || includes message "expired" then
         ret (404, BError message)%Z
       else if includes message "not ready" then
         ret (403, BError "Not enough guardians have approved yet")%Z
       else ret (500, BError "Failed to get shares")%Z).

Definition revoke_route (req : SignedReq) : M Response :=
  try_catch
    (if missing (s_senderPubkey req) || missing (s_signature req)
        || (s_timestamp req =? 0)%Z then
       ret (400, BError "Missing required fields")%Z
     else if negb (verifySignature E (s_signature req) (s_timestamp req)
                     ("recovery:revoke:" +:+ pretty (s_timestamp req))
                     (s_senderPubkey req)) then
       ret (403, BError "Invalid signature")%Z
     else
       do revokeShares (s_senderPubkey req) in
       ret (200, BSuccess)%Z)
    (λ _, ret (500, BError "Failed to revoke shares")%Z).

(** *** routes/dms.ts *)

Definition YEAR_S : Z := 365 * 24 * 60 * 60.
Definition RELEASE_TTL : Z := 90 * 24 * 60 * 60.

(** [upload] is what [uploadToArweave(encryptedMessage)] does on this
    request: the transaction id, or [None] when it throws; [rand] is the
    random suffix of the fallback id. *)
Definition create_route (now : Z) (uuid rand : string) (upload : option string)
    (req : CreateReq) : M Response :=
  try_catch
    (let recipientUsername := c_recipientUsername req in
     let encryptedMessage := c_encryptedMessage req in
     let checkInIntervalHours := c_checkInIntervalHours req in
     let senderPubkey := c_senderPubkey req in
     if missing recipientUsername || missing encryptedMessage
        || (checkInIntervalHours =? 0)%Z || missing senderPubkey then
       ret (400, BError "Missing required fields")%Z
     else if (checkInIntervalHours <? 1)%Z || (8760 <? checkInIntervalHours)%Z then
       ret (400, BError "Interval must be between 1 and 8760 hours")%Z
     else if missing (c_signature req) || (c_timestamp req =? 0)%Z then
       ret (401, BError "Request must be signed")%Z
     else if negb (verifySignature E (c_signature req) (c_timestamp req)
                     ("dms:create:" +:+ recipientUsername +:+ ":"
                        +:+ pretty (c_timestamp req))
                     senderPubkey) then
       ret (403, BError "Invalid signature")%Z
     else if negb (getUserAccount E (Some (VStr recipientUsername))) then
       ret (404, BError "Recipient username not found on-chain")%Z
     else
       let* arweaveTxId :=
         match upload with
         | Some txid => ret txid
         | None =>
             let fallbackId := "local-" +:+ pretty now +:+ "-" +:+ rand in
             do storeMessageBlob ("dms:" +:+ fallbackId) encryptedMessage YEAR_S in
             ret ("local:" +:+ fallbackId)
         end in
       let* sw := createSwitch now uuid
                    (mkInput senderPubkey recipientUsername arweaveTxId
                       checkInIntervalHours) in
       ret (200, BCreated (sw !! "switchId") (sw !! "nextDeadline"))%Z)
    (λ _, ret (500, BError "Failed to create dead man's switch")%Z).

Definition checkin_route (now : Z) (req : SignedReq) : M Response :=
  try_catch
    (if missing (s_senderPubkey req) || missing (s_signature req)
        || (s_timestamp req =? 0)%Z then
       ret (400, BError "Missing required fields")%Z
     else if negb (verifySignature E (s_signature req) (s_timestamp req)
                     ("dms:checkin:" +:+ pretty (s_timestamp req))
                     (s_senderPubkey req)) then
       ret (403, BError "Invalid signature")%Z
     else
       let* result := refreshDeadlines E now (s_senderPubkey req) in
       ret (200, BCheckedIn result.1 result.2)%Z)
    (λ _, ret (500, BError "Failed to check in")%Z).

Definition list_route (pubkey : string) : M Response :=
  try_catch
    (let* switches := getUserSwitches pubkey in
     let list := map (λ sw : hash, fields
       [("switchId", sw !! "switchId");
        ("recipientUsername", sw !! "recipientUsername");
        ("intervalHours", sw !! "intervalHours");
        ("nextDeadline", sw !! "nextDeadline");
        ("status", sw !! "status");
        ("createdAt", sw !! "createdAt");
        ("triggeredAt", sw !! "triggeredAt")]) switches in
     ret (200, BList list)%Z)
    (λ _, ret (500, BError "Failed to list switches")%Z).

Definition cancel_route (switchId : string) (req : SignedReq) : M Response :=
  try_catch
    (if missing (s_senderPubkey req) || missing (s_signature req)
        || (s_timestamp req =? 0)%Z then
       ret (400, BError "Missing required fields")%Z
     else if negb (verifySignature E (s_signature req) (s_timestamp req)
                     ("dms:cancel:" +:+ switchId +:+ ":"
                        +:+ pretty (s_timestamp req))
                     (s_senderPubkey req)) then
       ret (403, BError "Invalid signature")%Z
     else
       let* cancelled := cancelSwitch switchId (s_senderPubkey req) in
       if negb cancelled then
         ret (404, BError "Switch not found or not owned by you")%Z
       else ret (200, BSuccess)%Z)
    (λ _, ret (500, BError "Failed to cancel switch")%Z).

(** The released message written for an overdue switch. *)
Definition release_record (now : Z) (sw : hash) (encryptedPayload : string)
    : string :=
  JSON_stringify E (fields
    [("type", Some (VStr "dms_release"));
     ("switchId", sw !! "switchId");
     ("senderPubkey", sw !! "senderPubkey");
     ("recipientUsername", sw !! "recipientUsername");
     ("encryptedMessage", Some (VStr encryptedPayload));
     ("triggeredAt", Some (VTime now))]).

Definition fetch_payload (sw : hash) : M (option string) :=
  match sw !! "arweaveTxId" with
  | Some (VStr arweaveTxId) =>
      if startsWith arweaveTxId "local:" then
        let localId := replace_first arweaveTxId "local:" "" in
        getMessageContent ("dms:" +:+ localId)
      else
        ret (fetchUrl E ("https://devnet.irys.xyz/" +:+ arweaveTxId))
  | _ => throw TypeError
  end.

(** The state of the sweep loop: the counter [processed], the [errors]
    array and, for the statements about the switches that were counted,
    the ids at which the counter was incremented. *)
Record Sweep := mkSweep {
  processed : nat;
  errors : list string;
  counted : list string
}.

(** One iteration of [for (const sw of overdue)]. *)
Definition process_switch (now : Z) (acc : Sweep) (sw : hash) : M Sweep :=
  let switchId := text_of E (sw !! "switchId") in
  try_catch
    (if negb (getUserAccount E (sw !! "recipientUsername")) then
       ret (mkSweep (processed acc)
              (errors acc ++ [switchId +:+ ": recipient @"
                               +:+ text_of E (sw !! "recipientUsername")
                               +:+ " not found"])%list
              (counted acc))
     else
       let* encryptedPayload := fetch_payload sw in
       match encryptedPayload with
       | Some payload =>
           if missing payload then
             ret (mkSweep (processed acc)
                    (errors acc ++ [switchId +:+ ": could not retrieve encrypted payload"])%list
                    (counted acc))
           else
             let releaseId := "dms:release:" +:+ switchId in
             do storeMessageBlob releaseId (release_record now sw payload)
                  RELEASE_TTL in
             do markTriggered now switchId in
             ret (mkSweep (S (processed acc)) (errors acc)
                    (counted acc ++ [switchId])%list)
       | None =>
           ret (mkSweep (processed acc)
                  (errors acc ++ [switchId +:+ ": could not retrieve encrypted payload"])%list
                  (counted acc))
       end)
    (λ err,
       ret (mkSweep (processed acc)
              (errors acc ++ [switchId +:+ ": " +:+ message_of err])%list
              (counted acc))).

Definition sweep (now : Z) (overdue : list hash) : M Sweep :=
  foldM overdue (mkSweep 0 [] []) (process_switch now).

Definition process_route (now : Z) (cronSecret : option string) : M Response :=
  try_catch
    (if negb (bool_decide (cronSecret = Some (dmsCronSecret E)))
        || bool_decide (cronSecret = Some "") then
       ret (401, BError "Invalid cron secret")%Z
     else
       let* overdue := getOverdueSwitches now in
       if bool_decide (overdue = []) then ret (200, BNoOverdue)%Z
       else
         let* result := sweep now overdue in
         ret (200, BProcessed (processed result) (length overdue)
                     (errors result))%Z)
    (λ _, ret (500, BError "Failed to process switches")%Z).

End Routes.

(** * Vocabulary of the statements *)

(** The write of one guardian's share record, and the deletion of a list
    of keys: what the loops of [distributeShares] and [revokeShares] do
    to the store. *)
Definition write_share (now : Z) (o : string) (g : Guardian) (σ : Store) : Store :=
  exec (setHash (shareKey (pubkey g) o) (list_to_map
      [("encryptedShare", VStr (encryptedShare g));
       ("ownerPubkey", VStr o);
       ("shareIndex", VNum (shareIndex g));
       ("createdAt", VTime now)])) σ.

Definition delete_keys (ks : list string) (σ : Store) : Store :=
  foldl (λ s k, exec (deleteKey k) s) σ ks.


(** A request body that carries its three fields and a signature that the
    middleware accepts for the challenge [action ++ timestamp]. *)
Definition signed_by (E : Env) (action : string) (req : SignedReq) : bool :=
  negb (missing (s_senderPubkey req)) && negb (missing (s_signature req))
  && negb (s_timestamp req =? 0)%Z
  && verifySignature E (s_signature req) (s_timestamp req)
       (action +:+ pretty (s_timestamp req)) (s_senderPubkey req).

(** No key [k] of any type. *)
Definition absent (σ : Store) (k : string) : Prop :=
  hashes σ !! k = None ∧ strs σ !! k = None
  ∧ sets σ !! k = None ∧ ttls σ !! k = None.

(** Two stores hold the same data under [k], with the same time to
    live. *)
Definition same_at (σ σ' : Store) (k : string) : Prop :=
  hashes σ' !! k = hashes σ !! k ∧ strs σ' !! k = strs σ !! k
  ∧ sets σ' !! k = sets σ !! k ∧ lives σ' !! k = lives σ !! k.

(** The checks of [POST /distribute], in the order the route makes them;
    none of them reads [shareIndex]. *)
Definition distribute_checks (E : Env) (req : DistributeReq)
    (gs : list Guardian) : bool :=
  negb (missing (d_senderPubkey req))
  && (2 <=? d_threshold req)%Z
  && (d_threshold req <=? Z.of_nat (length gs))%Z
  && (Z.of_nat (length gs) <=? 10)%Z
  && negb (missing (d_signature req)) && negb (d_timestamp req =? 0)%Z
  && verifySignature E (d_signature req) (d_timestamp req)
       ("recovery:distribute:" +:+ pretty (d_timestamp req)) (d_senderPubkey req).

(** The config stored for [o], if any, lists guardians as
    [distributeShares] writes them. *)
Definition config_wf (σ : Store) (o : string) : Prop :=
  ∀ c, hashes σ !! configKey o = Some c →
    ∃ l, c !! "guardianPubkeys" = Some (VList l).

(** The approve request carries its fields and a signature accepted for
    [recovery:approve:<sessionId>:<timestamp>]. *)
Definition approve_signed (E : Env) (sessionId : string) (req : ApproveReq)
    : bool :=
  negb (missing (a_guardianPubkey req)) && negb (missing (a_reEncryptedShare req))
  && negb (missing (a_signature req)) && negb (a_timestamp req =? 0)%Z
  && verifySignature E (a_signature req) (a_timestamp req)
       ("recovery:approve:" +:+ sessionId +:+ ":" +:+ pretty (a_timestamp req))
       (a_guardianPubkey req).

(** The session record that [createSession] writes under a fresh id, as
    [getSession] and the approval read it. *)
Definition pending_session (d : hash) (requested : list string)
    (threshold : Z) : Prop :=
  truthy (d !! "sessionId") = true
  ∧ d !! "status" = Some (VStr "pending")
  ∧ d !! "approvals" = Some (VNum 0)
  ∧ d !! "threshold" = Some (VNum threshold)
  ∧ d !! "guardianPubkeys" = Some (VList requested).

(** The owner [o] has a config with this threshold whose guardians
    include the requested ones. *)
Definition configured (σ : Store) (o : string) (threshold : Z)
    (requested : list string) : Prop :=
  ∃ c valid, hashes σ !! configKey o = Some c
    ∧ truthy (c !! "ownerPubkey") = true
    ∧ c !! "threshold" = Some (VNum threshold)
    ∧ c !! "guardianPubkeys" = Some (VList valid)
    ∧ requested ⊆ valid.

(** The session id is a fresh UUID: no session and no session share is
    stored under it. *)
Definition fresh_session (σ : Store) (sid : string) : Prop :=
  sid ≠ "" ∧ hashes σ !! sessionKey sid = None
  ∧ ∀ g, strs σ !! sessionShareKey sid g = None.

(** What [getSession] returns for a stored record: the record with its
    two counters read through [Number]. *)
Definition session_view (d : hash) : hash :=
  <["threshold" := of_number (Number (d !! "threshold"))]>
    (<["approvals" := of_number (Number (d !! "approvals"))]> d).

(** The store after an accepted approval. *)
Definition approved_store (σ : Store) (sid g share : string) (updates : hash)
    : Store :=
  exec (setHash (sessionKey sid) updates)
    (exec (setStringWithExpiry (sessionShareKey sid g) share SESSION_TTL) σ).


(** ** Dead-man's switches *)

(** The record [getSwitch] returns for an id: the stored hash when it has
    a [switchId]. *)
Definition visible (σ : Store) (switchId : string) : option hash :=
  match hashes σ !! switchKey switchId with
  | Some d => if truthy (d !! "switchId") then Some d else None
  | None => None
  end.

Definition releaseKey (switchId : string) : string :=
  "dms:release:" +:+ switchId.

(** The cancel request carries its fields and a signature accepted for
    [dms:cancel:<switchId>:<timestamp>]. *)
Definition cancel_signed (E : Env) (switchId : string) (req : SignedReq)
    : bool :=
  negb (missing (s_senderPubkey req)) && negb (missing (s_signature req))
  && negb (s_timestamp req =? 0)%Z
  && verifySignature E (s_signature req) (s_timestamp req)
       ("dms:cancel:" +:+ switchId +:+ ":" +:+ pretty (s_timestamp req))
       (s_senderPubkey req).

(** A record as [createSwitch] writes it under [id]. *)
Definition wf_switch (id : string) (h : hash) : Prop :=
  id ≠ ""
  ∧ h !! "switchId" = Some (VStr id)
  ∧ (∃ pk, h !! "senderPubkey" = Some (VStr pk))
  ∧ (∃ r, h !! "recipientUsername" = Some (VStr r))
  ∧ (∃ n, h !! "intervalHours" = Some (VNum n)).

(** I5 as the code keeps it: an active switch is in its owner's index
    and in the active index, a cancelled one is in neither, and a
    triggered one is not in the active index. *)
Definition indexed (σ : Store) (id : string) (h : hash) : Prop :=
  ∀ pk, h !! "senderPubkey" = Some (VStr pk) →
    (h !! "status" = Some (VStr "active") →
       id ∈ members σ (userSwitchesKey pk) ∧ id ∈ members σ ACTIVE_SET)
    ∧ (h !! "status" = Some (VStr "cancelled") →
       (id ∉ members σ (userSwitchesKey pk)) ∧ (id ∉ members σ ACTIVE_SET))
    ∧ (h !! "status" = Some (VStr "triggered") →
       id ∉ members σ ACTIVE_SET).

(** The invariant of the switch store: records are well formed and
    indexed as above, and a user's index only holds ids of that user's
    switches. *)
Definition dms_inv (σ : Store) : Prop :=
  (∀ id h, hashes σ !! switchKey id = Some h → wf_switch id h ∧ indexed σ id h)
  ∧ (∀ pk id, id ∈ members σ (userSwitchesKey pk) →
       ∃ h, hashes σ !! switchKey id = Some h
            ∧ h !! "senderPubkey" = Some (VStr pk)).

(** I5 as the specification words it: active switches are in both
    indices, switches in any other status in neither. *)
Definition I5 (σ : Store) : Prop :=
  ∀ id h pk, hashes σ !! switchKey id = Some h →
    h !! "senderPubkey" = Some (VStr pk) →
    (h !! "status" = Some (VStr "active") →
       id ∈ members σ (userSwitchesKey pk) ∧ id ∈ members σ ACTIVE_SET)
    ∧ (h !! "status" ≠ Some (VStr "active") →
       (id ∉ members σ (userSwitchesKey pk)) ∧ (id ∉ members σ ACTIVE_SET)).

(** The store after [cancelSwitch] has accepted the request. *)
Definition cancelled_store (σ : Store) (id o : string) : Store :=
  exec (srem (userSwitchesKey o) id)
    (exec (srem ACTIVE_SET id)
       (exec (setHash (switchKey id) {[ "status" := VStr "cancelled" ]}) σ)).

(** The switch id is a fresh UUID: no record under it, and no index
    holds it. *)
Definition fresh_switch (σ : Store) (uuid : string) : Prop :=
  uuid ≠ "" ∧ hashes σ !! switchKey uuid = None
  ∧ ∀ k, uuid ∉ members σ k.

(** The id under which a loaded record is written back, the deadline a
    check-in at [now] gives it, and the write of that deadline. *)
Definition tid (E : Env) (sw : hash) : string := text_of E (sw !! "switchId").

Definition bumped_deadline (now : Z) (sw : hash) : Z :=
  (now + default 0 (Number (sw !! "intervalHours")) * HOUR_MS)%Z.

Definition bump (E : Env) (now : Z) (sw : hash) (σ : Store) : Store :=
  exec (setHash (switchKey (tid E sw))
          {[ "nextDeadline" := VTime (bumped_deadline now sw) ]}) σ.

(** The switch under [id] is readable and active. *)
Definition is_active (σ : Store) (id : string) : bool :=
  match visible σ id with
  | Some h => bool_decide (h !! "status" = Some (VStr "active"))
  | None => false
  end.

(** The switch [h] stored under [id] is active and owned by [o]. *)
Definition active_of (σ : Store) (o id : string) (h : hash) : Prop :=
  hashes σ !! switchKey id = Some h
  ∧ h !! "senderPubkey" = Some (VStr o)
  ∧ h !! "status" = Some (VStr "active").

(** [h'] is [h] with at most its deadline rewritten. *)
Definition same_but_deadline (h h' : hash) : Prop :=
  ∀ f, f ≠ "nextDeadline" → h' !! f = h !! f.

(** The records a check-in of [o] loads and finds active. *)
Definition active_switches (σ : Store) (o : string) : list hash :=
  filter (λ s : hash, s !! "status" = Some (VStr "active"))
    (omap (visible σ) (elements (members σ (userSwitchesKey o)))).

(** The sweep's scan of the active index over a store whose records are
    those of [σ0]: the record of [id] when it is readable, active and past
    its deadline, and the clean-up of an id that is not readable or not
    active. *)
Definition due (σ0 : Store) (now : Z) (id : string) : option hash :=
  match visible σ0 id with
  | Some s => if is_text (s !! "status") "active" && is_overdue now s
              then Some s else None
  | None => None
  end.

Definition clean (σ0 : Store) (s : Store) (id : string) : Store :=
  if is_active σ0 id then s else exec (srem ACTIVE_SET id) s.

Definition cleaned (σ : Store) : Store :=
  foldl (clean σ) σ (elements (members σ ACTIVE_SET)).

Definition overdue_switches (σ : Store) (now : Z) : list hash :=
  omap (due σ now) (elements (members σ ACTIVE_SET)).

(** The payload the sweep obtains for an overdue switch, when the
    recipient resolves and the payload is there. *)
Definition deliverable (E : Env) (σ : Store) (sw : hash) : option string :=
  if getUserAccount E (sw !! "recipientUsername") then
    match run (fetch_payload E sw) σ with
    | Ret (Some p) => if missing p then None else Some p
    | _ => None
    end
  else None.

(** The two writes of the sweep for a switch it delivers. *)
Definition release (E : Env) (now : Z) (sw : hash) (p : string) (σ : Store)
    : Store :=
  exec (markTriggered now (tid E sw))
    (exec (storeMessageBlob (releaseKey (tid E sw)) (release_record E now sw p)
             RELEASE_TTL) σ).

(** The state of a switch the sweep has delivered with payload [p]. *)
Definition released (E : Env) (now : Z) (σ : Store) (sw : hash) (p : string)
    : Prop :=
  (∃ h, hashes σ !! switchKey (tid E sw) = Some h
        ∧ h !! "status" = Some (VStr "triggered")
        ∧ h !! "triggeredAt" = Some (VTime now))
  ∧ (tid E sw ∉ members σ ACTIVE_SET)
  ∧ strs σ !! releaseKey (tid E sw) = Some (release_record E now sw p)
  ∧ ttls σ !! releaseKey (tid E sw) = Some RELEASE_TTL.

(** The fallback key a switch reads its payload from, if it has one. *)
Definition local_key (sw : hash) : option string :=
  match sw !! "arweaveTxId" with
  | Some (VStr tx) =>
      if startsWith tx "local:"
      then Some ("dms:" +:+ replace_first tx "local:" "") else None
  | _ => None
  end.

(** No switch of [l] is released under the fallback key of [sw]. *)
Definition payload_stable (E : Env) (sw : hash) (l : list hash) : Prop :=
  ∀ k sw', local_key sw = Some k → sw' ∈ l → releaseKey (tid E sw') ≠ k.

(** The checks of [POST /create] that come before the upload: fields,
    interval range, signature, and the recipient resolving. *)
Definition create_accepts (E : Env) (req : CreateReq) : bool :=
  negb (missing (c_recipientUsername req))
  && negb (missing (c_encryptedMessage req))
  && (1 <=? c_checkInIntervalHours req)%Z
  && (c_checkInIntervalHours req <=? 8760)%Z
  && negb (missing (c_senderPubkey req))
  && negb (missing (c_signature req)) && negb (c_timestamp req =? 0)%Z
  && verifySignature E (c_signature req) (c_timestamp req)
       ("dms:create:" +:+ c_recipientUsername req +:+ ":"
          +:+ pretty (c_timestamp req)) (c_senderPubkey req)
  && getUserAccount E (Some (VStr (c_recipientUsername req))).

(** The payload handle of a create whose upload gave [upload], and the
    store in which the switch is then created. *)
Definition payload_handle (now : Z) (rand : string) (upload : option string)
    : string :=
  match upload with
  | Some txid => txid
  | None => "local:" +:+ ("local-" +:+ pretty now +:+ "-" +:+ rand)
  end.

Definition payload_stored (now : Z) (rand : string) (upload : option string)
    (req : CreateReq) (σ : Store) : Store :=
  match upload with
  | Some _ => σ
  | None =>
      exec (storeMessageBlob ("dms:" +:+ ("local-" +:+ pretty now +:+ "-" +:+ rand))
              (c_encryptedMessage req) YEAR_S) σ
  end.

(** ** Reachable stores *)

(** One request served: any request to any of the routes, a create
    drawing a fresh switch id; or time passing between two requests. *)
Inductive api_step (E : Env) (σ : Store) : Store → Prop :=
  | step_distribute now req :
      api_step E σ (exec (distribute_route E now req) σ)
  | step_request now uuid req :
      api_step E σ (exec (request_route now uuid req) σ)
  | step_approve sessionId req :
      api_step E σ (exec (approve_route E sessionId req) σ)
  | step_shares sessionId :
      api_step E σ (exec (shares_route sessionId) σ)
  | step_revoke req :
      api_step E σ (exec (revoke_route E req) σ)
  | step_create now uuid rand upload req :
      uuid ≠ "" → hashes σ !! switchKey uuid = None →
      api_step E σ (exec (create_route E now uuid rand upload req) σ)
  | step_checkin now req :
      api_step E σ (exec (checkin_route E now req) σ)
  | step_list pk :
      api_step E σ (exec (list_route pk) σ)
  | step_cancel switchId req :
      api_step E σ (exec (cancel_route E switchId req) σ)
  | step_process now cronSecret :
      api_step E σ (exec (process_route E now cronSecret) σ)
  | step_elapse δ :
      (0 ≤ δ)%Z → api_step E σ (elapse δ σ).

Definition reachable (E : Env) (σ : Store) : Prop :=
  rtc (api_step E) empty_store σ.

(** Two stores hold the same switch records and the same indices. *)
Definition same_switches (σ σ' : Store) : Prop :=
  (∀ id, hashes σ' !! switchKey id = hashes σ !! switchKey id)
  ∧ (∀ pk, sets σ' !! userSwitchesKey pk = sets σ !! userSwitchesKey pk)
  ∧ sets σ' !! ACTIVE_SET = sets σ !! ACTIVE_SET.

(** The switch records and the two indices carry no time to live. *)
Definition switches_untimed (σ : Store) : Prop :=
  (∀ id, lives σ !! switchKey id = None)
  ∧ (∀ pk, lives σ !! userSwitchesKey pk = None)
  ∧ lives σ !! ACTIVE_SET = None.

(** A key that is no switch record and no index. *)
Definition timed_key (k : string) : Prop :=
  (∀ id, k ≠ switchKey id) ∧ (∀ pk, k ≠ userSwitchesKey pk) ∧ k ≠ ACTIVE_SET.

(** The computation keeps the property [P] of the store, however it
    ends. *)
Definition keeps {A} (P : Store → Prop) (m : M A) : Prop :=
  ∀ σ, P σ → P (exec m σ).

(** A key of the recovery service. *)
Definition recovery_key (k : string) : Prop := ∃ s, k = "recovery:" +:+ s.

(** * Fixtures

    A test double for the collaborators and the requests of the literal
    scenarios of the specification, on which the statements are
    instantiated. *)

(** Reading a computed outcome: whether it loaded a record, and a field
    of the record it loaded. *)
Definition loaded {A} (o : outcome (option A)) : bool :=
  match o with
  | Ret (Some _) => true
  | _ => false
  end.

Definition field (o : outcome (option hash)) (f : string) : option hval :=
  match o with
  | Ret (Some h) => h !! f
  | _ => None
  end.

Definition field_text (v : hval) : string :=
  match v with
  | VStr s => s
  | VNum n => pretty n
  | VNaN => "NaN"
  | VList l => String.concat "," l
  | VTime ms => "T" +:+ pretty ms
  end.

Definition test_env : Env := {|
  verifySignature := λ signature _ _ pubkey, String.eqb signature ("sig-" +:+ pubkey);
  getUserAccount := λ username, bool_decide (username = Some (VStr "alice"));
  fetchUrl := λ url,
    if String.eqb url "https://devnet.irys.xyz/tx-1" then Some "ciphertext" else None;
  dmsCronSecret := "cron-secret";
  toISOString := λ ms, "T" +:+ pretty ms;
  JSON_stringify_array := String.concat ",";
  JSON_stringify := λ o,
    String.concat ";" (map (λ kv, kv.1 +:+ "=" +:+ field_text kv.2) o)
|}.

(** Scenario 1: owner O, guardians G1, G2, G3, threshold 2. *)
Definition three_guardians : list Guardian :=
  [mkGuardian "G1" "c1" 0; mkGuardian "G2" "c2" 1; mkGuardian "G3" "c3" 2].

Definition distribute_O : DistributeReq :=
  mkDistributeReq "O" 2 (Some three_guardians) "sig-O" 1000.

Definition revoke_O : SignedReq := mkSignedReq "O" "sig-O" 2000.

Definition after_distribute : Store :=
  exec (distribute_route test_env 1000 distribute_O) empty_store.

(** A distribute request with a repeated and a missing share index. *)
Definition repeated_index : list Guardian :=
  [mkGuardian "G1" "c1" 0; mkGuardian "G2" "c2" 0; mkGuardian "G3" "c3" 7].

Definition distribute_repeated : DistributeReq :=
  mkDistributeReq "O" 2 (Some repeated_index) "sig-O" 1000.

(** Scenario 1 continued: the new device requests a session with the
    three guardians, then G1 and G2 approve. *)
Definition request_O : SessionReq :=
  mkSessionReq "O" "EP" (Some ["G1"; "G2"; "G3"]).

Definition approve_by (g share : string) : ApproveReq :=
  mkApproveReq g share ("sig-" +:+ g) 3000.

Definition after_request : Store :=
  exec (request_route 1500 "sid-1" request_O) after_distribute.

Definition after_two_approvals : Store :=
  exec (approve_route test_env "sid-1" (approve_by "G2" "r2"))
    (exec (approve_route test_env "sid-1" (approve_by "G1" "r1")) after_request).

(** Scenario 4: sender S creates a switch to alice with a one-hour
    interval at [t0]; the blob store accepts the upload as [tx-1]. *)
Definition t0 : Z := 1000000.

Definition create_S : CreateReq :=
  mkCreateReq "alice" "ciphertext" 1 "S" "sig-S" 999000.

Definition signed_S : SignedReq := mkSignedReq "S" "sig-S" 999500.

Definition after_create : Store :=
  exec (create_route test_env t0 "sw-1" "x7k2p9" (Some "tx-1") create_S) empty_store.

(** The sweep two hours later. *)
Definition after_sweep : Store :=
  exec (process_route test_env (t0 + 2 * HOUR_MS) (Some "cron-secret")) after_create.

Definition after_cancel : Store :=
  exec (cancel_route test_env "sw-1" signed_S) after_create.

(** Scenario 6: the same create while the blob store is down. *)
Definition after_fallback_create : Store :=
  exec (create_route test_env t0 "sw-1" "x7k2p9" None create_S) empty_store.

Definition after_fallback_sweep : Store :=
  exec (process_route test_env (t0 + 2 * HOUR_MS) (Some "cron-secret"))
    (elapse (2 * HOUR_MS) after_fallback_create).


(** * The rest of the HTTP surface and the client helper

    The routes of [routes/recovery.ts] that only read, the key scan of
    [getGuardianships], and [getTimeRemaining] of the client module. *)

(** The JSON bodies of the read-only recovery routes. *)
Inductive info :=
  | IError (error : string)
  | IGuardians (configured : bool) (guardians : list string)
      (threshold : option Z) (createdAt : option hval)
  | IGuardianships (guardianships : list string)
  | IStatus (sessionId status approvalsReceived thresholdRequired
             ownerPubkey createdAt : option hval).

(** [GET /guardians/:pubkey] *)
Definition guardians_route (pubkey : string) : M (Z * info) :=
  try_catch
    (let* cfg := getRecoveryConfig pubkey in
     match cfg with
     | None => ret (200, IGuardians false [] (Some 0) None)%Z
     | Some c =>
         let* guardianPubkeys := JSON_parse (c !! "guardianPubkeys") in
         ret (200, IGuardians true guardianPubkeys (Number (c !! "threshold"))
                     (c !! "createdAt"))%Z
     end)
    (λ _, ret (500, IError "Failed to get guardians")%Z).

(** [GET /session/:sessionId/status] *)
Definition status_route (sessionId : string) : M (Z * info) :=
  try_catch
    (let* session := getSession sessionId in
     match session with
     | None => ret (404, IError "Session not found or expired")%Z
     | Some s =>
         ret (200, IStatus (s !! "sessionId") (s !! "status") (s !! "approvals")
                     (s !! "threshold") (s !! "ownerPubkey") (s !! "createdAt"))%Z
     end)
    (λ _, ret (500, IError "Failed to get session status")%Z).

(** [String.prototype.split] with a separator of one character: the
    pieces between the separators, at least one piece. *)
Fixpoint split (s : string) (sep : Ascii.ascii) : list string :=
  match s with
  | EmptyString => [EmptyString]
  | String c s' =>
      match split s' sep with
      | p :: ps => if Ascii.eqb c sep then EmptyString :: p :: ps
                   else String c p :: ps
      | [] => [String c EmptyString]
      end
  end.

Section Guardianships.
(** [findKeys(pattern)] of the store adapter: the keys of the store that
    match the pattern.  The adapter is not among the sources; the scan is
    taken as given. *)
Context (findKeys : string → M (list string)).

Definition getGuardianships (guardianPubkey : string) : M (list string) :=
  let* keys := findKeys ("recovery:share:" +:+ guardianPubkey +:+ ":*") in
  ret (map (λ k, let parts := split k ":"%char in
                 default "undefined" (last parts)) keys).

(** [GET /guardianships/:pubkey] *)
Definition guardianships_route (pubkey : string) : M (Z * info) :=
  try_catch
    (let* owners := getGuardianships pubkey in
     ret (200, IGuardianships owners)%Z)
    (λ _, ret (500, IError "Failed to get guardianships")%Z).

End Guardianships.

(** ** The client module: [getTimeRemaining]

    [deadline] is [new Date(deadline).getTime()]: the instant the text
    denotes, in milliseconds, [None] (NaN) for a text that is no date;
    [now] is [Date.now()].  A number is an integer or NaN; NaN compares
    false and is absorbing.  The instants of [Date] are integers of at most
    8.64e15 in absolute value and the clock is far below that, so that the
    difference is an integer below 2^53 and the divisions and remainders
    of the function, taken with [Math.floor], are exact on it. *)

Record TimeRemaining := mkTimeRemaining {
  tr_hours : option Z;
  tr_minutes : option Z;
  tr_isOverdue : bool;
  tr_label : string
}.

(** A number in a template literal. *)
Definition number_text (n : option Z) : string :=
  match n with
  | Some z => pretty z
  | None => "NaN"
  end.

Definition getTimeRemaining (now : Z) (deadline : option Z) : TimeRemaining :=
  let diff := (λ d, d - now)%Z <$> deadline in
  let isOverdue := match diff with Some x => (x <? 0)%Z | None => false end in
  let absDiff := Z.abs <$> diff in
  let hours := (λ a, a / (60 * 60 * 1000))%Z <$> absDiff in
  let minutes := (λ a, (a mod (60 * 60 * 1000)) / (60 * 1000))%Z <$> absDiff in
  let label :=
    if isOverdue then
      "Overdue by " +:+ number_text hours +:+ "h " +:+ number_text minutes +:+ "m"
    else if match hours with Some h => (24 <? h)%Z | None => false end then
      let days := (λ h, h / 24)%Z <$> hours in
      number_text days +:+ "d " +:+ number_text ((λ h, h mod 24)%Z <$> hours)
        +:+ "h remaining"
    else
      number_text hours +:+ "h " +:+ number_text minutes +:+ "m remaining" in
  mkTimeRemaining hours minutes isOverdue label.

(** * Vocabulary of the further statements *)

(** A text without the character [:], as a base58 public key is. *)
Definition colon_free (s : string) : Prop := ":"%char ∉ list_ascii_of_string s.

(** The session [sid] is pending, asks [gs] and needs [t] approvals, and
    its counter is the number of guardians that have approved. *)
Definition open_session (σ : Store) (sid : string) (gs : list string) (t : Z)
    : Prop :=
  ∃ d (A : gset string),
    hashes σ !! sessionKey sid = Some d
    ∧ truthy (d !! "sessionId") = true
    ∧ d !! "status" = Some (VStr "pending")
    ∧ d !! "guardianPubkeys" = Some (VList gs)
    ∧ d !! "threshold" = Some (VNum t)
    ∧ d !! "approvals" = Some (VNum (Z.of_nat (size A)))
    ∧ (∀ g, g ∈ A ↔ g ∈ gs ∧ strs σ !! sessionShareKey sid g ≠ None)
    ∧ (∀ g, g ∈ gs → strs σ !! sessionShareKey sid g ≠ Some "").

(** A sequence of approve requests to one session. *)
Definition approve_all (E : Env) (sid : string) (reqs : list ApproveReq)
    (σ : Store) : Store :=
  foldl (λ s req, exec (approve_route E sid req) s) σ reqs.

(** The request carries the cron secret that the configuration holds. *)
Definition cron_authorised (E : Env) (cronSecret : option string) : bool :=
  bool_decide (cronSecret = Some (dmsCronSecret E))
  && negb (bool_decide (cronSecret = Some "")).

(** Two stores hold the same data of the recovery service. *)
Definition same_recovery (σ σ' : Store) : Prop :=
  ∀ k, recovery_key k → same_at σ σ' k.

(** The entry of a switch in the answer of the list route. *)
Definition list_entry (sw : hash) : list (string * hval) :=
  fields
    [("switchId", sw !! "switchId");
     ("recipientUsername", sw !! "recipientUsername");
     ("intervalHours", sw !! "intervalHours");
     ("nextDeadline", sw !! "nextDeadline");
     ("status", sw !! "status");
     ("createdAt", sw !! "createdAt");
     ("triggeredAt", sw !! "triggeredAt")].

(** The active index holds only ids of stored, active switches. *)
Definition active_index_sound (σ : Store) : Prop :=
  ∀ id, id ∈ members σ ACTIVE_SET →
    ∃ h, hashes σ !! switchKey id = Some h
         ∧ h !! "status" = Some (VStr "active").

(** ** Further fixtures *)

(** A scan that finds the two owners G1 protects. *)
Definition scan_G1 (pattern : string) : M (list string) :=
  if String.eqb pattern "recovery:share:G1:*"
  then ret [shareKey "G1" "O"; shareKey "G1" "P"]
  else ret [].

(** A second distribution by O, to G2, G3 and G4. *)
Definition new_guardians : list Guardian :=
  [mkGuardian "G2" "d2" 0; mkGuardian "G3" "d3" 1; mkGuardian "G4" "d4" 2].

Definition redistribute_O : DistributeReq :=
  mkDistributeReq "O" 3 (Some new_guardians) "sig-O" 5000.

(** A request for one guardian while the configuration asks for two. *)
Definition request_one : SessionReq := mkSessionReq "O" "EP" (Some ["G1"]).

Definition after_request_one : Store :=
  exec (request_route 1500 "sid-2" request_one) after_distribute.

(** A switch of S to a recipient that the registry does not resolve. *)
Definition after_create_bob : Store :=
  exec (createSwitch t0 "sw-2" (mkInput "S" "bob" "tx-1" 1)) empty_store.

(** * Verification *)

(** ** The monad and the adapter *)

Lemma bind_Ret {A B} (m : M A) (k : A → M B) σ a σ' :
  m σ = (Ret a, σ') → (let* x := m in k x) σ = k a σ'.
Proof. intros H. unfold bind. by rewrite H. Qed.

Lemma bind_Throw {A B} (m : M A) (k : A → M B) σ e σ' :
  m σ = (Throw e, σ') → (let* x := m in k x) σ = (Throw e, σ').
Proof. intros H. unfold bind. by rewrite H. Qed.

(** Closed facts about the scenarios are settled by evaluation. *)
Ltac computed := vm_compute; exact eq_refl.
Ltac decided := apply (bool_decide_unpack _); vm_compute; exact I.

Lemma run_exec {A} (m : M A) σ r : run m σ = r → m σ = (r, exec m σ).
Proof. unfold run, exec. intros <-. apply surjective_pairing. Qed.

Lemma loaded_inv {A} (o : outcome (option A)) :
  loaded o = true → ∃ a, o = Ret (Some a).
Proof. destruct o as [[a|]|e]; [eauto|done..]. Qed.

(** A loop whose body never throws runs to its end. *)
Lemma forM_total {A} (l : list A) (f : A → M unit) (step : A → Store → Store) :
  (∀ x σ, f x σ = (Ret tt, step x σ)) →
  ∀ σ, forM_ l f σ = (Ret tt, foldl (λ s x, step x s) σ l).
Proof.
  intros Hf. induction l as [|x l IH]; intros σ; [done|].
  simpl. erewrite bind_Ret by apply Hf. apply IH.
Qed.

(** An invariant of the loop body is an invariant of the loop, whether
    or not the loop is cut short by an exception. *)
Lemma forM_invariant {A} (P : Store → Prop) (l : list A) (f : A → M unit) :
  (∀ x σ, P σ → P (exec (f x) σ)) →
  ∀ σ, P σ → P (exec (forM_ l f) σ).
Proof.
  intros Hf. induction l as [|x l IH]; intros σ Hσ; [done|].
  unfold exec in *. simpl. unfold bind.
  specialize (Hf x σ Hσ). destruct (f x σ) as [[[]|e] σ']; simpl in *; auto.
Qed.

Lemma foldM_invariant {A B} (P : Store → Prop) (l : list A)
    (f : B → A → M B) :
  (∀ acc x σ, P σ → P (exec (f acc x) σ)) →
  ∀ acc σ, P σ → P (exec (foldM l acc f) σ).
Proof.
  intros Hf. induction l as [|x l IH]; intros acc σ Hσ; [done|].
  unfold exec in *. simpl. unfold bind.
  specialize (Hf acc x σ Hσ). destruct (f acc x σ) as [[b|e] σ']; simpl in *; auto.
Qed.

(** ** Time to live *)

Lemma ttls_lookup σ k : ttls σ !! k = (λ ms, ms / 1000)%Z <$> lives σ !! k.
Proof. unfold ttls. by rewrite lookup_fmap. Qed.

Lemma ttls_None σ k : ttls σ !! k = None ↔ lives σ !! k = None.
Proof. rewrite ttls_lookup. apply fmap_None. Qed.

Lemma ttls_frame σ σ' k :
  lives σ' !! k = lives σ !! k → ttls σ' !! k = ttls σ !! k.
Proof. intros H. by rewrite !ttls_lookup, H. Qed.

Lemma ttls_eq σ σ' : lives σ' = lives σ → ttls σ' = ttls σ.
Proof. unfold ttls. by intros ->. Qed.

(** A key just given [ttl] seconds to live reports them. *)
Lemma ttls_timed σ k ttl :
  lives σ !! k = Some (ttl * 1000)%Z → ttls σ !! k = Some ttl.
Proof.
  intros H. rewrite ttls_lookup, H. cbn [fmap option_fmap option_map].
  f_equal. by apply Z.div_mul.
Qed.

(** ** Key builders *)

Lemma configKey_shareKey o g o' : configKey o ≠ shareKey g o'.
Proof. done. Qed.

Lemma switchKey_inj : Inj (=) (=) switchKey.
Proof. intros a b H. by simplify_eq/=. Qed.

Lemma userSwitchesKey_inj : Inj (=) (=) userSwitchesKey.
Proof. intros a b H. by simplify_eq/=. Qed.

Lemma userSwitchesKey_active pk : userSwitchesKey pk ≠ ACTIVE_SET.
Proof. done. Qed.

(** ** Recovery: distribute and revoke *)

Lemma write_shares_config now o (gs : list Guardian) σ k :
  (∀ g, g ∈ gs → shareKey (pubkey g) o ≠ k) →
  hashes (foldl (λ s g, write_share now o g s) σ gs) !! k = hashes σ !! k.
Proof.
  revert σ. induction gs as [|g gs IH]; intros σ Hk; [done|].
  simpl. rewrite IH by (intros; apply Hk; set_solver).
  unfold write_share, exec, setHash. simpl.
  apply lookup_insert_ne, Hk. set_solver.
Qed.

Lemma distributeShares_run now o t gs σ :
  distributeShares now o t gs σ =
    (Ret tt, foldl (λ s g, write_share now o g s)
               (exec (setHash (configKey o) (list_to_map
                  [("ownerPubkey", VStr o);
                   ("threshold", VNum t);
                   ("guardianPubkeys", VList (map pubkey gs));
                   ("createdAt", VTime now)])) σ) gs).
Proof.
  unfold distributeShares. erewrite bind_Ret by reflexivity.
  by apply forM_total.
Qed.

(** After [distributeShares] the config record names the owner and
    lists the guardians' keys in order. *)
Lemma distributeShares_config now o t gs σ :
  ∃ c, hashes (exec (distributeShares now o t gs) σ) !! configKey o = Some c
       ∧ c !! "ownerPubkey" = Some (VStr o)
       ∧ c !! "threshold" = Some (VNum t)
       ∧ c !! "guardianPubkeys" = Some (VList (map pubkey gs)).
Proof.
  unfold exec. rewrite distributeShares_run. simpl.
  rewrite write_shares_config by (intros; apply not_eq_sym, configKey_shareKey).
  unfold exec, setHash. simpl. rewrite lookup_insert_eq.
  eexists. split; [done|].
  split_and!; by apply lookup_union_Some_l.
Qed.

Lemma delete_keys_hashes ks σ k :
  hashes (delete_keys ks σ) !! k =
    if bool_decide (k ∈ ks) then None else hashes σ !! k.
Proof.
  revert σ. induction ks as [|k' ks IH]; intros σ; [done|].
  unfold delete_keys in *. simpl. rewrite IH.
  unfold exec, deleteKey. simpl.
  destruct (decide (k = k')) as [->|Hne].
  - rewrite lookup_delete_eq. rewrite (bool_decide_eq_true_2 (k' ∈ k' :: ks)) by set_solver.
    by case_bool_decide.
  - rewrite lookup_delete_ne by done.
    case_bool_decide; case_bool_decide; set_solver.
Qed.

Lemma delete_keys_other ks σ k :
  k ∉ ks →
  hashes (delete_keys ks σ) !! k = hashes σ !! k
  ∧ strs (delete_keys ks σ) !! k = strs σ !! k
  ∧ sets (delete_keys ks σ) !! k = sets σ !! k
  ∧ lives (delete_keys ks σ) !! k = lives σ !! k.
Proof.
  revert σ. induction ks as [|k' ks IH]; intros σ Hk; [done|].
  unfold delete_keys in *. simpl.
  destruct (IH (exec (deleteKey k') σ)) as (-> & -> & -> & ->); [set_solver|].
  unfold exec, deleteKey. simpl.
  rewrite !lookup_delete_ne by set_solver. done.
Qed.

Lemma revoke_loop_run o (gs : list string) σ :
  forM_ gs (λ g, deleteKey (shareKey g o)) σ =
    (Ret tt, delete_keys ((λ g, shareKey g o) <$> gs) σ).
Proof.
  rewrite (forM_total gs _ (λ g s, exec (deleteKey (shareKey g o)) s)) by done.
  unfold delete_keys. f_equal. by rewrite foldl_fmap.
Qed.

(** [revokeShares] on a store whose config for [o] lists [gs]. *)
Lemma revokeShares_configured o c gs σ :
  hashes σ !! configKey o = Some c →
  truthy (c !! "ownerPubkey") = true →
  c !! "guardianPubkeys" = Some (VList gs) →
  revokeShares o σ =
    (Ret tt, exec (deleteKey (configKey o))
               (delete_keys ((λ g, shareKey g o) <$> gs) σ)).
Proof.
  intros Hc Ht Hg. unfold revokeShares, getRecoveryConfig.
  unfold bind at 1. unfold bind at 1. unfold getHash at 1. rewrite Hc, Ht. simpl.
  unfold bind at 1. unfold bind at 1. rewrite Hg. simpl.
  rewrite revoke_loop_run. done.
Qed.

(** [revokeShares] on a store with no config for [o]. *)
Lemma revokeShares_unconfigured o σ :
  run (getRecoveryConfig o) σ = Ret None →
  revokeShares o σ = (Ret tt, exec (deleteKey (configKey o)) σ).
Proof.
  unfold run, revokeShares, getRecoveryConfig, bind, getHash. simpl.
  destruct (hashes σ !! configKey o) as [d|]; [|done].
  by destruct (truthy (d !! "ownerPubkey")).
Qed.

Lemma store_eta σ : mkStore (hashes σ) (strs σ) (sets σ) (lives σ) = σ.
Proof. by destruct σ. Qed.

Lemma deleteKey_absent σ k : absent σ k → exec (deleteKey k) σ = σ.
Proof.
  intros (Hh & Hs & Hm & Ht%ttls_None). unfold exec, deleteKey. simpl.
  rewrite !delete_id by done. apply store_eta.
Qed.

Lemma deleteKey_same_at σ k k' : k' ≠ k → same_at σ (exec (deleteKey k) σ) k'.
Proof.
  intros Hne. unfold same_at, exec, deleteKey. simpl.
  by rewrite !lookup_delete_ne.
Qed.

Lemma signed_by_inv E action req :
  signed_by E action req = true →
  missing (s_senderPubkey req) = false ∧ missing (s_signature req) = false
  ∧ (s_timestamp req =? 0)%Z = false
  ∧ verifySignature E (s_signature req) (s_timestamp req)
      (action +:+ pretty (s_timestamp req)) (s_senderPubkey req) = true.
Proof.
  unfold signed_by. rewrite !andb_true_iff, !negb_true_iff. tauto.
Qed.

Lemma missing_truthy s : missing s = false → truthy (Some (VStr s)) = true.
Proof. unfold missing. simpl. by intros ->. Qed.

(** A signed revoke runs [revokeShares] and answers by its outcome. *)
Lemma revoke_route_signed E req σ σ' :
  signed_by E "recovery:revoke:" req = true →
  revokeShares (s_senderPubkey req) σ = (Ret tt, σ') →
  revoke_route E req σ = (Ret (200, BSuccess)%Z, σ').
Proof.
  intros (Hp & Hs & Ht & Hv)%signed_by_inv Hrun.
  unfold revoke_route, try_catch. rewrite Hp, Hs, Ht, Hv. simpl.
  by erewrite bind_Ret by exact Hrun.
Qed.

(** A distribute request answered with 200 has a non-empty sender, a
    guardian array, and leaves the store that [distributeShares] builds
    after [revokeShares]. *)
Lemma distribute_route_ok E now req σ b σ1 :
  distribute_route E now req σ = (Ret (200, b)%Z, σ1) →
  ∃ gs σr, d_guardians req = Some gs
    ∧ missing (d_senderPubkey req) = false
    ∧ revokeShares (d_senderPubkey req) σ = (Ret tt, σr)
    ∧ σ1 = exec (distributeShares now (d_senderPubkey req) (d_threshold req) gs) σr
    ∧ b = BDistributed (length gs) (d_threshold req).
Proof.
  unfold distribute_route, try_catch. intros H.
  destruct (d_guardians req) as [gs|]; [|simpl in H; discriminate].
  destruct (missing (d_senderPubkey req)) eqn:Hm; [simpl in H; discriminate|].
  repeat match type of H with
         | context [if ?c then _ else _] =>
             destruct c eqn:?; simpl in H; [discriminate|]
         end.
  unfold bind in H.
  destruct (revokeShares (d_senderPubkey req) σ) as [[[]|e] σr]; [|discriminate].
  rewrite distributeShares_run in H. simpl in H.
  exists gs, σr. split_and!; try done.
  - unfold exec. rewrite distributeShares_run. simpl. congruence.
  - congruence.
Qed.
Lemma getRecoveryConfig_no_key o σ :
  hashes σ !! configKey o = None → run (getRecoveryConfig o) σ = Ret None.
Proof. intros H. unfold run, getRecoveryConfig, bind, getHash. simpl. by rewrite H. Qed.

Lemma getShareForGuardian_no_key g o σ :
  hashes σ !! shareKey g o = None → run (getShareForGuardian g o) σ = Ret None.
Proof. intros H. unfold run, getShareForGuardian, bind, getHash. simpl. by rewrite H. Qed.

Lemma deleteKey_gone k σ : hashes (exec (deleteKey k) σ) !! k = None.
Proof. unfold exec, deleteKey. simpl. apply lookup_delete_eq. Qed.

(** C7. Distribute then revoke leaves neither the config of the owner nor
    any share of the guardians just distributed to; and a signed revoke
    for an owner that has no config answers success and changes nothing:
    no key other than the owner's config key is touched, the owner still
    has no config, and when that key does not exist the store is
    unchanged. *)
Theorem revoke_after_distribute E (rreq : SignedReq) :
  signed_by E "recovery:revoke:" rreq = true →
  let o := s_senderPubkey rreq in
  (∀ now dreq σ b σ1,
     d_senderPubkey dreq = o →
     distribute_route E now dreq σ = (Ret (200, b)%Z, σ1) →
     ∃ σ2, revoke_route E rreq σ1 = (Ret (200, BSuccess)%Z, σ2)
       ∧ run (getRecoveryConfig o) σ2 = Ret None
       ∧ ∀ gs g, d_guardians dreq = Some gs → g ∈ gs →
           hashes σ2 !! shareKey (pubkey g) o = None
           ∧ run (getShareForGuardian (pubkey g) o) σ2 = Ret None)
  ∧ (∀ σ, run (getRecoveryConfig o) σ = Ret None →
       ∃ σ', revoke_route E rreq σ = (Ret (200, BSuccess)%Z, σ')
         ∧ run (getRecoveryConfig o) σ' = Ret None
         ∧ (∀ k, k ≠ configKey o → same_at σ σ' k)
         ∧ (absent σ (configKey o) → σ' = σ)).
Proof.
  intros Hsig o. split.
  - intros now dreq σ b σ1 Ho Hd.
    destruct (distribute_route_ok _ _ _ _ _ _ Hd)
      as (gs & σr & Hgs & Hm & _ & -> & _).
    rewrite Ho in *.
    destruct (distributeShares_config now o (d_threshold dreq) gs σr)
      as (c & Hc & Hown & _ & Hlist).
    eexists. split; [|split].
    + apply revoke_route_signed; [done|].
      eapply revokeShares_configured; [exact Hc| |exact Hlist].
      rewrite Hown. by apply missing_truthy.
    + apply getRecoveryConfig_no_key, deleteKey_gone.
    + intros gs' g Hgs' Hg. assert (gs' = gs) as -> by congruence.
      assert (hashes (exec (deleteKey (configKey o))
                (delete_keys ((λ g0, shareKey g0 o) <$> map pubkey gs)
                   (exec (distributeShares now o (d_threshold dreq) gs) σr)))
              !! shareKey (pubkey g) o = None) as Hnone.
      { unfold exec at 1. unfold deleteKey. simpl.
        rewrite lookup_delete_ne by apply configKey_shareKey.
        rewrite delete_keys_hashes. rewrite bool_decide_eq_true_2; [done|].
        apply list_elem_of_fmap. exists (pubkey g). split; [done|].
        apply list_elem_of_In, in_map, list_elem_of_In, Hg. }
      split; [done|]. by apply getShareForGuardian_no_key.
  - intros σ Hnone.
    pose proof (revokeShares_unconfigured o σ Hnone) as Hrun.
    eexists. split; [by apply revoke_route_signed|].
    split; [|split].
    + apply getRecoveryConfig_no_key, deleteKey_gone.
    + intros k Hk. by apply deleteKey_same_at.
    + apply deleteKey_absent.
Qed.
Lemma revoke_after_distribute_witness :
  ∃ σ2, revoke_route test_env revoke_O after_distribute = (Ret (200, BSuccess)%Z, σ2)
    ∧ run (getRecoveryConfig "O") σ2 = Ret None
    ∧ ∀ gs g, d_guardians distribute_O = Some gs → g ∈ gs →
        hashes σ2 !! shareKey (pubkey g) "O" = None
        ∧ run (getShareForGuardian (pubkey g) "O") σ2 = Ret None.
Proof.
  assert (signed_by test_env "recovery:revoke:" revoke_O = true) as Hsig
    by computed.
  destruct (revoke_after_distribute test_env revoke_O Hsig) as [H _].
  apply (H 1000%Z distribute_O empty_store (BDistributed 3 2)); [exact eq_refl|].
  apply run_exec. computed.
Defined.
(** ** Recovery: what distribute validates *)

Lemma append_cancel_r (a b s : string) : a +:+ s = b +:+ s → a = b.
Proof.
  assert (Hlen : ∀ x y, String.length (x +:+ y) = (String.length x + String.length y)%nat).
  { induction x as [|c x IH]; intros y; simpl; [done|]. by rewrite IH. }
  revert b. induction a as [|c a IH]; intros [|d b] H; simpl in *; try done.
  - apply (f_equal String.length) in H. rewrite ?Hlen in H. simpl in H. rewrite ?Hlen in H. lia.
  - apply (f_equal String.length) in H. rewrite ?Hlen in H. simpl in H. rewrite ?Hlen in H. lia.
  - injection H as -> H. f_equal. by apply IH.
Qed.

Lemma shareKey_inj g g' o : shareKey g o = shareKey g' o → g = g'.
Proof.
  unfold shareKey. intros H. apply String.app_inj in H.
  by apply append_cancel_r in H.
Qed.

Lemma revokeShares_wf o σ :
  config_wf σ o → ∃ σ', revokeShares o σ = (Ret tt, σ').
Proof.
  intros Hwf. destruct (run (getRecoveryConfig o) σ) as [[c|]|e] eqn:Hcfg.
  - unfold run, getRecoveryConfig, bind, getHash in Hcfg. simpl in Hcfg.
    destruct (hashes σ !! configKey o) as [d|] eqn:Hd; [|done].
    destruct (truthy (d !! "ownerPubkey")) eqn:Ht; [|done].
    destruct (Hwf d Hd) as [l Hl].
    eexists. by eapply revokeShares_configured.
  - eexists. by apply revokeShares_unconfigured.
  - unfold run, getRecoveryConfig, bind, getHash in Hcfg. simpl in Hcfg.
    destruct (hashes σ !! configKey o) as [d|]; [|done].
    by destruct (truthy (d !! "ownerPubkey")).
Qed.

(** The share of a guardian whose key occurs once in the request. *)
Lemma write_shares_share now o (gs : list Guardian) g σ :
  g ∈ gs → (∀ g', g' ∈ gs → pubkey g' = pubkey g → g' = g) →
  ∃ h, hashes (foldl (λ s g, write_share now o g s) σ gs)
         !! shareKey (pubkey g) o = Some h
       ∧ h !! "encryptedShare" = Some (VStr (encryptedShare g))
       ∧ h !! "shareIndex" = Some (VNum (shareIndex g)).
Proof.
  revert σ. induction gs as [|g0 gs IH] using rev_ind; intros σ Hg Huniq.
  { by apply elem_of_nil in Hg. }
  rewrite foldl_app. simpl.
  destruct (decide (pubkey g0 = pubkey g)) as [Heq|Hne].
  - assert (g0 = g) as -> by (apply Huniq; [set_solver|done]).
    unfold write_share at 1. unfold exec, setHash. simpl.
    rewrite lookup_insert_eq. eexists. split; [done|].
    split; by apply lookup_union_Some_l.
  - assert (g ∈ gs) as Hin by set_solver.
    destruct (IH σ Hin) as (h & Hh & Hfields); [intros; apply Huniq; set_solver|].
    exists h. split; [|done].
    unfold write_share at 1. unfold exec, setHash. simpl.
    rewrite lookup_insert_ne; [done|].
    by intros Heq%shareKey_inj.
Qed.

(** C6, as the code has it.  The distribute route checks the presence of
    the fields, [2 ≤ threshold ≤ guardians.length ≤ 10] and the signature,
    and nothing about [shareIndex]: every request that passes these is
    answered 200 and stored, each guardian's share with the index the
    request gave it, whether or not the indices repeat or cover
    [0..n-1]. *)
Theorem distribute_ignores_shareIndex E now σ req gs :
  d_guardians req = Some gs →
  distribute_checks E req gs = true →
  config_wf σ (d_senderPubkey req) →
  ∃ σ', distribute_route E now req σ
          = (Ret (200, BDistributed (length gs) (d_threshold req))%Z, σ')
    ∧ ∀ g, g ∈ gs → (∀ g', g' ∈ gs → pubkey g' = pubkey g → g' = g) →
        ∃ h, hashes σ' !! shareKey (pubkey g) (d_senderPubkey req) = Some h
          ∧ h !! "encryptedShare" = Some (VStr (encryptedShare g))
          ∧ h !! "shareIndex" = Some (VNum (shareIndex g)).
Proof.
  intros Hgs Hchk Hwf. unfold distribute_checks in Hchk.
  rewrite !andb_true_iff, !negb_true_iff in Hchk.
  destruct Hchk as ((((((Hm & Ht2) & Htn) & Hn10) & Hsig) & Hts) & Hv).
  destruct (revokeShares_wf _ _ Hwf) as [σr Hr].
  exists (exec (distributeShares now (d_senderPubkey req) (d_threshold req) gs) σr).
  split.
  - unfold distribute_route, try_catch. rewrite Hgs, Hm.
    assert ((d_threshold req =? 0)%Z = false) as -> by lia.
    assert ((d_threshold req <? 2)%Z = false) as -> by lia.
    assert ((Z.of_nat (length gs) <? d_threshold req)%Z = false) as -> by lia.
    assert ((10 <? Z.of_nat (length gs))%Z = false) as -> by lia.
    rewrite Hsig, Hts, Hv. simpl.
    erewrite bind_Ret by exact Hr.
    unfold exec. rewrite distributeShares_run. simpl.
    erewrite bind_Ret by apply distributeShares_run. done.
  - intros g Hg Huniq. unfold exec. rewrite distributeShares_run. simpl.
    by apply write_shares_share.
Qed.

Lemma distribute_ignores_shareIndex_witness :
  ∃ σ', distribute_route test_env 1000 distribute_repeated empty_store
          = (Ret (200, BDistributed 3 2)%Z, σ')
    ∧ ∀ g, g ∈ repeated_index →
        (∀ g', g' ∈ repeated_index → pubkey g' = pubkey g → g' = g) →
        ∃ h, hashes σ' !! shareKey (pubkey g) "O" = Some h
          ∧ h !! "encryptedShare" = Some (VStr (encryptedShare g))
          ∧ h !! "shareIndex" = Some (VNum (shareIndex g)).
Proof.
  apply (distribute_ignores_shareIndex test_env 1000 empty_store
           distribute_repeated repeated_index).
  - exact eq_refl.
  - computed.
  - intros c Hc. cbn in Hc. by rewrite lookup_empty in Hc.
Defined.

(** C6 as stated fails: a request whose share indices are 0, 0, 7
    (a repeated index, and 1 and 2 not covered) is answered 200, and
    both guardians G1 and G2 are stored with index 0. *)
Lemma distribute_repeated_index_accepted :
  ¬ NoDup (map shareIndex repeated_index)
  ∧ run (distribute_route test_env 1000 distribute_repeated) empty_store
      = Ret (200, BDistributed 3 2)%Z
  ∧ (hashes (exec (distribute_route test_env 1000 distribute_repeated) empty_store)
       !! shareKey "G1" "O") ≫= (.!! "shareIndex") = Some (VNum 0)
  ∧ (hashes (exec (distribute_route test_env 1000 distribute_repeated) empty_store)
       !! shareKey "G2" "O") ≫= (.!! "shareIndex") = Some (VNum 0)
  ∧ (hashes (exec (distribute_route test_env 1000 distribute_repeated) empty_store)
       !! shareKey "G3" "O") ≫= (.!! "shareIndex") = Some (VNum 7).
Proof.
  split.
  - intros H. inversion H as [|? ? Hnotin _]; subst. apply Hnotin. set_solver.
  - split_and!; computed.
Qed.
(** ** Recovery: sessions *)

Lemma sessionShareKey_inj sid g g' :
  sessionShareKey sid g = sessionShareKey sid g' → g = g'.
Proof.
  unfold sessionShareKey. intros H.
  by do 3 apply String.app_inj in H.
Qed.

Lemma getSession_run sid σ : getSession sid σ = (run (getSession sid) σ, σ).
Proof.
  unfold run, getSession, bind, getHash. simpl.
  destruct (hashes σ !! sessionKey sid) as [d|]; [|done].
  by destruct (truthy (d !! "sessionId")).
Qed.

Lemma getSession_stored sid σ d :
  hashes σ !! sessionKey sid = Some d → truthy (d !! "sessionId") = true →
  getSession sid σ = (Ret (Some (session_view d)), σ).
Proof.
  intros Hd Ht. unfold getSession, bind, getHash. simpl. by rewrite Hd, Ht.
Qed.

Lemma session_view_status d : session_view d !! "status" = d !! "status".
Proof. unfold session_view. by rewrite !lookup_insert_ne. Qed.

Lemma session_view_guardians d :
  session_view d !! "guardianPubkeys" = d !! "guardianPubkeys".
Proof. unfold session_view. by rewrite !lookup_insert_ne. Qed.

Lemma session_view_approvals d :
  Number (session_view d !! "approvals") = Number (d !! "approvals").
Proof.
  unfold session_view. rewrite lookup_insert_ne by done. rewrite lookup_insert_eq.
  by destruct (Number (d !! "approvals")).
Qed.

Lemma session_view_threshold d :
  Number (session_view d !! "threshold") = Number (d !! "threshold").
Proof.
  unfold session_view. rewrite lookup_insert_eq.
  by destruct (Number (d !! "threshold")).
Qed.

Lemma approveSession_pending E σ sid g share d gs n t :
  hashes σ !! sessionKey sid = Some d →
  truthy (d !! "sessionId") = true →
  d !! "status" = Some (VStr "pending") →
  d !! "guardianPubkeys" = Some (VList gs) →
  g ∈ gs →
  strs σ !! sessionShareKey sid g = None →
  d !! "approvals" = Some (VNum n) →
  d !! "threshold" = Some (VNum t) →
  approveSession E sid g share σ =
    (Ret (mkApproval true (Some (Z.succ n)) (Some t)),
     approved_store σ sid g share
       (if (t <=? Z.succ n)%Z
        then list_to_map [("approvals", VNum (Z.succ n)); ("status", VStr "ready")]
        else list_to_map [("approvals", VNum (Z.succ n))])).
Proof.
  intros Hd Hid Hst Hgs Hg Hnone Hn Ht.
  unfold approveSession. erewrite bind_Ret by by apply getSession_stored.
  unfold is_text. rewrite session_view_status, Hst.
  rewrite bool_decide_eq_true_2 by done. simpl.
  rewrite session_view_guardians, Hgs. unfold JSON_parse.
  erewrite bind_Ret by reflexivity.
  rewrite bool_decide_eq_true_2 by done. simpl.
  unfold bind at 1. unfold getString at 1. rewrite Hnone.
  rewrite bool_decide_eq_true_2 by (by left). simpl.
  rewrite session_view_approvals, session_view_threshold, Hn, Ht. simpl.
  unfold approved_store, exec, bind. simpl.
  by destruct (t <=? Z.succ n)%Z.
Qed.

Lemma approveSession_not_pending E σ sid g share d st :
  hashes σ !! sessionKey sid = Some d →
  truthy (d !! "sessionId") = true →
  d !! "status" = Some (VStr st) → st ≠ "pending" →
  approveSession E sid g share σ = (Throw (Error ("Session is " +:+ st)), σ).
Proof.
  intros Hd Hid Hst Hne.
  unfold approveSession. erewrite bind_Ret by by apply getSession_stored.
  unfold is_text. rewrite session_view_status, Hst.
  rewrite bool_decide_eq_false_2 by congruence. done.
Qed.

Lemma approve_route_signed E sid req σ :
  approve_signed E sid req = true →
  approve_route E sid req σ =
    try_catch
      (let* result := approveSession E sid (a_guardianPubkey req)
                        (a_reEncryptedShare req) in
       ret (200, BApproval result)%Z)
      (λ error,
         let message := message_of error in
         if includes message "not found" || includes message "expired" then
           ret (404, BError message)%Z
         else if includes message "already approved" then
           ret (409, BError message)%Z
         else if includes message "not a valid guardian" then
           ret (403, BError message)%Z
         else ret (500, BError "Failed to approve recovery")%Z) σ.
Proof.
  unfold approve_signed. rewrite !andb_true_iff, !negb_true_iff.
  intros ((((Hg & Hs) & Hsig) & Hts) & Hv).
  unfold approve_route, try_catch. by rewrite Hg, Hs, Hsig, Hts, Hv.
Qed.

(** C5 against the code.  A signed approval of a pending session by a
    guardian outside [requestedGuardians] makes [approveSession] throw
    "Not a valid guardian for this session"; the route looks for the
    phrase "not a valid guardian", which that message (capital N) does
    not contain, and answers 500 instead of the documented 403. *)
Theorem approve_unlisted_guardian E σ sid req s gs :
  approve_signed E sid req = true →
  run (getSession sid) σ = Ret (Some s) →
  s !! "status" = Some (VStr "pending") →
  s !! "guardianPubkeys" = Some (VList gs) →
  a_guardianPubkey req ∉ gs →
  approveSession E sid (a_guardianPubkey req) (a_reEncryptedShare req) σ
    = (Throw (Error "Not a valid guardian for this session"), σ)
  ∧ approve_route E sid req σ
    = (Ret (500, BError "Failed to approve recovery")%Z, σ).
Proof.
  intros Hsig Hs Hst Hgs Hnot.
  assert (approveSession E sid (a_guardianPubkey req) (a_reEncryptedShare req) σ
          = (Throw (Error "Not a valid guardian for this session"), σ)) as Hthrow.
  { unfold approveSession. rewrite (bind_Ret _ _ σ (Some s) σ)
      by (rewrite getSession_run; by rewrite Hs).
    unfold is_text. rewrite Hst, bool_decide_eq_true_2 by done. simpl.
    rewrite Hgs. unfold JSON_parse. erewrite bind_Ret by reflexivity.
    by rewrite bool_decide_eq_false_2. }
  split; [done|].
  rewrite approve_route_signed by done.
  unfold try_catch. erewrite bind_Throw by exact Hthrow. reflexivity.
Qed.
Lemma approve_unlisted_guardian_witness :
  approveSession test_env "sid-1" "G9" "r9" after_request
    = (Throw (Error "Not a valid guardian for this session"), after_request)
  ∧ approve_route test_env "sid-1" (approve_by "G9" "r9") after_request
    = (Ret (500, BError "Failed to approve recovery")%Z, after_request).
Proof.
  destruct (loaded_inv (run (getSession "sid-1") after_request)) as [s Hs];
    [computed|].
  assert (field (run (getSession "sid-1") after_request) "status"
          = Some (VStr "pending")) as Hst by computed.
  assert (field (run (getSession "sid-1") after_request) "guardianPubkeys"
          = Some (VList ["G1"; "G2"; "G3"])) as Hgs by computed.
  rewrite Hs in Hst, Hgs. cbn [field] in Hst, Hgs.
  apply (approve_unlisted_guardian test_env after_request "sid-1"
           (approve_by "G9" "r9") s ["G1"; "G2"; "G3"]).
  - computed.
  - exact Hs.
  - exact Hst.
  - exact Hgs.
  - intros H. exact (bool_decide_pack _ H).
Defined.

Lemma guardian_check_passes (requested valid : list string) σ :
  requested ⊆ valid →
  forM_ requested (λ g,
    if bool_decide (g ∈ valid) then ret tt
    else throw (Error (g +:+ " is not a guardian for this identity"))) σ
  = (Ret tt, σ).
Proof.
  induction requested as [|g gs IH]; intros Hsub; [done|].
  simpl. rewrite bool_decide_eq_true_2 by set_solver.
  erewrite bind_Ret by reflexivity. apply IH. set_solver.
Qed.

(** [createSession] under a fresh id writes a pending session with no
    approvals and the owner's threshold, and touches no session share. *)
Lemma createSession_fresh now sid o eph requested t σ :
  configured σ o t requested → fresh_session σ sid →
  ∃ d σ0, createSession now sid o eph requested σ = (Ret d, σ0)
    ∧ hashes σ0 !! sessionKey sid = Some d
    ∧ pending_session d requested t
    ∧ strs σ0 = strs σ.
Proof.
  intros (c & valid & Hc & Hown & Ht & Hvalid & Hsub) (Hsid & Hfresh & _).
  unfold createSession, getRecoveryConfig.
  unfold bind at 1. unfold bind at 1. unfold getHash at 1. rewrite Hc, Hown. simpl.
  rewrite Hvalid. unfold JSON_parse. erewrite bind_Ret by reflexivity.
  erewrite bind_Ret by by apply guardian_check_passes.
  rewrite Ht. simpl.
  eexists _, _. split; [reflexivity|]. simpl.
  rewrite lookup_insert_eq, Hfresh. simpl. rewrite (right_id_L ∅ (∪)).
  split; [done|]. split; [|done].
  unfold pending_session. rewrite lookup_insert_eq.
  split; [|by split_and!].
  simpl. destruct sid; [done|done].
Qed.
Lemma approved_store_session σ sid g share updates d :
  hashes σ !! sessionKey sid = Some d →
  hashes (approved_store σ sid g share updates) !! sessionKey sid
    = Some (updates ∪ d).
Proof.
  intros Hd. unfold approved_store, exec, setHash, setStringWithExpiry. simpl.
  by rewrite lookup_insert_eq, Hd.
Qed.

Lemma approved_store_strs σ sid g share updates :
  strs (approved_store σ sid g share updates)
    = <[sessionShareKey sid g := share]> (strs σ).
Proof. done. Qed.

Lemma getReleasedShares_ready sid σ d gs :
  hashes σ !! sessionKey sid = Some d →
  truthy (d !! "sessionId") = true →
  d !! "status" = Some (VStr "ready") →
  d !! "guardianPubkeys" = Some (VList gs) →
  getReleasedShares sid σ =
    foldM gs [] (λ shares g,
      let* share := getString (sessionShareKey sid g) in
      match share with
      | Some sh => if negb (String.eqb sh "") then ret (shares ++ [(g, sh)])%list
                   else ret shares
      | None => ret shares
      end) σ.
Proof.
  intros Hd Hid Hst Hgs. unfold getReleasedShares.
  erewrite bind_Ret by by apply getSession_stored.
  unfold is_text. rewrite session_view_status, Hst, bool_decide_eq_true_2 by done.
  simpl. rewrite session_view_guardians, Hgs. unfold JSON_parse.
  by erewrite bind_Ret by reflexivity.
Qed.

(** C1, as the code has it.  In a session created with threshold 2 and
    three requested guardians, the approvals of two of them are accepted
    and make the session ready; the approval of the third is then
    refused, because approval requires the status pending: the service
    throws "Session is ready", the route answers with an error, the
    store is left as it was, and [getReleasedShares] returns the two
    shares of the guardians who approved, in the order of the request. *)
Theorem third_approval_after_ready E now σ sid o eph g1 g2 g3 r1 r2 r3 :
  configured σ o 2 [g1; g2; g3] →
  fresh_session σ sid →
  NoDup [g1; g2; g3] →
  r1 ≠ "" → r2 ≠ "" →
  let σ0 := exec (createSession now sid o eph [g1; g2; g3]) σ in
  let σ1 := exec (approveSession E sid g1 r1) σ0 in
  let σ2 := exec (approveSession E sid g2 r2) σ1 in
  run (approveSession E sid g1 r1) σ0 = Ret (mkApproval true (Some 1%Z) (Some 2%Z))
  ∧ run (approveSession E sid g2 r2) σ1 = Ret (mkApproval true (Some 2%Z) (Some 2%Z))
  ∧ (∃ s, run (getSession sid) σ2 = Ret (Some s)
          ∧ s !! "status" = Some (VStr "ready"))
  ∧ approveSession E sid g3 r3 σ2 = (Throw (Error "Session is ready"), σ2)
  ∧ (∀ req, approve_signed E sid req = true →
       a_guardianPubkey req = g3 →
       ∃ status error,
         approve_route E sid req σ2 = (Ret (status, BError error), σ2)
         ∧ status ≠ 200%Z)
  ∧ getReleasedShares sid σ2 = (Ret [(g1, r1); (g2, r2)], σ2).
Proof.
  intros Hcfg Hfresh Hnd Hr1 Hr2.
  destruct (createSession_fresh now sid o eph _ _ _ Hcfg Hfresh)
    as (d & σ0' & Hcreate & Hd & (Hid & Hst & Happ & Hthr & Hgs) & Hstrs).
  destruct Hfresh as (_ & _ & Hnoshare).
  apply NoDup_cons in Hnd as [Hg1 Hnd]. apply NoDup_cons in Hnd as [Hg2 _].
  assert (g1 ≠ g2 ∧ g1 ≠ g3 ∧ g2 ≠ g3) as (H12 & H13 & H23) by set_solver.
  intros σ0 σ1 σ2. subst σ0 σ1 σ2. unfold exec, run. rewrite Hcreate. cbn [fst snd].
  (* first approval *)
  pose proof (approveSession_pending E σ0' sid g1 r1 d [g1; g2; g3] 0 2
                Hd Hid Hst Hgs ltac:(set_solver)
                ltac:(rewrite Hstrs; apply Hnoshare) Happ Hthr) as Ha1.
  change (2 <=? Z.succ 0)%Z with false in Ha1. change (Z.succ 0) with 1%Z in Ha1.
  cbn [list_to_map foldr uncurry fst snd] in Ha1.
  rewrite Ha1. cbn [fst snd].
  set (u1 := (<["approvals" := VNum 1]> ∅ : hash)) in *.
  set (σ1 := approved_store σ0' sid g1 r1 u1) in *.
  assert (hashes σ1 !! sessionKey sid = Some (u1 ∪ d)) as Hd1
    by by apply approved_store_session.
  (* second approval *)
  pose proof (approveSession_pending E σ1 sid g2 r2 (u1 ∪ d) [g1; g2; g3] 1 2 Hd1) as Ha2.
  change (2 <=? Z.succ 1)%Z with true in Ha2. change (Z.succ 1) with 2%Z in Ha2.
  cbn [list_to_map foldr uncurry fst snd] in Ha2.
  rewrite Ha2; cycle 1.
  { by rewrite lookup_union_r. }
  { by rewrite lookup_union_r. }
  { by rewrite lookup_union_r. }
  { set_solver. }
  { subst σ1. rewrite approved_store_strs, lookup_insert_ne
      by (by intros ?%sessionShareKey_inj).
    rewrite Hstrs. apply Hnoshare. }
  { by apply lookup_union_Some_l. }
  { by rewrite lookup_union_r. }
  cbn [fst snd].
  set (u2 := (<["approvals" := VNum 2]> (<["status" := VStr "ready"]> ∅) : hash)) in *.
  set (σ2 := approved_store σ1 sid g2 r2 u2) in *.
  assert (hashes σ2 !! sessionKey sid = Some (u2 ∪ (u1 ∪ d))) as Hd2
    by by apply approved_store_session.
  assert (truthy ((u2 ∪ (u1 ∪ d)) !! "sessionId") = true) as Hid2
    by by rewrite !lookup_union_r.
  assert ((u2 ∪ (u1 ∪ d)) !! "status" = Some (VStr "ready")) as Hst2
    by by apply lookup_union_Some_l.
  assert (approveSession E sid g3 r3 σ2 = (Throw (Error "Session is ready"), σ2))
    as Hthrow.
  { by apply (approveSession_not_pending E σ2 sid g3 r3 _ "ready" Hd2 Hid2 Hst2). }
  split; [done|]. split; [done|]. split.
  { exists (session_view (u2 ∪ (u1 ∪ d))). split.
    - by erewrite getSession_stored.
    - by rewrite session_view_status. }
  split; [done|]. split.
  { intros req Hsig Hreq. rewrite approve_route_signed by done.
    unfold try_catch. rewrite Hreq.
    erewrite bind_Throw by apply (approveSession_not_pending E σ2 sid g3 _ _ "ready" Hd2 Hid2 Hst2 ltac:(done)).
    eexists _, _. split; [reflexivity|done]. }
  erewrite getReleasedShares_ready; [|exact Hd2|exact Hid2|exact Hst2|].
  2:{ rewrite !lookup_union_r by done. exact Hgs. }
  assert (strs σ2 !! sessionShareKey sid g1 = Some r1) as Hs1.
  { subst σ2 σ1. rewrite !approved_store_strs.
    rewrite lookup_insert_ne by (by intros ?%sessionShareKey_inj).
    apply lookup_insert_eq. }
  assert (strs σ2 !! sessionShareKey sid g2 = Some r2) as Hs2.
  { subst σ2. rewrite approved_store_strs. apply lookup_insert_eq. }
  assert (strs σ2 !! sessionShareKey sid g3 = None) as Hs3.
  { subst σ2 σ1. rewrite !approved_store_strs.
    rewrite !lookup_insert_ne by (by intros ?%sessionShareKey_inj).
    rewrite Hstrs. apply Hnoshare. }
  apply String.eqb_neq in Hr1, Hr2. cbn [foldM].
  rewrite (bind_Ret _ _ σ2 [(g1, r1)] σ2)
    by (unfold bind, getString; by rewrite Hs1, Hr1).
  rewrite (bind_Ret _ _ σ2 [(g1, r1); (g2, r2)] σ2)
    by (unfold bind, getString; by rewrite Hs2, Hr2).
  rewrite (bind_Ret _ _ σ2 [(g1, r1); (g2, r2)] σ2)
    by (unfold bind, getString; by rewrite Hs3).
  done.
Qed.
Lemma third_approval_after_ready_witness :
  let σ2 := exec (approveSession test_env "sid-1" "G2" "r2")
              (exec (approveSession test_env "sid-1" "G1" "r1")
                 (exec (createSession 1500 "sid-1" "O" "EP" ["G1"; "G2"; "G3"])
                    after_distribute)) in
  approveSession test_env "sid-1" "G3" "r3" σ2
    = (Throw (Error "Session is ready"), σ2)
  ∧ getReleasedShares "sid-1" σ2 = (Ret [("G1", "r1"); ("G2", "r2")], σ2).
Proof.
  assert (configured after_distribute "O" 2 ["G1"; "G2"; "G3"]) as Hcfg.
  { assert (is_Some (hashes after_distribute !! configKey "O")) as [c Hc]
      by decided.
    assert ((hashes after_distribute !! configKey "O") ≫= (.!! "ownerPubkey")
            = Some (VStr "O")) as H1 by computed.
    assert ((hashes after_distribute !! configKey "O") ≫= (.!! "threshold")
            = Some (VNum 2)) as H2 by computed.
    assert ((hashes after_distribute !! configKey "O") ≫= (.!! "guardianPubkeys")
            = Some (VList ["G1"; "G2"; "G3"])) as H3 by computed.
    rewrite Hc in H1, H2, H3. cbn in H1, H2, H3.
    exists c, ["G1"; "G2"; "G3"]. split; [done|].
    split; [by rewrite H1|]. split; [done|]. split; [done|]. done. }
  assert (fresh_session after_distribute "sid-1") as Hfresh.
  { split; [done|]. split; [computed|].
    intros g. assert (strs after_distribute = ∅) as -> by computed.
    apply lookup_empty. }
  assert (NoDup ["G1"; "G2"; "G3"]) as Hnd.
  { repeat constructor; set_solver. }
  pose proof (third_approval_after_ready test_env 1500 after_distribute "sid-1"
                "O" "EP" "G1" "G2" "G3" "r1" "r2" "r3" Hcfg Hfresh Hnd
                ltac:(done) ltac:(done)) as H.
  cbv zeta in H. intros σ2. subst σ2.
  destruct H as (_ & _ & _ & H3 & _ & Hrel). split; [exact H3|exact Hrel].
Defined.

(** C1 as stated fails on scenario 1: after G1 and G2 have approved,
    the session is ready; G3's signed approval is answered 500 and adds
    nothing, and the released shares are the two of G1 and G2. *)
Lemma third_approval_refused :
  run (approve_route test_env "sid-1" (approve_by "G1" "r1")) after_request
    = Ret (200, BApproval (mkApproval true (Some 1) (Some 2)))%Z
  ∧ run (approve_route test_env "sid-1" (approve_by "G2" "r2"))
      (exec (approve_route test_env "sid-1" (approve_by "G1" "r1")) after_request)
    = Ret (200, BApproval (mkApproval true (Some 2) (Some 2)))%Z
  ∧ run (approve_route test_env "sid-1" (approve_by "G3" "r3")) after_two_approvals
    = Ret (500, BError "Failed to approve recovery")%Z
  ∧ run (shares_route "sid-1")
      (exec (approve_route test_env "sid-1" (approve_by "G3" "r3")) after_two_approvals)
    = Ret (200, BShares [("G1", "r1"); ("G2", "r2")])%Z.
Proof. split_and!; computed. Qed.
(** ** Switches: reading *)

Lemma members_sadd σ k x k' :
  members (exec (sadd k x) σ) k' =
    if decide (k = k') then {[x]} ∪ members σ k else members σ k'.
Proof.
  unfold members at 1. unfold exec, sadd. simpl.
  case_decide as Hk; [subst; by rewrite lookup_insert_eq|].
  by rewrite lookup_insert_ne.
Qed.

Lemma members_srem σ k x k' :
  members (exec (srem k x) σ) k' =
    if decide (k = k') then members σ k ∖ {[x]} else members σ k'.
Proof.
  unfold members at 1. unfold exec, srem. simpl.
  case_decide as Hk; [subst; by rewrite lookup_insert_eq|].
  by rewrite lookup_insert_ne.
Qed.

Lemma members_setHash σ k d k' :
  members (exec (setHash k d) σ) k' = members σ k'.
Proof. done. Qed.

Lemma hashes_setHash σ k d k' :
  hashes (exec (setHash k d) σ) !! k' =
    if decide (k = k') then Some (d ∪ default ∅ (hashes σ !! k))
    else hashes σ !! k'.
Proof.
  unfold exec, setHash. simpl.
  case_decide as Hk; [subst; by rewrite lookup_insert_eq|].
  by rewrite lookup_insert_ne.
Qed.

Lemma getSwitch_run id σ : getSwitch id σ = (Ret (visible σ id), σ).
Proof.
  unfold getSwitch, visible, bind, getHash. simpl.
  destruct (hashes σ !! switchKey id) as [d|]; [|done].
  by destruct (truthy (d !! "switchId")).
Qed.

Lemma visible_Some σ id h :
  visible σ id = Some h ↔
  hashes σ !! switchKey id = Some h ∧ truthy (h !! "switchId") = true.
Proof.
  unfold visible. destruct (hashes σ !! switchKey id) as [d|].
  - destruct (truthy (d !! "switchId")) eqn:Ht; split.
    + by intros [= ->].
    + by intros [[= ->] _].
    + done.
    + intros [[= ->] Ht']. congruence.
  - split; [done|]. by intros [? _].
Qed.

Lemma wf_switch_truthy id h : wf_switch id h → truthy (h !! "switchId") = true.
Proof.
  intros (Hid & -> & _). simpl. by destruct id.
Qed.

Lemma visible_wf σ id h :
  dms_inv σ → hashes σ !! switchKey id = Some h → visible σ id = Some h.
Proof.
  intros [Hinv _] Hh. apply visible_Some. split; [done|].
  eapply wf_switch_truthy, Hinv, Hh.
Qed.

Lemma load_switches_run (ids : list string) (acc : list hash) σ :
  foldM ids acc (λ switches id,
    let* sw := getSwitch id in
    match sw with
    | Some s => ret (switches ++ [s])%list
    | None => ret switches
    end) σ
  = (Ret (acc ++ omap (visible σ) ids)%list, σ).
Proof.
  revert acc. induction ids as [|id ids IH]; intros acc; simpl.
  { by rewrite app_nil_r. }
  unfold bind at 1. unfold bind at 1. rewrite getSwitch_run.
  destruct (visible σ id) as [h|]; unfold ret at 1; rewrite IH.
  - by rewrite <- app_assoc.
  - done.
Qed.

Lemma getUserSwitches_run pk σ :
  getUserSwitches pk σ =
    (Ret (omap (visible σ) (elements (members σ (userSwitchesKey pk)))), σ).
Proof.
  unfold getUserSwitches. erewrite bind_Ret by reflexivity.
  by rewrite load_switches_run.
Qed.

(** ** Switches: cancel *)

Lemma cancelSwitch_owner id o σ h :
  visible σ id = Some h → h !! "senderPubkey" = Some (VStr o) →
  cancelSwitch id o σ =
    (Ret true,
     exec (srem (userSwitchesKey o) id)
       (exec (srem ACTIVE_SET id)
          (exec (setHash (switchKey id) {[ "status" := VStr "cancelled" ]}) σ))).
Proof.
  intros Hv Ho. unfold cancelSwitch.
  erewrite bind_Ret by apply getSwitch_run. rewrite Hv.
  unfold is_text. rewrite bool_decide_eq_true_2 by done. done.
Qed.

Lemma cancelSwitch_refused id o σ :
  (visible σ id = None
   ∨ ∃ h, visible σ id = Some h ∧ h !! "senderPubkey" ≠ Some (VStr o)) →
  cancelSwitch id o σ = (Ret false, σ).
Proof.
  intros H. unfold cancelSwitch.
  erewrite bind_Ret by apply getSwitch_run.
  destruct H as [->|(h & -> & Hne)]; [done|].
  unfold is_text. by rewrite bool_decide_eq_false_2.
Qed.

Lemma cancel_route_signed E id req σ :
  cancel_signed E id req = true →
  cancel_route E id req σ =
    match cancelSwitch id (s_senderPubkey req) σ with
    | (Ret true, σ') => (Ret (200, BSuccess)%Z, σ')
    | (Ret false, σ') =>
        (Ret (404, BError "Switch not found or not owned by you")%Z, σ')
    | (Throw _, σ') => (Ret (500, BError "Failed to cancel switch")%Z, σ')
    end.
Proof.
  unfold cancel_signed. rewrite !andb_true_iff, !negb_true_iff.
  intros (((Hp & Hs) & Ht) & Hv).
  unfold cancel_route, try_catch. rewrite Hp, Hs, Ht, Hv. simpl.
  unfold bind. destruct (cancelSwitch id (s_senderPubkey req) σ) as [[[]|e] σ']; done.
Qed.
Lemma cancelled_store_hashes σ id o k :
  hashes (cancelled_store σ id o) !! k =
    if decide (switchKey id = k)
    then Some ({[ "status" := VStr "cancelled" ]} ∪ default ∅ (hashes σ !! switchKey id))
    else hashes σ !! k.
Proof. unfold cancelled_store. apply hashes_setHash. Qed.

Lemma cancelled_store_members σ id o k :
  members (cancelled_store σ id o) k =
    if decide (k = userSwitchesKey o ∨ k = ACTIVE_SET)
    then members σ k ∖ {[id]} else members σ k.
Proof.
  unfold cancelled_store. rewrite members_srem. case_decide as H1.
  - subst k. rewrite decide_True by (by left).
    rewrite members_srem, decide_False by (apply not_eq_sym, userSwitchesKey_active).
    done.
  - rewrite members_srem. case_decide as H2.
    + subst k. rewrite decide_True by (by right). done.
    + rewrite decide_False by naive_solver. done.
Qed.

Lemma visible_other σ σ' id :
  hashes σ' !! switchKey id = hashes σ !! switchKey id →
  visible σ' id = visible σ id.
Proof. unfold visible. by intros ->. Qed.

Lemma omap_ext_in {A B} (f g : A → option B) (l : list A) :
  (∀ x, x ∈ l → f x = g x) → omap f l = omap g l.
Proof.
  induction l as [|x l IH]; intros H; [done|].
  change (omap f (x :: l)) with
    (match f x with Some y => y :: omap f l | None => omap f l end).
  change (omap g (x :: l)) with
    (match g x with Some y => y :: omap g l | None => omap g l end).
  rewrite (H x) by set_solver. rewrite IH; [done|].
  intros; apply H; set_solver.
Qed.

(** C10.  Cancel looks at the owner of the record only.  A signed cancel
    of a switch the signer owns succeeds whatever the status of the
    switch, triggered or cancelled included: the answer is 200, the
    status is overwritten with cancelled, every other field is kept, and
    the id leaves the owner's index and the active index, so the owner's
    list is built from other ids only.  The answer is 404 exactly when
    there is no record or the record's sender is not the signer. *)
Theorem cancel_without_status_check E σ id req :
  cancel_signed E id req = true →
  let o := s_senderPubkey req in
  (∀ h, run (getSwitch id) σ = Ret (Some h) →
     h !! "senderPubkey" = Some (VStr o) →
     ∃ σ' h',
       cancel_route E id req σ = (Ret (200, BSuccess)%Z, σ')
       ∧ run (getSwitch id) σ' = Ret (Some h')
       ∧ h' !! "status" = Some (VStr "cancelled")
       ∧ (∀ f, f ≠ "status" → h' !! f = h !! f)
       ∧ (id ∉ members σ' (userSwitchesKey o))
       ∧ (id ∉ members σ' ACTIVE_SET)
       ∧ ∃ l, run (getUserSwitches o) σ' = Ret l
           ∧ ∀ sw, sw ∈ l →
               ∃ id', id' ≠ id ∧ run (getSwitch id') σ' = Ret (Some sw))
  ∧ (run (cancel_route E id req) σ
       = Ret (404, BError "Switch not found or not owned by you")%Z
     ↔ run (getSwitch id) σ = Ret None
       ∨ ∃ h, run (getSwitch id) σ = Ret (Some h)
              ∧ h !! "senderPubkey" ≠ Some (VStr o)).
Proof.
  intros Hsig o. subst o. split.
  - intros h Hget Ho. unfold run in Hget. rewrite getSwitch_run in Hget.
    injection Hget as Hv.
    pose proof (proj1 (visible_Some _ _ _) Hv) as [Hh Htr].
    exists (cancelled_store σ id (s_senderPubkey req)), ({[ "status" := VStr "cancelled" ]} ∪ h).
    assert (hashes (cancelled_store σ id (s_senderPubkey req)) !! switchKey id
            = Some ({[ "status" := VStr "cancelled" ]} ∪ h)) as Hh'.
    { rewrite cancelled_store_hashes, decide_True by done. by rewrite Hh. }
    split_and!.
    + rewrite cancel_route_signed by done.
      by rewrite (cancelSwitch_owner _ _ _ _ Hv Ho).
    + unfold run. rewrite getSwitch_run. simpl. f_equal.
      apply visible_Some. split; [done|]. by rewrite lookup_union_r.
    + by apply lookup_union_Some_l.
    + intros f Hf. rewrite lookup_union_r; [done|]. by apply lookup_singleton_ne.
    + rewrite cancelled_store_members, decide_True by (by left). set_solver.
    + rewrite cancelled_store_members, decide_True by (by right). set_solver.
    + eexists. split.
      { unfold run. by rewrite getUserSwitches_run. }
      intros sw (id' & Hin & Hsw)%list_elem_of_omap.
      exists id'. split.
      * intros ->. apply elem_of_elements in Hin.
        rewrite cancelled_store_members, decide_True in Hin by (by left). set_solver.
      * unfold run. by rewrite getSwitch_run, Hsw.
  - unfold run. rewrite cancel_route_signed by done. rewrite getSwitch_run. simpl.
    destruct (visible σ id) as [h|] eqn:Hv.
    + destruct (decide (h !! "senderPubkey" = Some (VStr (s_senderPubkey req)))) as [Ho|Hne].
      * rewrite (cancelSwitch_owner _ _ _ _ Hv Ho). simpl. split; [done|].
        intros [[=]|(h' & [= <-] & Hne)]. done.
      * rewrite cancelSwitch_refused by (right; eauto). simpl.
        split; [|done]. intros _. right. eauto.
    + rewrite cancelSwitch_refused by (by left). simpl. split; [|done]. by left.
Qed.
Lemma cancel_without_status_check_witness :
  ∃ σ' h',
    cancel_route test_env "sw-1" signed_S after_sweep = (Ret (200, BSuccess)%Z, σ')
    ∧ run (getSwitch "sw-1") σ' = Ret (Some h')
    ∧ h' !! "status" = Some (VStr "cancelled")
    ∧ ("sw-1" ∉ members σ' (userSwitchesKey "S")).
Proof.
  assert (cancel_signed test_env "sw-1" signed_S = true) as Hsig
    by computed.
  destruct (cancel_without_status_check test_env after_sweep "sw-1" signed_S Hsig)
    as [H _].
  destruct (loaded_inv (run (getSwitch "sw-1") after_sweep)) as [h Hh];
    [computed|].
  assert (field (run (getSwitch "sw-1") after_sweep) "senderPubkey"
          = Some (VStr "S")) as Ho by computed.
  rewrite Hh in Ho. cbn [field] in Ho.
  destruct (H h Hh Ho) as (σ' & h' & H1 & H2 & H3 & _ & H5 & _).
  exists σ', h'. auto.
Defined.

(** The switch of the witness had been triggered by the sweep. *)
Example after_sweep_triggered :
  (hashes after_sweep !! switchKey "sw-1") ≫= (.!! "status")
    = Some (VStr "triggered").
Proof. split_and?; computed. Qed.
(** ** Switches: create *)

Lemma createSwitch_run now uuid input σ :
  ∃ r, createSwitch now uuid input σ =
         (Ret r,
          exec (sadd ACTIVE_SET uuid)
            (exec (sadd (userSwitchesKey (in_senderPubkey input)) uuid)
               (exec (setHash (switchKey uuid) r) σ)))
       ∧ r !! "switchId" = Some (VStr uuid)
       ∧ r !! "senderPubkey" = Some (VStr (in_senderPubkey input))
       ∧ r !! "recipientUsername" = Some (VStr (in_recipientUsername input))
       ∧ r !! "arweaveTxId" = Some (VStr (in_arweaveTxId input))
       ∧ r !! "intervalHours" = Some (VNum (in_intervalHours input))
       ∧ r !! "nextDeadline"
           = Some (VTime (now + in_intervalHours input * HOUR_MS))
       ∧ r !! "status" = Some (VStr "active")
       ∧ r !! "triggeredAt" = None.
Proof. eexists. split; [reflexivity|]. by split_and!. Qed.

Lemma created_hashes σ uuid o r k :
  hashes (exec (sadd ACTIVE_SET uuid)
            (exec (sadd (userSwitchesKey o) uuid)
               (exec (setHash (switchKey uuid) r) σ))) !! k
  = if decide (switchKey uuid = k)
    then Some (r ∪ default ∅ (hashes σ !! switchKey uuid))
    else hashes σ !! k.
Proof. apply hashes_setHash. Qed.

Lemma created_members σ uuid o r k :
  members (exec (sadd ACTIVE_SET uuid)
             (exec (sadd (userSwitchesKey o) uuid)
                (exec (setHash (switchKey uuid) r) σ))) k
  = if decide (k = userSwitchesKey o ∨ k = ACTIVE_SET)
    then {[uuid]} ∪ members σ k else members σ k.
Proof.
  rewrite members_sadd. case_decide as H1.
  - subst k. rewrite decide_True by (by right).
    rewrite members_sadd, decide_False by apply userSwitchesKey_active. done.
  - rewrite members_sadd. case_decide as H2.
    + subst k. rewrite decide_True by (by left). done.
    + rewrite decide_False by naive_solver. done.
Qed.

(** C8, what the code does.  Create followed by cancel by the same owner
    leaves the record with status cancelled and the id in neither index;
    since the owner's list is read from the owner's index, the list shows
    the owner what it showed before the switch was created: the
    cancelled switch is not in it, neither as active nor as history.
    The service documents the index of a user as "all switchIds belonging
    to a user" and the cancel as removing "from active index";
    [markTriggered] leaves the index of the user alone, and the client
    lists the cancelled switches it is given under "History". *)
Theorem create_then_cancel now uuid input σ :
  fresh_switch σ uuid →
  let o := in_senderPubkey input in
  let σ1 := exec (createSwitch now uuid input) σ in
  let σ2 := exec (cancelSwitch uuid o) σ1 in
  (∃ r, run (createSwitch now uuid input) σ = Ret r
        ∧ r !! "switchId" = Some (VStr uuid))
  ∧ run (cancelSwitch uuid o) σ1 = Ret true
  ∧ (∃ h, run (getSwitch uuid) σ2 = Ret (Some h)
          ∧ h !! "status" = Some (VStr "cancelled"))
  ∧ (uuid ∉ members σ2 ACTIVE_SET)
  ∧ (uuid ∉ members σ2 (userSwitchesKey o))
  ∧ run (getUserSwitches o) σ2 = run (getUserSwitches o) σ
  ∧ ∃ l, run (getUserSwitches o) σ2 = Ret l
      ∧ ∀ sw, sw ∈ l →
          ∃ id, id ≠ uuid ∧ run (getSwitch id) σ2 = Ret (Some sw).
Proof.
  intros (Hne & Hfresh & Hnoidx) o σ1 σ2.
  destruct (createSwitch_run now uuid input σ)
    as (r & Hrun & Hid & Hsender & _ & _ & _ & _ & Hst & _).
  fold o in Hsender, Hrun.
  assert (σ1 = exec (sadd ACTIVE_SET uuid)
            (exec (sadd (userSwitchesKey o) uuid)
               (exec (setHash (switchKey uuid) r) σ))) as Hσ1.
  { subst σ1. unfold exec at 1. by rewrite Hrun. }
  clearbody σ1.
  assert (visible σ1 uuid = Some r) as Hv1.
  { rewrite Hσ1.
    apply visible_Some. split.
    - rewrite created_hashes, decide_True by done.
      rewrite Hfresh. simpl. by rewrite (right_id_L ∅ (∪)).
    - rewrite Hid. simpl. by destruct uuid. }
  assert (σ2 = cancelled_store σ1 uuid o) as Hσ2.
  { subst σ2. unfold exec at 1. by rewrite (cancelSwitch_owner _ _ _ _ Hv1 Hsender). }
  assert (members σ2 (userSwitchesKey o) = members σ (userSwitchesKey o)) as Hidx.
  { rewrite Hσ2, cancelled_store_members, decide_True by (by left).
    rewrite Hσ1, created_members, decide_True by (by left).
    specialize (Hnoidx (userSwitchesKey o)). set_solver. }
  assert (∀ id, id ≠ uuid → visible σ2 id = visible σ id) as Hother.
  { intros id Hid'. apply visible_other.
    rewrite Hσ2, cancelled_store_hashes, decide_False
      by (by intros ?%switchKey_inj).
    by rewrite Hσ1, created_hashes, decide_False by (by intros ?%switchKey_inj). }
  split; [exists r; split; [unfold run; by rewrite Hrun|done]|].
  split; [unfold run; by rewrite (cancelSwitch_owner _ _ _ _ Hv1 Hsender)|].
  split.
  { exists ({[ "status" := VStr "cancelled" ]} ∪ r). split.
    - unfold run. rewrite getSwitch_run. simpl. f_equal. apply visible_Some.
      apply visible_Some in Hv1 as [Hh1 Ht1]. split.
      + rewrite Hσ2, cancelled_store_hashes, decide_True by done. by rewrite Hh1.
      + by rewrite lookup_union_r.
    - by apply lookup_union_Some_l. }
  split; [rewrite Hσ2, cancelled_store_members, decide_True by (by right); set_solver|].
  split; [rewrite Hidx; apply Hnoidx|].
  assert (run (getUserSwitches o) σ2 = run (getUserSwitches o) σ) as Hlist.
  { unfold run. rewrite !getUserSwitches_run. simpl. rewrite Hidx. f_equal.
    apply omap_ext_in. intros id Hin%elem_of_elements. apply Hother.
    intros ->. by apply (Hnoidx (userSwitchesKey o)). }
  split; [done|].
  eexists. split; [unfold run; by rewrite getUserSwitches_run|].
  intros sw (id & Hin%elem_of_elements & Hsw)%list_elem_of_omap.
  exists id. split.
  - intros ->. rewrite Hidx in Hin. by apply (Hnoidx (userSwitchesKey o)).
  - unfold run. by rewrite getSwitch_run, Hsw.
Qed.

Lemma create_then_cancel_witness :
  let σ2 := exec (cancelSwitch "sw-1" "S")
              (exec (createSwitch t0 "sw-1" (mkInput "S" "alice" "tx-1" 1))
                 empty_store) in
  (∃ h, run (getSwitch "sw-1") σ2 = Ret (Some h)
        ∧ h !! "status" = Some (VStr "cancelled"))
  ∧ run (getUserSwitches "S") σ2 = run (getUserSwitches "S") empty_store.
Proof.
  assert (fresh_switch empty_store "sw-1") as Hfresh.
  { split; [done|]. split; [reflexivity|]. intros k. unfold members. simpl.
    rewrite lookup_empty. simpl. set_solver. }
  pose proof (create_then_cancel t0 "sw-1" (mkInput "S" "alice" "tx-1" 1)
                empty_store Hfresh) as H.
  cbv zeta in H. destruct H as (_ & _ & H3 & _ & _ & H6 & _).
  intros σ2. split; [exact H3|exact H6].
Defined.

(** C8 at the failing input, through the routes: scenario 4 followed by
    a cancel.  The switch is cancelled and its record remains, but the
    owner's list is empty; the cancelled switch is not retained in it as
    history. *)
Lemma cancelled_switch_not_listed :
  run (create_route test_env t0 "sw-1" "x7k2p9" (Some "tx-1") create_S) empty_store
    = Ret (200, BCreated (Some (VStr "sw-1")) (Some (VTime (t0 + HOUR_MS))))%Z
  ∧ run (cancel_route test_env "sw-1" signed_S) after_create
    = Ret (200, BSuccess)%Z
  ∧ (hashes after_cancel !! switchKey "sw-1") ≫= (.!! "status")
    = Some (VStr "cancelled")
  ∧ run (list_route "S") after_cancel = Ret (200, BList [])%Z.
Proof. split_and?; computed. Qed.

(** ** The invariant of the switch store *)

Lemma indexed_frame σ σ' id h :
  (∀ k, id ∈ members σ' k ↔ id ∈ members σ k) →
  indexed σ id h → indexed σ' id h.
Proof.
  intros Hsame Hidx pk Hpk. destruct (Hidx pk Hpk) as (Ha & Hc & Ht).
  rewrite !Hsame. done.
Qed.

(** One record is rewritten and its id moves in or out of the indices. *)
Lemma dms_inv_update σ σ' id0 h0 :
  dms_inv σ →
  hashes σ' = <[switchKey id0 := h0]> (hashes σ) →
  (∀ k id, id ≠ id0 → id ∈ members σ' k ↔ id ∈ members σ k) →
  wf_switch id0 h0 → indexed σ' id0 h0 →
  (∀ pk, id0 ∈ members σ' (userSwitchesKey pk) →
         h0 !! "senderPubkey" = Some (VStr pk)) →
  dms_inv σ'.
Proof.
  intros [Hrec Hown] Hh Hsets Hwf Hidx Hpk. split.
  - intros id h. rewrite Hh. destruct (decide (id = id0)) as [->|Hne].
    + rewrite lookup_insert_eq. by intros [= <-].
    + rewrite lookup_insert_ne by (by intros ?%switchKey_inj).
      intros Hl. destruct (Hrec id h Hl) as [Hw Hi]. split; [done|].
      eapply indexed_frame; [|exact Hi]. intros k. by apply Hsets.
  - intros pk id Hin. rewrite Hh. destruct (decide (id = id0)) as [->|Hne].
    + rewrite lookup_insert_eq. eauto.
    + rewrite lookup_insert_ne by (by intros ?%switchKey_inj).
      apply Hown. by apply Hsets.
Qed.

(** The records stay and one id leaves an index. *)
Lemma dms_inv_shrink σ σ' id0 :
  dms_inv σ →
  hashes σ' = hashes σ →
  (∀ k id, id ≠ id0 → id ∈ members σ' k ↔ id ∈ members σ k) →
  (∀ k, id0 ∈ members σ' k → id0 ∈ members σ k) →
  (∀ h, hashes σ !! switchKey id0 = Some h → indexed σ' id0 h) →
  dms_inv σ'.
Proof.
  intros [Hrec Hown] Hh Hsets Hsub Hidx. split.
  - intros id h. rewrite Hh. intros Hl.
    destruct (Hrec id h Hl) as [Hw Hi]. split; [done|].
    destruct (decide (id = id0)) as [->|Hne]; [by apply Hidx|].
    eapply indexed_frame; [|exact Hi]. intros k. by apply Hsets.
  - intros pk id Hin. rewrite Hh. apply Hown.
    destruct (decide (id = id0)) as [->|Hne]; [by apply Hsub|by apply Hsets].
Qed.

Lemma dms_inv_strs σ σ' :
  hashes σ' = hashes σ → sets σ' = sets σ → dms_inv σ → dms_inv σ'.
Proof.
  intros Hh Hs [Hrec Hown]. unfold dms_inv, indexed, members. rewrite Hh, Hs.
  split; [exact Hrec|exact Hown].
Qed.

Lemma dms_inv_empty : dms_inv empty_store.
Proof.
  split.
  - intros id h Hl. simpl in Hl. by rewrite lookup_empty in Hl.
  - intros pk id Hin. unfold members in Hin. simpl in Hin.
    rewrite lookup_empty in Hin. set_solver.
Qed.

Lemma wf_switch_merge id h d :
  d !! "switchId" = None → d !! "senderPubkey" = None →
  d !! "recipientUsername" = None → d !! "intervalHours" = None →
  wf_switch id h → wf_switch id (d ∪ h).
Proof.
  intros H1 H2 H3 H4 (Hne & Hid & Hpk & Hr & Hn).
  unfold wf_switch. rewrite !lookup_union_r by done. done.
Qed.

Lemma dms_inv_createSwitch now uuid input σ :
  dms_inv σ → uuid ≠ "" → hashes σ !! switchKey uuid = None →
  dms_inv (exec (createSwitch now uuid input) σ).
Proof.
  intros Hinv Hne Hfresh.
  destruct (createSwitch_run now uuid input σ)
    as (r & Hrun & Hid & Hsender & Hrcp & _ & Hint & _ & Hst & _).
  unfold exec at 1. rewrite Hrun. cbn [snd].
  eapply (dms_inv_update σ _ uuid r Hinv).
  - apply map_eq. intros k. rewrite created_hashes.
    case_decide as Hk; [subst k|].
    + rewrite lookup_insert_eq, Hfresh. simpl. by rewrite (right_id_L ∅ (∪)).
    + by rewrite lookup_insert_ne.
  - intros k id Hid'. rewrite created_members. case_decide; set_solver.
  - split; [done|]. split; [done|]. split_and!; eauto.
  - intros pk Hpk. rewrite Hsender in Hpk. injection Hpk as <-.
    rewrite Hst. split_and!; [|done|done].
    intros _. rewrite !created_members.
    rewrite !decide_True by (by left || by right). set_solver.
  - intros pk. rewrite created_members. case_decide as Hk.
    + destruct Hk as [Hk%userSwitchesKey_inj|Hk];
        [by subst|by apply userSwitchesKey_active in Hk].
    + intros Hin. destruct Hinv as [_ Hown].
      destruct (Hown pk uuid Hin) as (h & Hh & _). congruence.
Qed.

Lemma dms_inv_bump σ id h v :
  dms_inv σ → hashes σ !! switchKey id = Some h →
  dms_inv (exec (setHash (switchKey id) {[ "nextDeadline" := v ]}) σ).
Proof.
  intros Hinv Hh. pose proof Hinv as [Hrec Hown].
  destruct (Hrec id h Hh) as [Hwf Hidx].
  eapply (dms_inv_update σ _ id ({[ "nextDeadline" := v ]} ∪ h) Hinv).
  - unfold exec, setHash. simpl. by rewrite Hh.
  - done.
  - by apply wf_switch_merge.
  - intros pk. rewrite !lookup_union_r by done. intros Hpk.
    destruct (Hidx pk Hpk) as (Ha & Hc & Ht). rewrite !members_setHash. done.
  - intros pk Hin. rewrite members_setHash in Hin.
    destruct (Hown pk id Hin) as (h' & Hh' & Hs).
    rewrite lookup_union_r by done. congruence.
Qed.

Lemma dms_inv_cancelled σ id o h :
  dms_inv σ → hashes σ !! switchKey id = Some h →
  h !! "senderPubkey" = Some (VStr o) →
  dms_inv (cancelled_store σ id o).
Proof.
  intros Hinv Hh Ho. pose proof Hinv as [Hrec Hown].
  destruct (Hrec id h Hh) as [Hwf Hidx].
  eapply (dms_inv_update σ _ id ({[ "status" := VStr "cancelled" ]} ∪ h) Hinv).
  - apply map_eq. intros k. rewrite cancelled_store_hashes.
    case_decide as Hk; [subst k|].
    + by rewrite lookup_insert_eq, Hh.
    + by rewrite lookup_insert_ne.
  - intros k id' Hid'. rewrite cancelled_store_members. case_decide; set_solver.
  - by apply wf_switch_merge.
  - intros pk. rewrite lookup_union_r by done. intros Hpk.
    assert (pk = o) as -> by congruence.
    rewrite (lookup_union_Some_l _ _ _ (VStr "cancelled")) by done.
    split_and!; [done| |done]. intros _.
    rewrite !cancelled_store_members.
    rewrite !decide_True by (by left || by right). set_solver.
  - intros pk. rewrite cancelled_store_members. case_decide as Hk.
    + set_solver.
    + intros Hin. destruct (Hown pk id Hin) as (h' & Hh' & Hs).
      rewrite lookup_union_r by done. congruence.
Qed.

Lemma dms_inv_cancelSwitch id o σ :
  dms_inv σ → dms_inv (exec (cancelSwitch id o) σ).
Proof.
  intros Hinv. destruct (visible σ id) as [h|] eqn:Hv.
  - destruct (decide (h !! "senderPubkey" = Some (VStr o))) as [Ho|Hne].
    + unfold exec. rewrite (cancelSwitch_owner _ _ _ _ Hv Ho). cbn [snd].
      apply visible_Some in Hv as [Hh _]. by eapply dms_inv_cancelled.
    + unfold exec. rewrite cancelSwitch_refused by (right; eauto). done.
  - unfold exec. rewrite cancelSwitch_refused by (by left). done.
Qed.

Lemma dms_inv_markTriggered now id h σ :
  dms_inv σ → hashes σ !! switchKey id = Some h →
  dms_inv (exec (markTriggered now id) σ).
Proof.
  intros Hinv Hh. pose proof Hinv as [Hrec Hown].
  destruct (Hrec id h Hh) as [Hwf Hidx].
  set (d := (list_to_map [("status", VStr "triggered"); ("triggeredAt", VTime now)] : hash)).
  assert (exec (markTriggered now id) σ
          = exec (srem ACTIVE_SET id) (exec (setHash (switchKey id) d) σ)) as ->
    by reflexivity.
  eapply (dms_inv_update σ _ id (d ∪ h) Hinv).
  - unfold exec, srem, setHash. simpl. by rewrite Hh.
  - intros k id' Hid'. rewrite members_srem. case_decide; set_solver.
  - by apply wf_switch_merge.
  - intros pk. rewrite lookup_union_r by done. intros Hpk.
    rewrite (lookup_union_Some_l _ _ _ (VStr "triggered")) by done.
    split_and!; [done|done|]. intros _.
    rewrite members_srem, decide_True by done. set_solver.
  - intros pk. rewrite members_srem, decide_False
      by (apply not_eq_sym, userSwitchesKey_active).
    rewrite members_setHash. intros Hin.
    destruct (Hown pk id Hin) as (h' & Hh' & Hs).
    rewrite lookup_union_r by done. congruence.
Qed.

(** Dropping from the active index an id whose record is missing or not
    active. *)
Lemma dms_inv_cleanup id σ :
  dms_inv σ →
  (∀ h, hashes σ !! switchKey id = Some h →
        h !! "status" ≠ Some (VStr "active")) →
  dms_inv (exec (srem ACTIVE_SET id) σ).
Proof.
  intros Hinv Hna. pose proof Hinv as [Hrec Hown].
  eapply (dms_inv_shrink σ _ id Hinv).
  - done.
  - intros k id' Hid'. rewrite members_srem. case_decide; set_solver.
  - intros k. rewrite members_srem. case_decide; set_solver.
  - intros h Hh pk Hpk. destruct (Hrec id h Hh) as [_ Hidx].
    destruct (Hidx pk Hpk) as (Ha & Hc & Ht).
    split_and!.
    + intros Hact. by destruct (Hna h Hh).
    + intros Hcan. destruct (Hc Hcan) as [Hu Hact].
      rewrite !members_srem.
      rewrite decide_False by (apply not_eq_sym, userSwitchesKey_active).
      rewrite decide_True by done. set_solver.
    + intros _. rewrite members_srem, decide_True by done. set_solver.
Qed.
(** ** Switches: check-in *)

Lemma wf_switch_tid E id h : wf_switch id h → tid E h = id.
Proof. intros (_ & Hid & _). unfold tid. by rewrite Hid. Qed.

Lemma refresh_loop_run E now (l : list hash) latest σ :
  (∀ sw, sw ∈ l → is_Some (Number (sw !! "intervalHours"))) →
  foldM l latest (λ latestDeadline sw,
    let* iso := ISO ((λ n, now + n * HOUR_MS)%Z <$> Number (sw !! "intervalHours")) in
    do setHash (switchKey (text_of E (sw !! "switchId")))
         {[ "nextDeadline" := VTime iso ]} in
    ret (later iso latestDeadline)) σ
  = (Ret (foldl (λ acc sw, later (bumped_deadline now sw) acc) latest l),
     foldl (λ s sw, bump E now sw s) σ l).
Proof.
  revert latest σ. induction l as [|sw l IH]; intros latest σ Hnum; [done|].
  destruct (Hnum sw) as [n Hn]; [set_solver|].
  cbn [foldM foldl].
  assert (bumped_deadline now sw = (now + n * HOUR_MS)%Z) as Hd
    by (unfold bumped_deadline; by rewrite Hn).
  erewrite bind_Ret; [apply IH; intros; apply Hnum; set_solver|].
  rewrite Hn. cbn [fmap option_fmap option_map ISO].
  erewrite bind_Ret by reflexivity. erewrite bind_Ret by reflexivity.
  unfold ret, bump, tid. by rewrite Hd.
Qed.

(** What the writes of a check-in leave under a key that held [h]: the
    record with at most its deadline changed; unchanged when no write
    goes to the key; with deadline [d] when the writes that go to the
    key all carry [d]. *)
Lemma bump_all_lookup E now (l : list hash) σ k h :
  hashes σ !! k = Some h →
  ∃ h', hashes (foldl (λ s sw, bump E now sw s) σ l) !! k = Some h'
    ∧ same_but_deadline h h'
    ∧ ((∀ sw, sw ∈ l → switchKey (tid E sw) ≠ k) → h' = h)
    ∧ ∀ d, (∃ sw, sw ∈ l ∧ switchKey (tid E sw) = k) →
        (∀ sw, sw ∈ l → switchKey (tid E sw) = k → bumped_deadline now sw = d) →
        h' !! "nextDeadline" = Some (VTime d).
Proof.
  intros Hh. induction l as [|sw l IH] using rev_ind.
  { exists h. split; [done|]. split; [done|]. split; [done|].
    intros d (sw & Hin & _). by apply elem_of_nil in Hin. }
  destruct IH as (h0 & Hh0 & Hsame & Hnone & Hsome).
  rewrite foldl_app. cbn [foldl]. unfold bump at 1. rewrite hashes_setHash.
  case_decide as Hk.
  - rewrite Hk, Hh0. cbn [default].
    eexists. split; [reflexivity|]. split; [|split].
    + intros f Hf. rewrite lookup_union_r by (by apply lookup_singleton_ne).
      by apply Hsame.
    + intros Hno. destruct (Hno sw); [set_solver|done].
    + intros d _ Hall. apply lookup_union_Some_l.
      rewrite (Hall sw) by (done || set_solver). apply lookup_singleton_eq.
  - exists h0. split; [done|]. split; [done|]. split.
    + intros Hno. apply Hnone. intros; apply Hno; set_solver.
    + intros d (sw' & Hin & Hk') Hall. apply Hsome.
      * exists sw'. split; [|done]. set_solver.
      * intros; apply Hall; [set_solver|done].
Qed.

(** The running maximum kept by the check-in loop. *)
Lemma later_fold_spec {A} (dl : A → Z) (l : list A) (init : option Z) :
  let m := foldl (λ acc x, later (dl x) acc) init l in
  (l = [] → m = init)
  ∧ (l ≠ [] → is_Some m)
  ∧ ∀ v, m = Some v →
      (init = Some v ∨ ∃ x, x ∈ l ∧ dl x = v)
      ∧ (∀ x, x ∈ l → (dl x ≤ v)%Z)
      ∧ (∀ i, init = Some i → (i ≤ v)%Z).
Proof.
  revert init. induction l as [|x l IH]; intros init; cbn zeta.
  { split; [done|]. split; [done|]. cbn [foldl]. intros v ->.
    split; [by left|]. split; [intros x Hx; by apply elem_of_nil in Hx|].
    intros i [= ->]. lia. }
  cbn [foldl]. specialize (IH (later (dl x) init)). cbn zeta in IH.
  destruct IH as (Hnil & Hne & Hmax).
  split; [done|]. split.
  { intros _. destruct l as [|y l]; [rewrite Hnil by done|apply Hne; done].
    unfold later. destruct init as [i|]; [|eauto]. destruct (i <? dl x)%Z; eauto. }
  intros v Hv. destruct (Hmax v Hv) as (Hfrom & Hall & Hinit).
  assert (dl x ≤ v)%Z as Hx.
  { unfold later in Hinit. destruct init as [i|]; [|by apply Hinit].
    destruct (i <? dl x)%Z eqn:Hlt; [by apply Hinit|].
    specialize (Hinit i eq_refl). lia. }
  split; [|split].
  - destruct Hfrom as [Hl|(y & Hy & Hdl)]; [|right; exists y; split; [set_solver|done]].
    unfold later in Hl. destruct init as [i|].
    + destruct (i <? dl x)%Z; injection Hl as <-; [right; exists x; set_solver|by left].
    + injection Hl as <-. right. exists x. set_solver.
  - intros y [->|Hy]%elem_of_cons; [done|by apply Hall].
  - intros i ->. unfold later in Hinit.
    destruct (i <? dl x)%Z eqn:Hlt; specialize (Hinit _ eq_refl); lia.
Qed.
Lemma active_switches_elem σ o sw :
  dms_inv σ →
  sw ∈ active_switches σ o ↔ ∃ id, active_of σ o id sw.
Proof.
  intros Hinv. pose proof Hinv as [Hrec Hown].
  unfold active_switches, active_of.
  rewrite list_elem_of_filter, list_elem_of_omap. split.
  - intros (Hst & id & Hin%elem_of_elements & Hv).
    apply visible_Some in Hv as [Hh _].
    destruct (Hown o id Hin) as (h' & Hh' & Hs).
    exists id. split_and!; [done| |done]. congruence.
  - intros (id & Hh & Hs & Hst). split; [done|].
    exists id. split; [|by apply visible_wf].
    apply elem_of_elements. destruct (Hrec id sw Hh) as [_ Hidx].
    by apply (Hidx o Hs).
Qed.

Lemma active_of_inj σ o id id' h :
  dms_inv σ → active_of σ o id h → hashes σ !! switchKey id' = Some h → id' = id.
Proof.
  intros [Hrec _] (Hh & _) Hh'.
  destruct (Hrec id h Hh) as [(_ & Hid & _) _].
  destruct (Hrec id' h Hh') as [(_ & Hid' & _) _]. congruence.
Qed.

Lemma refreshDeadlines_run E now o σ :
  dms_inv σ →
  refreshDeadlines E now o σ =
    (Ret (length (active_switches σ o),
          foldl (λ acc sw, later (bumped_deadline now sw) acc) None
            (active_switches σ o)),
     foldl (λ s sw, bump E now sw s) σ (active_switches σ o)).
Proof.
  intros Hinv. unfold refreshDeadlines.
  erewrite bind_Ret by apply getUserSwitches_run.
  fold (active_switches σ o).
  erewrite bind_Ret; [reflexivity|].
  apply refresh_loop_run. intros sw (id & Hh & _)%active_switches_elem; [|done].
  destruct Hinv as [Hrec _].
  destruct (Hrec id sw Hh) as [(_ & _ & _ & _ & n & Hn) _]. rewrite Hn. by eexists.
Qed.

Lemma length_active_switches σ (ids : list string) :
  length (filter (λ s : hash, s !! "status" = Some (VStr "active"))
            (omap (visible σ) ids))
  = length (filter (λ id, is_active σ id = true) ids).
Proof.
  induction ids as [|id ids IH]; [done|].
  change (omap (visible σ) (id :: ids)) with
    (match visible σ id with
     | Some y => y :: omap (visible σ) ids | None => omap (visible σ) ids end).
  rewrite (filter_cons (λ id, is_active σ id = true)).
  destruct (visible σ id) as [h|] eqn:Hv.
  - assert (is_active σ id = bool_decide (h !! "status" = Some (VStr "active")))
      as Hact by (unfold is_active; by rewrite Hv).
    rewrite filter_cons.
    destruct (decide (h !! "status" = Some (VStr "active"))) as [Hst|Hst].
    + rewrite decide_True by (rewrite Hact; by apply bool_decide_eq_true_2).
      simpl. by rewrite IH.
    + rewrite decide_False
        by (rewrite Hact; by rewrite bool_decide_eq_false_2).
      done.
  - assert (is_active σ id = false) as Hact by (unfold is_active; by rewrite Hv).
    rewrite decide_False by (by rewrite Hact). done.
Qed.

Lemma checkin_route_signed E now req σ :
  signed_by E "dms:checkin:" req = true →
  checkin_route E now req σ =
    try_catch
      (let* result := refreshDeadlines E now (s_senderPubkey req) in
       ret (200, BCheckedIn result.1 result.2)%Z)
      (λ _, ret (500, BError "Failed to check in")%Z) σ.
Proof.
  intros (Hp & Hs & Ht & Hv)%signed_by_inv.
  unfold checkin_route, try_catch. by rewrite Hp, Hs, Ht, Hv.
Qed.

(** C4.  A signed check-in by [o] at time [now] answers 200 with the
    number of active switches of [o] and the latest deadline set; every
    active switch of [o] gets the deadline [now] plus its own interval,
    every other field kept; switches that are not active are left as
    they were; with no active switch the count is 0 and no deadline is
    reported. *)
Theorem checkin_bumps_active E now σ req :
  dms_inv σ →
  signed_by E "dms:checkin:" req = true →
  let o := s_senderPubkey req in
  ∃ σ' count latest,
    checkin_route E now req σ = (Ret (200, BCheckedIn count latest)%Z, σ')
    ∧ (∀ id h n, active_of σ o id h →
         h !! "intervalHours" = Some (VNum n) →
         ∃ h', hashes σ' !! switchKey id = Some h'
           ∧ h' !! "nextDeadline" = Some (VTime (now + n * HOUR_MS))
           ∧ same_but_deadline h h')
    ∧ (∀ id h, hashes σ !! switchKey id = Some h →
         h !! "status" ≠ Some (VStr "active") →
         hashes σ' !! switchKey id = Some h)
    ∧ (∃ ids, NoDup ids
         ∧ (∀ id, id ∈ ids ↔ ∃ h, active_of σ o id h)
         ∧ count = length ids)
    ∧ (count = 0%nat ↔ latest = None)
    ∧ ∀ m, latest = Some m →
        (∃ id h n, active_of σ o id h
           ∧ h !! "intervalHours" = Some (VNum n)
           ∧ m = (now + n * HOUR_MS)%Z)
        ∧ ∀ id h n, active_of σ o id h →
            h !! "intervalHours" = Some (VNum n) → (now + n * HOUR_MS ≤ m)%Z.
Proof.
  intros Hinv Hsig o. pose proof Hinv as [Hrec Hown].
  set (l := active_switches σ o).
  assert (∀ id h, active_of σ o id h → ∀ sw, sw ∈ l →
            switchKey (tid E sw) = switchKey id → sw = h) as Hsame.
  { intros id h Hact sw (id' & Hh' & _)%active_switches_elem Hk; [|done].
    destruct (Hrec id' sw Hh') as [Hwf _].
    rewrite (wf_switch_tid E id' sw Hwf) in Hk. apply switchKey_inj in Hk. subst id'.
    destruct Hact as [Hh _]. congruence. }
  assert (∀ h n, h !! "intervalHours" = Some (VNum n) →
            bumped_deadline now h = (now + n * HOUR_MS)%Z) as Hdl.
  { intros h n Hn. unfold bumped_deadline. by rewrite Hn. }
  exists (foldl (λ s sw, bump E now sw s) σ l), (length l),
    (foldl (λ acc sw, later (bumped_deadline now sw) acc) None l).
  split.
  { rewrite checkin_route_signed by done. unfold try_catch.
    erewrite bind_Ret by by apply refreshDeadlines_run. done. }
  split.
  { intros id h n Hact Hn. pose proof Hact as (Hh & _).
    destruct (bump_all_lookup E now l σ (switchKey id) h Hh)
      as (h' & Hh' & Hkeep & _ & Hnew).
    exists h'. split; [done|]. split; [|done]. apply Hnew.
    - exists h. split; [apply active_switches_elem; eauto|].
      destruct (Hrec id h Hh) as [Hwf _]. by rewrite (wf_switch_tid E id h Hwf).
    - intros sw Hsw Hk. rewrite (Hsame id h Hact sw Hsw Hk). by apply Hdl. }
  split.
  { intros id h Hh Hna.
    destruct (bump_all_lookup E now l σ (switchKey id) h Hh)
      as (h' & Hh' & _ & Hnone & _).
    rewrite Hh'. f_equal. apply Hnone.
    intros sw Hsw Hk. pose proof Hsw as (id' & Hh2 & Ho2 & Hst2)%active_switches_elem; [|done].
    destruct (Hrec id' sw Hh2) as [Hwf _].
    rewrite (wf_switch_tid E id' sw Hwf) in Hk. apply switchKey_inj in Hk. subst id'.
    congruence. }
  split.
  { exists (filter (λ id, is_active σ id = true)
              (elements (members σ (userSwitchesKey o)))).
    split; [apply NoDup_filter, NoDup_elements|]. split.
    - intros id. rewrite list_elem_of_filter, elem_of_elements.
      unfold is_active. split.
      + intros [Hact Hin]. destruct (visible σ id) as [h|] eqn:Hv; [|done].
        apply bool_decide_eq_true_1 in Hact. apply visible_Some in Hv as [Hh _].
        destruct (Hown o id Hin) as (h' & Hh' & Hs).
        exists h. split_and!; [done| |done]. congruence.
      + intros (h & Hh & Hs & Hst). rewrite (visible_wf σ id h Hinv Hh).
        split; [by apply bool_decide_eq_true_2|].
        destruct (Hrec id h Hh) as [_ Hidx]. by apply (Hidx o Hs).
    - apply length_active_switches. }
  destruct (later_fold_spec (bumped_deadline now) l None) as (Hnil & Hne & Hmax).
  cbn zeta in *. split.
  { split.
    - intros Hlen. apply Hnil. by apply length_zero_iff_nil.
    - intros Hnone. destruct (length l) eqn:Hlen; [done|]. exfalso.
      destruct Hne as [v Hv]; [by intros Hl; rewrite Hl in Hlen|]. congruence. }
  intros m Hm. destruct (Hmax m Hm) as (Hfrom & Hall & _). split.
  - destruct Hfrom as [?|(sw & Hsw & Hd)]; [done|].
    apply active_switches_elem in Hsw as (id & Hact); [|done].
    pose proof Hact as (Hh & _).
    destruct (Hrec id sw Hh) as [(_ & _ & _ & _ & n & Hn) _].
    exists id, sw, n. split; [done|]. split; [done|]. by rewrite <- Hd, (Hdl sw n).
  - intros id h n Hact Hn. rewrite <- (Hdl h n Hn). apply Hall.
    apply active_switches_elem; eauto.
Qed.
(** ** The sweep: scanning the active index *)

Lemma overdue_loop_run now σ0 (ids : list string) (acc : list hash) σc :
  hashes σc = hashes σ0 →
  foldM ids acc (λ overdue id,
    let* sw := getSwitch id in
    match sw with
    | None => do srem ACTIVE_SET id in ret overdue
    | Some s =>
        if negb (is_text (s !! "status") "active") then
          do srem ACTIVE_SET id in ret overdue
        else if is_overdue now s then ret (overdue ++ [s])%list
        else ret overdue
    end) σc
  = (Ret (acc ++ omap (due σ0 now) ids)%list, foldl (clean σ0) σc ids).
Proof.
  revert acc σc. induction ids as [|id ids IH]; intros acc σc Hh.
  { cbn [foldM foldl]. by rewrite app_nil_r. }
  cbn [foldM foldl].
  change (omap (due σ0 now) (id :: ids)) with
    (match due σ0 now id with
     | Some y => y :: omap (due σ0 now) ids | None => omap (due σ0 now) ids end).
  assert (visible σc id = visible σ0 id) as Hv by (apply visible_other; by rewrite Hh).
  unfold bind at 1. unfold bind at 1. rewrite getSwitch_run, Hv.
  unfold due, clean, is_active, is_text.
  destruct (visible σ0 id) as [s|]; cycle 1.
  { cbn. rewrite IH by done. done. }
  destruct (bool_decide (s !! "status" = Some (VStr "active"))); cbn [negb andb].
  - destruct (is_overdue now s); unfold ret at 1; rewrite IH by done.
    + by rewrite <- app_assoc.
    + done.
  - cbn. rewrite IH by done. done.
Qed.

Lemma getOverdueSwitches_run now σ :
  getOverdueSwitches now σ = (Ret (overdue_switches σ now), cleaned σ).
Proof.
  unfold getOverdueSwitches. erewrite bind_Ret by reflexivity.
  by rewrite (overdue_loop_run now σ).
Qed.

Lemma clean_frame σ0 (ids : list string) σc :
  let σ1 := foldl (clean σ0) σc ids in
  hashes σ1 = hashes σc ∧ strs σ1 = strs σc ∧ ttls σ1 = ttls σc
  ∧ (∀ k, k ≠ ACTIVE_SET → members σ1 k = members σc k)
  ∧ members σ1 ACTIVE_SET ⊆ members σc ACTIVE_SET
  ∧ (∀ id, id ∈ members σc ACTIVE_SET → is_active σ0 id = true →
           id ∈ members σ1 ACTIVE_SET).
Proof.
  revert σc. induction ids as [|id ids IH]; intros σc; cbn zeta.
  { by split_and!. }
  cbn [foldl]. specialize (IH (clean σ0 σc id)). cbn zeta in IH.
  destruct IH as (Hh & Hs & Ht & Hk & Hsub & Hact).
  rewrite Hh, Hs, Ht. unfold clean in *.
  destruct (is_active σ0 id) eqn:Ha; [by split_and!|].
  split_and!; try done.
  - intros k Hne. rewrite Hk by done. rewrite members_srem. by rewrite decide_False.
  - etrans; [exact Hsub|]. rewrite members_srem, decide_True by done. set_solver.
  - intros id' Hin Ha'. apply Hact; [|done].
    rewrite members_srem, decide_True by done.
    assert (id' ≠ id) by congruence. set_solver.
Qed.

Lemma dms_inv_clean σ0 (ids : list string) σc :
  hashes σc = hashes σ0 → dms_inv σc → dms_inv (foldl (clean σ0) σc ids).
Proof.
  revert σc. induction ids as [|id ids IH]; intros σc Hh Hinv; [done|].
  cbn [foldl]. apply IH.
  - unfold clean. by destruct (is_active σ0 id).
  - unfold clean. destruct (is_active σ0 id) eqn:Ha; [done|].
    apply dms_inv_cleanup; [done|]. intros h Hl Hst.
    unfold is_active in Ha. rewrite Hh in Hl.
    assert (visible σ0 id = Some h) as Hv.
    { apply visible_Some. split; [done|]. destruct Hinv as [Hrec _].
      rewrite <- Hh in Hl. eapply wf_switch_truthy, Hrec, Hl. }
    rewrite Hv in Ha. by rewrite bool_decide_eq_true_2 in Ha.
Qed.

Lemma overdue_switches_elem σ now sw :
  sw ∈ overdue_switches σ now ↔
  ∃ id, id ∈ members σ ACTIVE_SET ∧ visible σ id = Some sw
        ∧ sw !! "status" = Some (VStr "active") ∧ is_overdue now sw = true.
Proof.
  unfold overdue_switches. rewrite list_elem_of_omap. unfold due, is_text.
  split.
  - intros (id & Hin%elem_of_elements & Hd). exists id. split; [done|].
    destruct (visible σ id) as [s|]; [|done].
    case_bool_decide as Hst; [|done]. destruct (is_overdue now s) eqn:Ho; [|done].
    cbn in Hd. by injection Hd as <-.
  - intros (id & Hin & Hv & Hst & Ho). exists id. split; [by apply elem_of_elements|].
    rewrite Hv, bool_decide_eq_true_2, Ho by done. done.
Qed.
(** ** The sweep: delivering *)

Lemma releaseKey_inj : Inj (=) (=) releaseKey.
Proof. intros a b H. by simplify_eq/=. Qed.

Lemma fetch_payload_run E sw σ :
  fetch_payload E sw σ = (run (fetch_payload E sw) σ, σ).
Proof.
  unfold run, fetch_payload. destruct (sw !! "arweaveTxId") as [[tx| | | |]|]; try done.
  by destruct (startsWith tx "local:").
Qed.

Lemma fetch_payload_frame E sw σ σ' :
  (∀ k, local_key sw = Some k → strs σ' !! k = strs σ !! k) →
  run (fetch_payload E sw) σ' = run (fetch_payload E sw) σ.
Proof.
  unfold run, fetch_payload, local_key.
  destruct (sw !! "arweaveTxId") as [[tx| | | |]|]; try done.
  destruct (startsWith tx "local:"); [|done].
  intros H. unfold getMessageContent, getString. cbn. by rewrite H.
Qed.

Lemma deliverable_frame E sw σ σ' :
  (∀ k, local_key sw = Some k → strs σ' !! k = strs σ !! k) →
  deliverable E σ' sw = deliverable E σ sw.
Proof. intros H. unfold deliverable. by rewrite (fetch_payload_frame E sw σ σ'). Qed.

Lemma process_switch_delivered E now acc sw σ p :
  deliverable E σ sw = Some p →
  process_switch E now acc sw σ =
    (Ret (mkSweep (S (processed acc)) (errors acc)
            (counted acc ++ [tid E sw])%list),
     release E now sw p σ).
Proof.
  unfold deliverable, process_switch, try_catch. intros Hd.
  destruct (getUserAccount E (sw !! "recipientUsername")); [|done]. cbn [negb].
  unfold bind at 1. rewrite fetch_payload_run.
  destruct (run (fetch_payload E sw) σ) as [[q|]|e]; try done.
  destruct (missing q) eqn:Hq; [done|]. injection Hd as ->. done.
Qed.

Lemma process_switch_failed E now acc sw σ :
  deliverable E σ sw = None →
  ∃ e, process_switch E now acc sw σ =
         (Ret (mkSweep (processed acc) (errors acc ++ [e])%list (counted acc)), σ).
Proof.
  unfold deliverable, process_switch, try_catch. intros Hd.
  destruct (getUserAccount E (sw !! "recipientUsername")); [|by eexists]. cbn [negb].
  unfold bind at 1. rewrite fetch_payload_run.
  destruct (run (fetch_payload E sw) σ) as [[q|]|e]; [|by eexists..].
  destruct (missing q) eqn:Hq; [by eexists|done].
Qed.

Lemma release_hashes E now sw p σ k :
  hashes (release E now sw p σ) !! k =
    if decide (switchKey (tid E sw) = k)
    then Some ((list_to_map [("status", VStr "triggered"); ("triggeredAt", VTime now)] : hash)
                 ∪ default ∅ (hashes σ !! switchKey (tid E sw)))
    else hashes σ !! k.
Proof.
  unfold release, exec, markTriggered, bind, setHash, srem, storeMessageBlob,
    setStringWithExpiry. cbn [fst snd hashes].
  case_decide as Hk; [subst; by rewrite lookup_insert_eq|].
  by rewrite lookup_insert_ne.
Qed.

Lemma release_members E now sw p σ k :
  members (release E now sw p σ) k =
    if decide (ACTIVE_SET = k) then members σ k ∖ {[tid E sw]} else members σ k.
Proof.
  unfold release, members, exec, markTriggered, bind, setHash, srem, storeMessageBlob,
    setStringWithExpiry. cbn [fst snd sets].
  case_decide as Hk; [subst; by rewrite lookup_insert_eq|].
  by rewrite lookup_insert_ne.
Qed.

Lemma release_strs E now sw p σ :
  strs (release E now sw p σ)
    = <[releaseKey (tid E sw) := release_record E now sw p]> (strs σ)
  ∧ ttls (release E now sw p σ)
    = <[releaseKey (tid E sw) := RELEASE_TTL]> (ttls σ).
Proof.
  split; [done|]. unfold ttls.
  change (lives (release E now sw p σ))
    with (<[releaseKey (tid E sw) := (RELEASE_TTL * 1000)%Z]> (lives σ)).
  rewrite fmap_insert. f_equal.
Qed.

Lemma release_released E now sw p σ : released E now (release E now sw p σ) sw p.
Proof.
  unfold released. destruct (release_strs E now sw p σ) as [-> ->].
  rewrite !lookup_insert_eq, release_members, decide_True by done.
  split; [|split; [set_solver|done]].
  rewrite release_hashes, decide_True by done.
  eexists. split; [done|]. split; by apply lookup_union_Some_l.
Qed.

(** A delivered switch stays delivered while other switches are. *)
Lemma released_stable E now sw p sw' p' σ :
  tid E sw' ≠ tid E sw →
  released E now σ sw p → released E now (release E now sw' p' σ) sw p.
Proof.
  intros Hne ((h & Hh & Hst & Htr) & Hact & Hs & Ht). unfold released.
  destruct (release_strs E now sw' p' σ) as [-> ->].
  rewrite !lookup_insert_ne by (by intros ?%releaseKey_inj).
  rewrite release_hashes, decide_False by (by intros ?%switchKey_inj).
  rewrite release_members, decide_True by done.
  split; [eauto|]. split; [set_solver|done].
Qed.
Lemma deliverable_nonempty E σ sw p : deliverable E σ sw = Some p → p ≠ "".
Proof.
  unfold deliverable. destruct (getUserAccount E _); [|done].
  destruct (run (fetch_payload E sw) σ) as [[q|]|e]; try done.
  destruct (missing q) eqn:Hq; [done|]. intros [= ->] ->. done.
Qed.

(** The loop of the sweep over switches with distinct ids.  It ends; the
    counter grows by the number of ids it counts; every id it counts is
    delivered at the end; a switch whose payload is obtainable at the
    start, and whose fallback key no release overwrites, is counted. *)
Lemma sweep_run E now (l : list hash) acc σc :
  NoDup (map (tid E) l) →
  ∃ res σ',
    foldM l acc (process_switch E now) σc = (Ret res, σ')
    ∧ (∃ new, counted res = (counted acc ++ new)%list
         ∧ processed res = (processed acc + length new)%nat
         ∧ ∀ id, id ∈ new →
             ∃ sw p, sw ∈ l ∧ tid E sw = id ∧ p ≠ "" ∧ released E now σ' sw p)
    ∧ (∀ sw p, sw ∈ l → deliverable E σc sw = Some p → payload_stable E sw l →
         tid E sw ∈ counted res ∧ released E now σ' sw p)
    ∧ (∀ sw p, tid E sw ∉ map (tid E) l →
         released E now σc sw p → released E now σ' sw p)
    ∧ (∀ k, (∀ sw', sw' ∈ l → releaseKey (tid E sw') ≠ k) →
         strs σ' !! k = strs σc !! k).
Proof.
  revert acc σc. induction l as [|x l IH]; intros acc σc Hnd.
  { exists acc, σc. split; [done|]. split.
    - exists []. rewrite app_nil_r. split; [done|]. split; [cbn; lia|].
      intros id Hin. by apply elem_of_nil in Hin.
    - split; [intros sw p Hin; by apply elem_of_nil in Hin|]. by split. }
  cbn [map] in Hnd. apply NoDup_cons in Hnd as [Hx Hnd].
  cbn [foldM]. destruct (deliverable E σc x) as [p|] eqn:Hd.
  - (* delivered *)
    erewrite bind_Ret by by apply process_switch_delivered.
    destruct (IH (mkSweep (S (processed acc)) (errors acc)
                    (counted acc ++ [tid E x])%list)
                 (release E now x p σc) Hnd)
      as (res & σ' & Hrun & (new & Hc & Hp & Hnew) & Hdel & Hframe & Hstrs).
    cbn [counted processed] in Hc, Hp.
    assert (released E now σ' x p) as Hrx
      by (apply Hframe; [done|apply release_released]).
    exists res, σ'. split; [done|]. split; [|split; [|split]].
    + exists (tid E x :: new). rewrite Hc, <- app_assoc. split; [done|].
      split; [cbn; lia|]. intros id [->|Hin]%elem_of_cons.
      * exists x, p. split; [apply list_elem_of_here|]. split; [done|].
        split; [by eapply deliverable_nonempty|done].
      * destruct (Hnew id Hin) as (sw & q & Hsw & Hid & Hq & Hr).
        exists sw, q. split; [by apply list_elem_of_further|done].
    + intros sw q [->|Hin]%elem_of_cons Hq Hstable.
      * assert (q = p) as -> by congruence. split; [|done].
        rewrite Hc. apply elem_of_app. left. apply elem_of_app. right.
        apply list_elem_of_here.
      * apply Hdel; [done| |].
        -- rewrite <- Hq. apply deliverable_frame. intros k Hk.
           destruct (release_strs E now x p σc) as [-> _].
           apply lookup_insert_ne. apply (Hstable k x Hk), list_elem_of_here.
        -- intros k sw' Hk Hin'. apply (Hstable k sw' Hk).
           by apply list_elem_of_further.
    + intros sw q Hnot Hr. cbn [map] in Hnot.
      apply not_elem_of_cons in Hnot as [Hne Hnot].
      apply Hframe; [done|]. by apply released_stable.
    + intros k Hk. rewrite Hstrs
        by (intros sw' Hin'; apply Hk; by apply list_elem_of_further).
      destruct (release_strs E now x p σc) as [-> _].
      apply lookup_insert_ne, Hk, list_elem_of_here.
  - (* not delivered *)
    destruct (process_switch_failed E now acc x σc Hd) as [e He].
    erewrite bind_Ret by exact He.
    destruct (IH (mkSweep (processed acc) (errors acc ++ [e])%list (counted acc))
                 σc Hnd)
      as (res & σ' & Hrun & (new & Hc & Hp & Hnew) & Hdel & Hframe & Hstrs).
    cbn [counted processed] in Hc, Hp.
    exists res, σ'. split; [done|]. split; [|split; [|split]].
    + exists new. split; [done|]. split; [done|].
      intros id Hin. destruct (Hnew id Hin) as (sw & q & Hsw & Hid & Hq & Hr).
      exists sw, q. split; [by apply list_elem_of_further|done].
    + intros sw q [->|Hin]%elem_of_cons Hq Hstable; [congruence|].
      apply Hdel; [done|done|].
      intros k sw' Hk Hin'. apply (Hstable k sw' Hk). by apply list_elem_of_further.
    + intros sw q Hnot Hr. cbn [map] in Hnot.
      apply not_elem_of_cons in Hnot as [Hne Hnot]. by apply Hframe.
    + intros k Hk. apply Hstrs. intros sw' Hin'. apply Hk.
      by apply list_elem_of_further.
Qed.
Lemma due_visible σ now id sw :
  due σ now id = Some sw → visible σ id = Some sw.
Proof.
  unfold due. destruct (visible σ id) as [s|]; [|done].
  destruct (is_text _ _ && is_overdue now s); [|done]. by intros [= ->].
Qed.

Lemma overdue_switches_tid E σ now (ids : list string) :
  dms_inv σ →
  map (tid E) (omap (due σ now) ids)
    = filter (λ id, is_Some (due σ now id)) ids.
Proof.
  intros [Hrec _]. induction ids as [|id ids IH]; [done|].
  change (omap (due σ now) (id :: ids)) with
    (match due σ now id with
     | Some y => y :: omap (due σ now) ids | None => omap (due σ now) ids end).
  rewrite filter_cons. destruct (due σ now id) as [sw|] eqn:Hd.
  - rewrite decide_True by done. cbn [map]. rewrite IH. f_equal.
    apply due_visible, visible_Some in Hd as [Hh _].
    destruct (Hrec id sw Hh) as [Hwf _]. by apply wf_switch_tid.
  - rewrite decide_False by (by intros [? ?]). done.
Qed.

Lemma overdue_switches_NoDup E σ now :
  dms_inv σ → NoDup (map (tid E) (overdue_switches σ now)).
Proof.
  intros Hinv. unfold overdue_switches. rewrite overdue_switches_tid by done.
  apply NoDup_filter, NoDup_elements.
Qed.

Lemma overdue_switches_record E σ now sw :
  dms_inv σ → sw ∈ overdue_switches σ now →
  hashes σ !! switchKey (tid E sw) = Some sw ∧ wf_switch (tid E sw) sw.
Proof.
  intros [Hrec _] (id & _ & Hv & _)%overdue_switches_elem.
  apply visible_Some in Hv as [Hh _].
  destruct (Hrec id sw Hh) as [Hwf _].
  by rewrite (wf_switch_tid E id sw Hwf).
Qed.


Lemma process_route_run E now σ :
  dmsCronSecret E ≠ "" →
  process_route E now (Some (dmsCronSecret E)) σ =
    try_catch
      (let* overdue := getOverdueSwitches now in
       if bool_decide (overdue = []) then ret (200, BNoOverdue)%Z
       else
         let* result := sweep E now overdue in
         ret (200, BProcessed (processed result) (length overdue)
                     (errors result))%Z)
      (λ _, ret (500, BError "Failed to process switches")%Z) σ.
Proof.
  intros Hne. unfold process_route, try_catch.
  rewrite bool_decide_eq_true_2 by done.
  rewrite bool_decide_eq_false_2 by congruence. done.
Qed.

(** ** The invariant through the loops and the routes *)

Lemma dms_inv_bumps E now (l : list hash) σ :
  dms_inv σ →
  (∀ sw, sw ∈ l → is_Some (hashes σ !! switchKey (tid E sw))) →
  dms_inv (foldl (λ s sw, bump E now sw s) σ l).
Proof.
  revert σ. induction l as [|sw l IH]; intros σ Hinv Hrec; [done|].
  cbn [foldl]. destruct (Hrec sw) as [h Hh]; [set_solver|]. apply IH.
  - unfold bump. by eapply dms_inv_bump.
  - intros sw' Hin. unfold bump. rewrite hashes_setHash.
    case_decide; [done|]. apply Hrec. set_solver.
Qed.

Lemma dms_inv_refreshDeadlines E now o σ :
  dms_inv σ → dms_inv (exec (refreshDeadlines E now o) σ).
Proof.
  intros Hinv. unfold exec. rewrite refreshDeadlines_run by done. cbn [snd].
  apply dms_inv_bumps; [done|].
  intros sw (id & Hh & _)%active_switches_elem; [|done].
  destruct Hinv as [Hrec _]. destruct (Hrec id sw Hh) as [Hwf _].
  rewrite (wf_switch_tid E id sw Hwf). by eexists.
Qed.

Lemma dms_inv_release E now sw p h σ :
  dms_inv σ → hashes σ !! switchKey (tid E sw) = Some h →
  dms_inv (release E now sw p σ).
Proof.
  intros Hinv Hh. unfold release. eapply dms_inv_markTriggered; [|exact Hh].
  by eapply dms_inv_strs; [| |exact Hinv].
Qed.

Lemma dms_inv_sweep E now (l : list hash) acc σ :
  dms_inv σ →
  (∀ sw, sw ∈ l → is_Some (hashes σ !! switchKey (tid E sw))) →
  dms_inv (exec (foldM l acc (process_switch E now)) σ).
Proof.
  revert acc σ. induction l as [|x l IH]; intros acc σ Hinv Hrec; [done|].
  unfold exec. cbn [foldM].
  destruct (deliverable E σ x) as [p|] eqn:Hd.
  - erewrite bind_Ret by by apply process_switch_delivered.
    destruct (Hrec x) as [h Hh]; [set_solver|].
    apply IH; [by eapply dms_inv_release|].
    intros sw Hin. rewrite release_hashes. case_decide; [done|].
    apply Hrec. set_solver.
  - destruct (process_switch_failed E now acc x σ Hd) as [e He].
    erewrite bind_Ret by exact He. apply IH; [done|].
    intros; apply Hrec; set_solver.
Qed.

Lemma dms_inv_cleaned σ : dms_inv σ → dms_inv (cleaned σ).
Proof. intros Hinv. by apply dms_inv_clean. Qed.

Lemma dms_inv_process_route E now secret σ :
  dms_inv σ → dms_inv (exec (process_route E now secret) σ).
Proof.
  intros Hinv. unfold exec, process_route, try_catch.
  destruct (negb _ || _); [done|].
  unfold bind at 1. rewrite getOverdueSwitches_run.
  case_bool_decide as Hnil; [by apply dms_inv_cleaned|].
  pose proof (dms_inv_sweep E now (overdue_switches σ now) (mkSweep 0 [] [])
                (cleaned σ) (dms_inv_cleaned σ Hinv)) as Hsw.
  unfold exec, sweep, bind in *.
  destruct (foldM _ _ _ _) as [[res|e] σ']; cbn [fst snd] in *; apply Hsw;
    intros sw Hin; destruct (overdue_switches_record E σ now sw Hinv Hin) as [Hh _];
    unfold cleaned; destruct (clean_frame σ (elements (members σ ACTIVE_SET)) σ) as [-> _];
    by rewrite Hh.
Qed.

Lemma dms_inv_checkin_route E now req σ :
  dms_inv σ → dms_inv (exec (checkin_route E now req) σ).
Proof.
  intros Hinv. unfold exec, checkin_route, try_catch.
  destruct (_ || _); [done|]. destruct (negb _); [done|].
  unfold bind. rewrite refreshDeadlines_run by done. cbn [fst snd].
  pose proof (dms_inv_refreshDeadlines E now (s_senderPubkey req) σ Hinv) as H.
  unfold exec in H. by rewrite refreshDeadlines_run in H.
Qed.

Lemma dms_inv_cancel_route E id req σ :
  dms_inv σ → dms_inv (exec (cancel_route E id req) σ).
Proof.
  intros Hinv. unfold exec, cancel_route, try_catch.
  destruct (_ || _); [done|]. destruct (negb _); [done|].
  pose proof (dms_inv_cancelSwitch id (s_senderPubkey req) σ Hinv) as H.
  unfold exec, bind in *.
  by destruct (cancelSwitch id (s_senderPubkey req) σ) as [[[]|e] σ'].
Qed.

Lemma dms_inv_create_route E now uuid rand upload req σ :
  dms_inv σ → uuid ≠ "" → hashes σ !! switchKey uuid = None →
  dms_inv (exec (create_route E now uuid rand upload req) σ).
Proof.
  intros Hinv Hne Hfresh. unfold exec, create_route, try_catch.
  destruct (_ || _ || _ || _); [done|]. destruct (_ || _); [done|].
  destruct (_ || _); [done|]. destruct (negb _); [done|].
  destruct (negb _); [done|].
  destruct upload as [txid|].
  - erewrite bind_Ret by reflexivity.
    destruct (createSwitch_run now uuid
                (mkInput (c_senderPubkey req) (c_recipientUsername req) txid
                   (c_checkInIntervalHours req)) σ) as (r & Hrun & _).
    pose proof (dms_inv_createSwitch now uuid
                  (mkInput (c_senderPubkey req) (c_recipientUsername req) txid
                     (c_checkInIntervalHours req)) σ Hinv Hne Hfresh) as H.
    unfold exec in H. unfold bind. rewrite Hrun in *. done.
  - set (fallbackId := "local-" +:+ pretty now +:+ "-" +:+ rand).
    set (σb := exec (storeMessageBlob ("dms:" +:+ fallbackId)
                       (c_encryptedMessage req) YEAR_S) σ).
    rewrite (bind_Ret _ _ σ ("local:" +:+ fallbackId) σb) by reflexivity.
    set (input := mkInput _ _ _ _).
    assert (dms_inv σb) as Hb by (by eapply dms_inv_strs; [| |exact Hinv]).
    destruct (createSwitch_run now uuid input σb) as (r & Hrun & _).
    pose proof (dms_inv_createSwitch now uuid input σb Hb Hne Hfresh) as H.
    unfold exec in H. unfold bind. rewrite Hrun in *. done.
Qed.
(** ** The claims on the sweep and on the invariant *)



(** Scenario 4: the switch of S is the one the sweep counts. *)
Example sweep_scenario :
  run (process_route test_env (t0 + 2 * HOUR_MS) (Some "cron-secret")) after_create
    = Ret (200, BProcessed 1 1 [])%Z
  ∧ strs after_sweep !! "dms:release:sw-1"
    = Some "type=dms_release;switchId=sw-1;senderPubkey=S;recipientUsername=alice;encryptedMessage=ciphertext;triggeredAt=T8200000"
  ∧ ttls after_sweep !! "dms:release:sw-1" = Some 7776000%Z.
Proof. split_and?; computed. Qed.

(** C3, as the code has it.  Every operation on switches keeps the
    invariant [dms_inv]: records are well formed; an active switch is in
    its owner's index and in the active index; a cancelled switch is in
    neither; a triggered switch is not in the active index, and
    [markTriggered] leaves the owner's index as it is, so the triggered
    switch stays in it. *)
Theorem dms_inv_preserved E σ :
  dms_inv σ →
  (∀ now uuid rand upload req,
     uuid ≠ "" → hashes σ !! switchKey uuid = None →
     dms_inv (exec (create_route E now uuid rand upload req) σ))
  ∧ (∀ now req, dms_inv (exec (checkin_route E now req) σ))
  ∧ (∀ id req, dms_inv (exec (cancel_route E id req) σ))
  ∧ (∀ now secret, dms_inv (exec (process_route E now secret) σ))
  ∧ (∀ now id, is_Some (hashes σ !! switchKey id) →
       dms_inv (exec (markTriggered now id) σ)
       ∧ ∀ pk, members (exec (markTriggered now id) σ) (userSwitchesKey pk)
               = members σ (userSwitchesKey pk)).
Proof.
  intros Hinv. split_and!.
  - intros. by apply dms_inv_create_route.
  - intros. by apply dms_inv_checkin_route.
  - intros. by apply dms_inv_cancel_route.
  - intros. by apply dms_inv_process_route.
  - intros now id [h Hh]. split; [by eapply dms_inv_markTriggered|].
    intros pk.
    change (exec (markTriggered now id) σ)
      with (exec (srem ACTIVE_SET id) (exec (setHash (switchKey id)
              (list_to_map [("status", VStr "triggered"); ("triggeredAt", VTime now)])) σ)).
    rewrite members_srem, decide_False by (apply not_eq_sym, userSwitchesKey_active).
    done.
Qed.

Lemma dms_inv_preserved_witness : dms_inv after_create ∧ dms_inv after_sweep.
Proof.
  assert (dms_inv empty_store) as H0.
  { split.
    - intros id h Hl. simpl in Hl. by rewrite lookup_empty in Hl.
    - intros pk id Hin. unfold members in Hin. simpl in Hin.
      rewrite lookup_empty in Hin. set_solver. }
  destruct (dms_inv_preserved test_env empty_store H0) as (Hcreate & _).
  assert (dms_inv after_create) as H1 by (apply Hcreate; [done|exact eq_refl]).
  split; [exact H1|].
  destruct (dms_inv_preserved test_env after_create H1) as (_ & _ & _ & Hsweep & _).
  apply Hsweep.
Defined.

(** C3 as stated fails: I5 as the specification words it holds after
    the create of scenario 4 and no longer after the sweep, which leaves
    the triggered switch in the index of its owner. *)
Lemma triggered_switch_stays_indexed :
  I5 after_create ∧ ¬ I5 after_sweep
  ∧ (hashes after_sweep !! switchKey "sw-1") ≫= (.!! "status")
      = Some (VStr "triggered")
  ∧ "sw-1" ∈ members after_sweep (userSwitchesKey "S").
Proof.
  assert ("sw-1" ∈ members after_sweep (userSwitchesKey "S")) as Hin
    by decided.
  assert ((hashes after_sweep !! switchKey "sw-1") ≫= (.!! "status")
          = Some (VStr "triggered")) as Hst by computed.
  split; [|split; [|split; [exact Hst|exact Hin]]].
  - assert (dms_inv after_create) as [Hrec _]
      by (apply dms_inv_create_route; [apply dms_inv_empty|done|exact eq_refl]).
    assert (map_Forall (λ _ (h : hash), h !! "status" = Some (VStr "active"))
              (hashes after_create)) as Hall
      by decided.
    intros id h pk Hh Hpk. pose proof (Hall _ _ Hh) as Hact. cbn in Hact.
    split; [|congruence]. intros _.
    destruct (Hrec id h Hh) as [_ Hidx]. by apply (Hidx pk Hpk).
  - intros H.
    assert (is_Some (hashes after_sweep !! switchKey "sw-1")) as [h Hh]
      by decided.
    assert ((hashes after_sweep !! switchKey "sw-1") ≫= (.!! "senderPubkey")
            = Some (VStr "S")) as Hs by computed.
    rewrite Hh in Hst, Hs. cbn in Hst, Hs.
    destruct (H "sw-1" h "S" Hh Hs) as [_ Hno].
    destruct Hno as [Hno _]; [congruence|]. by apply Hno.
Qed.
Lemma checkin_bumps_active_witness :
  ∃ σ' count latest,
    checkin_route test_env (t0 + 3000000) signed_S after_create
      = (Ret (200, BCheckedIn count latest)%Z, σ')
    ∧ (count = 0%nat ↔ latest = None).
Proof.
  assert (dms_inv after_create) as Hinv
    by (apply dms_inv_create_route; [apply dms_inv_empty|done|exact eq_refl]).
  assert (signed_by test_env "dms:checkin:" signed_S = true) as Hsig
    by computed.
  destruct (checkin_bumps_active test_env (t0 + 3000000) after_create signed_S
              Hinv Hsig) as (σ' & count & latest & H1 & _ & _ & _ & H5 & _).
  exists σ', count, latest. auto.
Defined.

(** Scenario 5: a check-in fifty minutes after the create moves the
    deadline to one hour after the check-in, and a sweep fifteen minutes
    later finds nothing overdue. *)
Example checkin_scenario :
  run (checkin_route test_env (t0 + 3000000) signed_S) after_create
    = Ret (200, BCheckedIn 1 (Some (t0 + 3000000 + HOUR_MS)))%Z
  ∧ run (process_route test_env (t0 + 3900000) (Some "cron-secret"))
      (exec (checkin_route test_env (t0 + 3000000) signed_S) after_create)
    = Ret (200, BNoOverdue)%Z.
Proof. split; computed. Qed.

(** ** The fallback payload *)


(** ** Time passing *)

Lemma same_switches_refl σ : same_switches σ σ.
Proof. by split_and!. Qed.

Lemma same_switches_trans σ1 σ2 σ3 :
  same_switches σ1 σ2 → same_switches σ2 σ3 → same_switches σ1 σ3.
Proof.
  intros (H1 & H2 & H3) (H1' & H2' & H3'). split_and!.
  - intros id. by rewrite H1', H1.
  - intros pk. by rewrite H2', H2.
  - by rewrite H3', H3.
Qed.

Lemma dms_inv_same σ σ' : same_switches σ σ' → dms_inv σ → dms_inv σ'.
Proof.
  intros (Hh & Hu & Ha) [Hrec Hown].
  assert (∀ pk, members σ' (userSwitchesKey pk) = members σ (userSwitchesKey pk))
    as Hmu by (intros pk; unfold members; by rewrite Hu).
  assert (members σ' ACTIVE_SET = members σ ACTIVE_SET) as Hma
    by (unfold members; by rewrite Ha).
  split.
  - intros id h. rewrite Hh. intros Hl. destruct (Hrec id h Hl) as [Hw Hi].
    split; [done|]. intros pk Hpk. rewrite Hmu, Hma. by apply Hi.
  - intros pk id. rewrite Hmu, Hh. apply Hown.
Qed.

Lemma unexpired_lookup {A} δ σ (m : gmap string A) k :
  unexpired δ σ m !! k = if expired δ σ k then None else m !! k.
Proof.
  unfold unexpired. rewrite map_lookup_imap.
  destruct (m !! k); cbn; by destruct (expired δ σ k).
Qed.

(** A key without a time to live stays. *)
Lemma elapse_untimed δ σ k :
  lives σ !! k = None →
  hashes (elapse δ σ) !! k = hashes σ !! k
  ∧ strs (elapse δ σ) !! k = strs σ !! k
  ∧ sets (elapse δ σ) !! k = sets σ !! k
  ∧ lives (elapse δ σ) !! k = None.
Proof.
  intros Hk. unfold elapse. cbn [hashes strs sets lives].
  rewrite !unexpired_lookup, map_lookup_imap. unfold expired. by rewrite Hk.
Qed.

(** A key outlives a time shorter than what it has to live, *)
Lemma elapse_alive δ σ k rest :
  lives σ !! k = Some rest → (δ < rest)%Z →
  hashes (elapse δ σ) !! k = hashes σ !! k
  ∧ strs (elapse δ σ) !! k = strs σ !! k
  ∧ sets (elapse δ σ) !! k = sets σ !! k
  ∧ lives (elapse δ σ) !! k = Some (rest - δ)%Z.
Proof.
  intros Hk Hlt. unfold elapse. cbn [hashes strs sets lives].
  rewrite !unexpired_lookup, map_lookup_imap. unfold expired. rewrite Hk.
  cbn [mbind option_bind].
  by assert ((rest <=? δ)%Z = false) as -> by (apply Z.leb_gt; lia).
Qed.

(** and is gone, whatever its type, once that time has passed. *)
Lemma elapse_dead δ σ k rest :
  lives σ !! k = Some rest → (rest ≤ δ)%Z →
  hashes (elapse δ σ) !! k = None
  ∧ strs (elapse δ σ) !! k = None
  ∧ sets (elapse δ σ) !! k = None
  ∧ lives (elapse δ σ) !! k = None.
Proof.
  intros Hk Hle. unfold elapse. cbn [hashes strs sets lives].
  rewrite !unexpired_lookup, map_lookup_imap. unfold expired. rewrite Hk.
  cbn [mbind option_bind].
  by assert ((rest <=? δ)%Z = true) as -> by (apply Z.leb_le; lia).
Qed.

Lemma same_switches_elapse δ σ : switches_untimed σ → same_switches σ (elapse δ σ).
Proof.
  intros (Hs & Hu & Ha). split_and!.
  - intros id. by destruct (elapse_untimed δ σ _ (Hs id)) as (-> & _).
  - intros pk. by destruct (elapse_untimed δ σ _ (Hu pk)) as (_ & _ & -> & _).
  - by destruct (elapse_untimed δ σ _ Ha) as (_ & _ & -> & _).
Qed.

Lemma switches_untimed_elapse δ σ :
  switches_untimed σ → switches_untimed (elapse δ σ).
Proof.
  intros (Hs & Hu & Ha). split_and!.
  - intros id. by destruct (elapse_untimed δ σ _ (Hs id)) as (_ & _ & _ & ->).
  - intros pk. by destruct (elapse_untimed δ σ _ (Hu pk)) as (_ & _ & _ & ->).
  - by destruct (elapse_untimed δ σ _ Ha) as (_ & _ & _ & ->).
Qed.

Lemma dms_inv_elapse δ σ : switches_untimed σ → dms_inv σ → dms_inv (elapse δ σ).
Proof. intros Hunt. apply dms_inv_same. by apply same_switches_elapse. Qed.

Lemma switches_untimed_empty : switches_untimed empty_store.
Proof. by split_and!. Qed.







(** Scenario 6, computed: the handle, the fallback blob and the released
    message, the last one the same as on the happy path of scenario 4. *)
Example fallback_scenario :
  (hashes after_fallback_create !! switchKey "sw-1") ≫= (.!! "arweaveTxId")
    = Some (VStr "local:local-1000000-x7k2p9")
  ∧ strs after_fallback_create !! "dms:local-1000000-x7k2p9" = Some "ciphertext"
  ∧ ttls after_fallback_create !! "dms:local-1000000-x7k2p9" = Some 31536000%Z
  ∧ strs after_fallback_sweep !! "dms:release:sw-1"
    = strs after_sweep !! "dms:release:sw-1"
  ∧ is_Some (strs after_fallback_sweep !! "dms:release:sw-1").
Proof.
  split_and!; try computed.
  decided.
Qed.


(** ** What the routes leave without a time to live

    A property of the store that every adapter call keeps is kept by the
    services and the routes, which are built from these calls. *)

Lemma keeps_ret {A} P (a : A) : keeps P (ret a).
Proof. by intros σ H. Qed.

Lemma keeps_throw {A} P e : keeps P (throw e : M A).
Proof. by intros σ H. Qed.

Lemma keeps_bind {A B} P (m : M A) (k : A → M B) :
  keeps P m → (∀ a, keeps P (k a)) → keeps P (let* x := m in k x).
Proof.
  intros Hm Hk σ Hσ. specialize (Hm σ Hσ). unfold exec, bind in *.
  destruct (m σ) as [[a|e] σ']; cbn [snd] in *; [by apply Hk|done].
Qed.

Lemma keeps_try_catch {A} P (m : M A) (h : exn → M A) :
  keeps P m → (∀ e, keeps P (h e)) → keeps P (try_catch m h).
Proof.
  intros Hm Hh σ Hσ. specialize (Hm σ Hσ). unfold exec, try_catch in *.
  destruct (m σ) as [[a|e] σ']; cbn [snd] in *; [done|by apply Hh].
Qed.

Lemma keeps_forM {A} P (l : list A) (f : A → M unit) :
  (∀ x, keeps P (f x)) → keeps P (forM_ l f).
Proof. intros Hf σ. apply forM_invariant. intros x s. apply Hf. Qed.

Lemma keeps_foldM {A B} P (l : list A) (acc : B) (f : B → A → M B) :
  (∀ acc x, keeps P (f acc x)) → keeps P (foldM l acc f).
Proof. intros Hf σ. apply foldM_invariant. intros b x s. apply Hf. Qed.

Lemma untimed_deleteKey k : keeps switches_untimed (deleteKey k).
Proof.
  intros σ (Hs & Hu & Ha). unfold switches_untimed, exec, deleteKey. cbn [snd lives].
  split_and!; intros; apply lookup_delete_None; by right.
Qed.

Lemma untimed_setExpiry k ttl : timed_key k → keeps switches_untimed (setExpiry k ttl).
Proof.
  intros (Ks & Ku & Ka) σ (Hs & Hu & Ha).
  unfold switches_untimed, exec, setExpiry. cbn [snd lives].
  split_and!; intros; by rewrite lookup_insert_ne.
Qed.

Lemma untimed_setString k v ttl :
  timed_key k → keeps switches_untimed (setStringWithExpiry k v ttl).
Proof.
  intros (Ks & Ku & Ka) σ (Hs & Hu & Ha).
  unfold switches_untimed, exec, setStringWithExpiry. cbn [snd lives].
  split_and!; intros; by rewrite lookup_insert_ne.
Qed.

Lemma timed_key_recovery k : recovery_key k → timed_key k.
Proof. intros [s ->]. by split_and!. Qed.

Lemma timed_key_dms s : timed_key ("dms:" +:+ ("local-" +:+ s)).
Proof. by split_and!. Qed.

Lemma timed_key_release id : timed_key (releaseKey id).
Proof. by split_and!. Qed.

Create HintDb services discriminated.
#[local] Hint Unfold distribute_route request_route approve_route shares_route
  revoke_route create_route checkin_route list_route cancel_route process_route
  distributeShares getRecoveryConfig getShareForGuardian revokeShares
  createSession getSession approveSession getReleasedShares
  createSwitch getSwitch getUserSwitches refreshDeadlines cancelSwitch
  getOverdueSwitches markTriggered sweep process_switch fetch_payload
  storeMessageBlob getMessageContent JSON_parse ISO : services.

Ltac untimed_step :=
  lazymatch goal with
  | |- keeps _ (ret _) => apply keeps_ret
  | |- keeps _ (throw _) => apply keeps_throw
  | |- keeps _ (bind _ _) => apply keeps_bind; [|intros ?]
  | |- keeps _ (try_catch _ _) => apply keeps_try_catch; [|intros ?]
  | |- keeps _ (forM_ _ _) => apply keeps_forM; intros ?
  | |- keeps _ (foldM _ _ _) => apply keeps_foldM; intros ? ?
  | |- keeps _ (deleteKey _) => apply untimed_deleteKey
  | |- keeps _ (setExpiry _ _) => apply untimed_setExpiry
  | |- keeps _ (setStringWithExpiry _ _ _) => apply untimed_setString
  | |- keeps _ (getHash _) => exact (λ σ H, H)
  | |- keeps _ (getString _) => exact (λ σ H, H)
  | |- keeps _ (smembers _) => exact (λ σ H, H)
  | |- keeps _ (setHash _ _) => exact (λ σ H, H)
  | |- keeps _ (sadd _ _) => exact (λ σ H, H)
  | |- keeps _ (srem _ _) => exact (λ σ H, H)
  | |- keeps _ (match ?x with _ => _ end) => destruct x
  | |- keeps _ _ => first [progress cbv zeta | progress autounfold with services]
  end.

(** No route gives a switch record or an index a time to live. *)
Lemma untimed_routes E :
  (∀ now req, keeps switches_untimed (distribute_route E now req))
  ∧ (∀ now uuid req, keeps switches_untimed (request_route now uuid req))
  ∧ (∀ sid req, keeps switches_untimed (approve_route E sid req))
  ∧ (∀ sid, keeps switches_untimed (shares_route sid))
  ∧ (∀ req, keeps switches_untimed (revoke_route E req))
  ∧ (∀ now uuid rand upload req,
       keeps switches_untimed (create_route E now uuid rand upload req))
  ∧ (∀ now req, keeps switches_untimed (checkin_route E now req))
  ∧ (∀ pk, keeps switches_untimed (list_route pk))
  ∧ (∀ id req, keeps switches_untimed (cancel_route E id req))
  ∧ (∀ now secret, keeps switches_untimed (process_route E now secret)).
Proof.
  split_and!; intros; repeat untimed_step.
  all: try (apply timed_key_recovery; by eexists).
  all: try apply timed_key_dms.
  all: try apply timed_key_release.
Qed.

(** ** The invariant in every reachable store *)

Lemma recovery_key_switch k id : recovery_key k → k ≠ switchKey id.
Proof. by intros [s ->]. Qed.

Lemma recovery_key_user k pk : recovery_key k → k ≠ userSwitchesKey pk.
Proof. by intros [s ->]. Qed.

Lemma recovery_key_active k : recovery_key k → k ≠ ACTIVE_SET.
Proof. by intros [s ->]. Qed.

Lemma same_switches_setHash σ k d :
  recovery_key k → same_switches σ (exec (setHash k d) σ).
Proof.
  intros Hk. split_and!; [|done..]. intros id. unfold exec, setHash. cbn.
  by rewrite lookup_insert_ne by by apply recovery_key_switch.
Qed.

Lemma same_switches_deleteKey σ k :
  recovery_key k → same_switches σ (exec (deleteKey k) σ).
Proof.
  intros Hk. unfold exec, deleteKey. split_and!; cbn.
  - intros id. by rewrite lookup_delete_ne by by apply recovery_key_switch.
  - intros pk. by rewrite lookup_delete_ne by by apply recovery_key_user.
  - by rewrite lookup_delete_ne by by apply recovery_key_active.
Qed.

Lemma same_switches_strs σ σ' :
  hashes σ' = hashes σ → sets σ' = sets σ → same_switches σ σ'.
Proof. intros Hh Hs. unfold same_switches. by rewrite Hh, Hs. Qed.

Lemma same_switches_revokeShares o σ :
  same_switches σ (exec (revokeShares o) σ).
Proof.
  unfold exec, revokeShares, getRecoveryConfig.
  unfold bind at 1. unfold bind at 1. unfold bind at 1. unfold getHash. cbn [fst snd].
  assert (∀ σc, same_switches σ σc →
            same_switches σ (deleteKey (configKey o) σc).2) as Hlast.
  { intros σc Hc. eapply same_switches_trans; [exact Hc|].
    apply (same_switches_deleteKey σc). by eexists. }
  destruct (hashes σ !! configKey o) as [c|]; [|apply Hlast, same_switches_refl].
  destruct (truthy (c !! "ownerPubkey")); [|apply Hlast, same_switches_refl].
  unfold ret at 1. unfold bind at 1.
  destruct (c !! "guardianPubkeys") as [[| | |gs|]|];
    try (cbn; apply same_switches_refl).
  cbn [JSON_parse ret].
  pose proof (forM_invariant (same_switches σ) gs
                (λ g, deleteKey (shareKey g o))) as Hloop.
  unfold exec in Hloop.
  specialize (Hloop (λ g σc Hc, same_switches_trans _ _ _ Hc
                 (same_switches_deleteKey σc (shareKey g o)
                    (ex_intro _ _ eq_refl))) σ (same_switches_refl σ)).
  destruct (forM_ gs _ σ) as [[[]|e] σc]; cbn [fst snd] in *; [|done].
  by apply Hlast.
Qed.

Lemma same_switches_distributeShares now o t gs σ :
  same_switches σ (exec (distributeShares now o t gs) σ).
Proof.
  unfold exec. rewrite distributeShares_run. cbn [snd].
  assert (∀ σc, same_switches σ σc →
            same_switches σ (foldl (λ s g, write_share now o g s) σc gs)) as H.
  { induction gs as [|g gs IH]; intros σc Hc; [done|]. cbn [foldl]. apply IH.
    eapply same_switches_trans; [exact Hc|].
    apply (same_switches_setHash σc). by eexists. }
  apply H. apply (same_switches_setHash σ). by eexists.
Qed.

Lemma same_switches_createSession now uuid o eph gs σ :
  same_switches σ (exec (createSession now uuid o eph gs) σ).
Proof.
  unfold exec, createSession, getRecoveryConfig.
  unfold bind at 1. unfold bind at 1. unfold getHash. cbn [fst snd].
  destruct (hashes σ !! configKey o) as [c|]; [|apply same_switches_refl].
  destruct (truthy (c !! "ownerPubkey")); [|apply same_switches_refl].
  unfold ret at 1. unfold bind at 1.
  destruct (c !! "guardianPubkeys") as [[| | |valid|]|];
    try (cbn; apply same_switches_refl).
  cbn [JSON_parse ret]. unfold bind at 1.
  pose proof (forM_invariant (λ σc, σc = σ) gs
                (λ g, if bool_decide (g ∈ valid) then ret tt
                      else throw (Error (g +:+ " is not a guardian for this identity"))))
    as Hloop.
  unfold exec in Hloop. specialize (Hloop (λ g σc Hc,
    ltac:(by destruct (bool_decide (g ∈ valid))))  σ eq_refl).
  destruct (forM_ gs _ σ) as [[[]|e] σc]; cbn [fst snd] in *; subst σc;
    [|apply same_switches_refl].
  eapply same_switches_trans; [apply (same_switches_setHash σ); by eexists|].
  by apply same_switches_strs.
Qed.

Lemma same_switches_approveSession E sid g share σ :
  same_switches σ (exec (approveSession E sid g share) σ).
Proof.
  unfold exec, approveSession. unfold bind at 1. rewrite getSession_run.
  destruct (run (getSession sid) σ) as [[s|]|e]; try apply same_switches_refl.
  destruct (negb (is_text (s !! "status") "pending")); [apply same_switches_refl|].
  unfold bind at 1.
  destruct (s !! "guardianPubkeys") as [[| | |gs|]|];
    try (cbn; apply same_switches_refl).
  cbn [JSON_parse ret].
  destruct (negb (bool_decide (g ∈ gs))); [apply same_switches_refl|].
  unfold bind at 1. unfold getString at 1.
  destruct (negb (bool_decide _)); [apply same_switches_refl|].
  unfold bind. cbn [fst snd setStringWithExpiry setHash ret].
  split_and!; [|done..]. intros id. cbn.
  by rewrite lookup_insert_ne by (apply recovery_key_switch; by eexists).
Qed.

Lemma getReleasedShares_pure sid σ : exec (getReleasedShares sid) σ = σ.
Proof.
  unfold exec, getReleasedShares. unfold bind at 1. rewrite getSession_run.
  destruct (run (getSession sid) σ) as [[s|]|e]; try done.
  destruct (negb (is_text (s !! "status") "ready")); [done|].
  unfold bind at 1.
  destruct (s !! "guardianPubkeys") as [[| | |gs|]|]; try done.
  cbn [JSON_parse ret].
  apply (foldM_invariant (λ σc, σc = σ)); [|done].
  intros acc g σc ->. unfold exec, bind, getString. cbn.
  destruct (strs σ !! sessionShareKey sid g) as [sh|]; [|done].
  by destruct (negb (String.eqb sh "")).
Qed.

Lemma getUserSwitches_pure pk σ : exec (getUserSwitches pk) σ = σ.
Proof. unfold exec. by rewrite getUserSwitches_run. Qed.

Lemma same_switches_distribute_route E now req σ :
  same_switches σ (exec (distribute_route E now req) σ).
Proof.
  unfold exec, distribute_route, try_catch.
  destruct (d_guardians req) as [gs|]; [|apply same_switches_refl].
  repeat (match goal with
          | |- context [if ?c then _ else _] => destruct c
          end; [apply same_switches_refl|]).
  pose proof (same_switches_revokeShares (d_senderPubkey req) σ) as H1.
  unfold exec, bind in *.
  destruct (revokeShares (d_senderPubkey req) σ) as [[[]|e] σr]; cbn [fst snd] in *;
    [|done].
  pose proof (same_switches_distributeShares now (d_senderPubkey req)
                (d_threshold req) gs σr) as H2.
  unfold exec in H2. rewrite distributeShares_run in *. cbn [fst snd] in *.
  by eapply same_switches_trans.
Qed.

Lemma same_switches_request_route now uuid req σ :
  same_switches σ (exec (request_route now uuid req) σ).
Proof.
  unfold exec, request_route, try_catch.
  destruct (r_requestedGuardians req) as [gs|]; [|apply same_switches_refl].
  repeat (match goal with
          | |- context [if ?c then _ else _] => destruct c
          end; [apply same_switches_refl|]).
  pose proof (same_switches_createSession now uuid (r_ownerPubkey req)
                (r_ephemeralPubkey req) gs σ) as H1.
  unfold exec, bind in *.
  destruct (createSession now uuid _ _ gs σ) as [[s|e] σc]; cbn [fst snd] in *;
    [done|].
  repeat (match goal with
          | |- context [if ?c then _ else _] => destruct c
          end); done.
Qed.

Lemma same_switches_approve_route E sessionId req σ :
  same_switches σ (exec (approve_route E sessionId req) σ).
Proof.
  unfold exec, approve_route, try_catch.
  repeat (match goal with
          | |- context [if ?c then _ else _] => destruct c
          end; [apply same_switches_refl|]).
  pose proof (same_switches_approveSession E sessionId (a_guardianPubkey req)
                (a_reEncryptedShare req) σ) as H1.
  unfold exec, bind in *.
  destruct (approveSession E sessionId _ _ σ) as [[s|e] σc]; cbn [fst snd] in *;
    [done|].
  repeat (match goal with
          | |- context [if ?c then _ else _] => destruct c
          end); done.
Qed.

Lemma shares_route_pure sessionId σ : exec (shares_route sessionId) σ = σ.
Proof.
  pose proof (getReleasedShares_pure sessionId σ) as H1.
  unfold exec, shares_route, try_catch, bind in *.
  destruct (getReleasedShares sessionId σ) as [[s|e] σc]; cbn [fst snd] in *;
    subst σc; [done|].
  repeat (match goal with
          | |- context [if ?c then _ else _] => destruct c
          end); done.
Qed.

Lemma same_switches_revoke_route E req σ :
  same_switches σ (exec (revoke_route E req) σ).
Proof.
  unfold exec, revoke_route, try_catch.
  repeat (match goal with
          | |- context [if ?c then _ else _] => destruct c
          end; [apply same_switches_refl|]).
  pose proof (same_switches_revokeShares (s_senderPubkey req) σ) as H1.
  unfold exec, bind in *.
  by destruct (revokeShares (s_senderPubkey req) σ) as [[[]|e] σr].
Qed.

Lemma list_route_pure pk σ : exec (list_route pk) σ = σ.
Proof.
  unfold exec, list_route, try_catch, bind.
  by rewrite getUserSwitches_run.
Qed.

(** Every request keeps the invariant of the switch store. *)
Lemma api_step_untimed E σ σ' :
  api_step E σ σ' → switches_untimed σ → switches_untimed σ'.
Proof.
  destruct (untimed_routes E)
    as (H1 & H2 & H3 & H4 & H5 & H6 & H7 & H8 & H9 & H10).
  intros Hstep Hunt. destruct Hstep.
  - by apply H1.
  - by apply H2.
  - by apply H3.
  - by apply H4.
  - by apply H5.
  - by apply H6.
  - by apply H7.
  - by apply H8.
  - by apply H9.
  - by apply H10.
  - by apply switches_untimed_elapse.
Qed.

Lemma api_step_dms_inv E σ σ' :
  api_step E σ σ' → switches_untimed σ → dms_inv σ → dms_inv σ'.
Proof.
  intros Hstep Hunt Hinv. destruct Hstep.
  - eapply dms_inv_same; [apply same_switches_distribute_route|exact Hinv].
  - eapply dms_inv_same; [apply same_switches_request_route|exact Hinv].
  - eapply dms_inv_same; [apply same_switches_approve_route|exact Hinv].
  - by rewrite shares_route_pure.
  - eapply dms_inv_same; [apply same_switches_revoke_route|exact Hinv].
  - by apply dms_inv_create_route.
  - by apply dms_inv_checkin_route.
  - by rewrite list_route_pure.
  - by apply dms_inv_cancel_route.
  - by apply dms_inv_process_route.
  - by apply dms_inv_elapse.
Qed.

Lemma reachable_dms_inv E σ : reachable E σ → switches_untimed σ ∧ dms_inv σ.
Proof.
  unfold reachable. revert σ. apply rtc_ind_r.
  - split; [apply switches_untimed_empty|apply dms_inv_empty].
  - intros σ1 σ2 _ Hstep [Hunt IH]. split.
    + by eapply api_step_untimed.
    + by eapply api_step_dms_inv.
Qed.

(** * Further properties of the recovery service *)

Lemma distributeShares_record now o t gs σ :
  ∃ c, hashes (exec (distributeShares now o t gs) σ) !! configKey o = Some c
       ∧ c !! "ownerPubkey" = Some (VStr o)
       ∧ c !! "threshold" = Some (VNum t)
       ∧ c !! "guardianPubkeys" = Some (VList (map pubkey gs))
       ∧ c !! "createdAt" = Some (VTime now).
Proof.
  unfold exec. rewrite distributeShares_run. simpl.
  rewrite write_shares_config by (intros; apply not_eq_sym, configKey_shareKey).
  unfold exec, setHash. simpl. rewrite lookup_insert_eq.
  eexists. split; [done|].
  split_and!; by apply lookup_union_Some_l.
Qed.

Lemma guardians_route_configured o c gs σ :
  hashes σ !! configKey o = Some c →
  truthy (c !! "ownerPubkey") = true →
  c !! "guardianPubkeys" = Some (VList gs) →
  guardians_route o σ
    = (Ret (200, IGuardians true gs (Number (c !! "threshold")) (c !! "createdAt"))%Z, σ).
Proof.
  intros Hc Ht Hg. unfold guardians_route, try_catch, getRecoveryConfig, bind, getHash.
  cbn [fst snd]. rewrite Hc, Ht. cbn [ret]. rewrite Hg. done.
Qed.

Lemma guardians_route_unconfigured o σ :
  hashes σ !! configKey o = None →
  guardians_route o σ = (Ret (200, IGuardians false [] (Some 0%Z) None)%Z, σ).
Proof.
  intros Hc. unfold guardians_route, try_catch, getRecoveryConfig, bind, getHash.
  cbn [fst snd]. by rewrite Hc.
Qed.

(** X1.  The guardians route reads back what a distribution stored: after
    a distribute request answered with 200, [GET /guardians/<owner>]
    answers configured, with the guardians' keys in the order of the
    request, the threshold of the request and the time of the request;
    after a signed revoke by the owner it answers not configured, with no
    guardians and threshold 0.  Neither read changes the store. *)
Theorem guardians_route_roundtrip E now dreq σ b σ1 :
  distribute_route E now dreq σ = (Ret (200, b)%Z, σ1) →
  let o := d_senderPubkey dreq in
  (∃ gs, d_guardians dreq = Some gs
     ∧ guardians_route o σ1
       = (Ret (200, IGuardians true (map pubkey gs) (Some (d_threshold dreq))
                     (Some (VTime now)))%Z, σ1))
  ∧ ∀ rreq, signed_by E "recovery:revoke:" rreq = true →
      s_senderPubkey rreq = o →
      ∃ σ2, revoke_route E rreq σ1 = (Ret (200, BSuccess)%Z, σ2)
        ∧ guardians_route o σ2
          = (Ret (200, IGuardians false [] (Some 0%Z) None)%Z, σ2).
Proof.
  intros Hd o.
  destruct (distribute_route_ok _ _ _ _ _ _ Hd) as (gs & σr & Hgs & Hm & _ & -> & _).
  fold o in Hm |- *.
  destruct (distributeShares_record now o (d_threshold dreq) gs σr)
    as (c & Hc & Ho & Ht & Hg & Hat).
  assert (truthy (c !! "ownerPubkey") = true) as Htr
    by (rewrite Ho; by apply missing_truthy).
  split.
  - exists gs. split; [done|].
    rewrite (guardians_route_configured o c (map pubkey gs)) by done.
    by rewrite Ht, Hat.
  - intros rreq Hsig Hsender.
    eexists. split.
    + apply revoke_route_signed; [done|]. rewrite Hsender.
      by apply (revokeShares_configured o c (map pubkey gs)).
    + apply guardians_route_unconfigured, deleteKey_gone.
Qed.

Lemma guardians_route_roundtrip_witness :
  guardians_route "O" after_distribute
    = (Ret (200, IGuardians true ["G1"; "G2"; "G3"] (Some 2%Z)
                  (Some (VTime 1000)))%Z, after_distribute)
  ∧ ∃ σ2, revoke_route test_env revoke_O after_distribute
            = (Ret (200, BSuccess)%Z, σ2)
      ∧ guardians_route "O" σ2
        = (Ret (200, IGuardians false [] (Some 0%Z) None)%Z, σ2).
Proof.
  destruct (guardians_route_roundtrip test_env 1000 distribute_O empty_store
              (BDistributed 3 2) after_distribute) as [(gs & Hgs & H1) H2].
  { apply run_exec. computed. }
  injection Hgs as <-. split; [exact H1|].
  apply H2; computed.
Defined.
Lemma distribute_route_accepts E now req gs σ σr :
  d_guardians req = Some gs →
  distribute_checks E req gs = true →
  revokeShares (d_senderPubkey req) σ = (Ret tt, σr) →
  distribute_route E now req σ
    = (Ret (200, BDistributed (length gs) (d_threshold req))%Z,
       exec (distributeShares now (d_senderPubkey req) (d_threshold req) gs) σr).
Proof.
  intros Hgs Hchk Hr. unfold distribute_checks in Hchk.
  rewrite !andb_true_iff, !negb_true_iff in Hchk.
  destruct Hchk as ((((((Hm & Ht2) & Htn) & Hn10) & Hsig) & Hts) & Hv).
  unfold distribute_route, try_catch. rewrite Hgs, Hm.
  assert ((d_threshold req =? 0)%Z = false) as -> by lia.
  assert ((d_threshold req <? 2)%Z = false) as -> by lia.
  assert ((Z.of_nat (length gs) <? d_threshold req)%Z = false) as -> by lia.
  assert ((10 <? Z.of_nat (length gs))%Z = false) as -> by lia.
  rewrite Hsig, Hts, Hv. simpl.
  erewrite bind_Ret by exact Hr.
  unfold exec. rewrite distributeShares_run. simpl.
  erewrite bind_Ret by apply distributeShares_run. done.
Qed.

(** X2.  A second distribution replaces the first: when the owner's
    first distribute request was answered 200 and a second request of the
    same owner passes the checks of the route, the second is answered 200,
    the guardians route then lists the guardians of the second request,
    and a guardian of the first request that the second does not name
    holds no share of the owner any more. *)
Theorem redistribute_replaces E now now' req1 req2 σ b σ1 gs1 gs2 :
  distribute_route E now req1 σ = (Ret (200, b)%Z, σ1) →
  d_guardians req1 = Some gs1 →
  d_senderPubkey req2 = d_senderPubkey req1 →
  d_guardians req2 = Some gs2 →
  distribute_checks E req2 gs2 = true →
  let o := d_senderPubkey req1 in
  ∃ σ2,
    distribute_route E now' req2 σ1
      = (Ret (200, BDistributed (length gs2) (d_threshold req2))%Z, σ2)
    ∧ guardians_route o σ2
      = (Ret (200, IGuardians true (map pubkey gs2) (Some (d_threshold req2))
                    (Some (VTime now')))%Z, σ2)
    ∧ ∀ g, g ∈ gs1 → pubkey g ∉ map pubkey gs2 →
        hashes σ2 !! shareKey (pubkey g) o = None
        ∧ run (getShareForGuardian (pubkey g) o) σ2 = Ret None.
Proof.
  intros Hd Hgs1 Ho Hgs2 Hchk o.
  destruct (distribute_route_ok _ _ _ _ _ _ Hd) as (gs & σr & Hgs & Hm & _ & -> & _).
  rewrite Hgs1 in Hgs. injection Hgs as <-. fold o in Hm.
  destruct (distributeShares_record now o (d_threshold req1) gs1 σr)
    as (c & Hc & Hown & _ & Hg & _).
  assert (truthy (c !! "ownerPubkey") = true) as Htr
    by (rewrite Hown; by apply missing_truthy).
  set (σ1 := exec (distributeShares now o (d_threshold req1) gs1) σr) in *.
  pose proof (revokeShares_configured o c (map pubkey gs1) σ1 Hc Htr Hg) as Hrev.
  set (σr' := exec (deleteKey (configKey o))
                (delete_keys ((λ g, shareKey g o) <$> map pubkey gs1) σ1)) in *.
  exists (exec (distributeShares now' o (d_threshold req2) gs2) σr').
  split; [|split].
  - etrans; [apply (distribute_route_accepts E now' req2 gs2 σ1 σr' Hgs2 Hchk);
             rewrite Ho; exact Hrev|].
    by rewrite Ho.
  - destruct (distributeShares_record now' o (d_threshold req2) gs2 σr')
      as (c2 & Hc2 & Hown2 & Ht2 & Hg2 & Hat2).
    rewrite (guardians_route_configured o c2 (map pubkey gs2)); try done.
    + by rewrite Ht2, Hat2.
    + rewrite Hown2. by apply missing_truthy.
  - intros g Hin Hnot.
    assert (hashes (exec (distributeShares now' o (d_threshold req2) gs2) σr')
              !! shareKey (pubkey g) o = None) as Hnone.
    { unfold exec at 1. rewrite distributeShares_run. cbn [snd].
      rewrite write_shares_config.
      2:{ intros g' Hg' Heq%shareKey_inj. apply Hnot.
          rewrite <- Heq. apply list_elem_of_fmap. by exists g'. }
      unfold exec at 1, setHash. cbn [snd hashes].
      rewrite lookup_insert_ne by apply configKey_shareKey.
      unfold σr', exec at 1, deleteKey. cbn [snd hashes].
      rewrite lookup_delete_ne by apply configKey_shareKey.
      rewrite delete_keys_hashes, bool_decide_eq_true_2; [done|].
      apply list_elem_of_fmap. exists (pubkey g). split; [done|].
      apply list_elem_of_fmap. by exists g. }
    split; [done|]. by apply getShareForGuardian_no_key.
Qed.

Lemma redistribute_replaces_witness :
  ∃ σ2,
    distribute_route test_env 5000 redistribute_O after_distribute
      = (Ret (200, BDistributed 3 3)%Z, σ2)
    ∧ guardians_route "O" σ2
      = (Ret (200, IGuardians true ["G2"; "G3"; "G4"] (Some 3%Z)
                    (Some (VTime 5000)))%Z, σ2)
    ∧ run (getShareForGuardian "G1" "O") σ2 = Ret None.
Proof.
  destruct (redistribute_replaces test_env 1000 5000 distribute_O redistribute_O
              empty_store (BDistributed 3 2) after_distribute
              three_guardians new_guardians) as (σ2 & H1 & H2 & H3).
  - apply run_exec. computed.
  - exact eq_refl.
  - exact eq_refl.
  - exact eq_refl.
  - computed.
  - exists σ2. split; [exact H1|]. split; [exact H2|].
    apply (H3 (mkGuardian "G1" "c1" 0)); [by left|].
    cbn. intros H. repeat (apply elem_of_cons in H as [H|H]; [discriminate|]).
    by apply elem_of_nil in H.
Defined.

(** ** Sessions: what the routes answer to a request they refuse *)

Lemma includes_app_r (a b pat : string) :
  includes b pat = true → includes (a +:+ b) pat = true.
Proof.
  intros H. induction a as [|c a IH]; [done|].
  change (String c a +:+ b) with (String c (a +:+ b)).
  cbn [includes]. rewrite IH. by destruct (is_prefix pat _).
Qed.

Lemma getRecoveryConfig_run o σ :
  getRecoveryConfig o σ = (run (getRecoveryConfig o) σ, σ).
Proof.
  unfold run, getRecoveryConfig, bind, getHash. simpl.
  destruct (hashes σ !! configKey o) as [d|]; [|done].
  by destruct (truthy (d !! "ownerPubkey")).
Qed.

Lemma guardian_check_fails (pre post valid : list string) g σ :
  pre ⊆ valid → g ∉ valid →
  forM_ (pre ++ g :: post) (λ g,
    if bool_decide (g ∈ valid) then ret tt
    else throw (Error (g +:+ " is not a guardian for this identity"))) σ
  = (Throw (Error (g +:+ " is not a guardian for this identity")), σ).
Proof.
  intros Hsub Hg. induction pre as [|p pre IH]; simpl.
  - by rewrite bool_decide_eq_false_2.
  - rewrite bool_decide_eq_true_2 by set_solver.
    erewrite bind_Ret by reflexivity. apply IH. set_solver.
Qed.

(** X3.  What [POST /request] refuses, for a body that carries its three
    fields and at least one guardian.  For an owner without a recovery
    config the answer is 404.  For an owner whose config lists [valid],
    a request whose first guardian outside [valid] is [g] is answered 400
    with the message "<g> is not a guardian for this identity" (404 when
    that text contains "No recovery config", which the route looks for
    first).  In both cases no session is written: the store is left as it
    was. *)
Theorem request_refused now uuid req gs σ :
  r_requestedGuardians req = Some gs →
  missing (r_ownerPubkey req) = false →
  missing (r_ephemeralPubkey req) = false →
  gs ≠ [] →
  let o := r_ownerPubkey req in
  (run (getRecoveryConfig o) σ = Ret None →
     request_route now uuid req σ
       = (Ret (404, BError "No recovery setup found for this identity")%Z, σ))
  ∧ (∀ c valid pre g post,
       run (getRecoveryConfig o) σ = Ret (Some c) →
       c !! "guardianPubkeys" = Some (VList valid) →
       gs = (pre ++ g :: post)%list → pre ⊆ valid → g ∉ valid →
       let message := g +:+ " is not a guardian for this identity" in
       request_route now uuid req σ
         = (Ret (if includes message "No recovery config"
                 then (404, BError "No recovery setup found for this identity")%Z
                 else (400, BError message)%Z), σ)).
Proof.
  intros Hgs Ho He Hne o. split.
  - intros Hcfg. unfold request_route, try_catch. rewrite Hgs, Ho, He. cbn [orb].
    rewrite bool_decide_eq_false_2 by done.
    unfold createSession. unfold bind at 1. unfold bind at 1.
    rewrite getRecoveryConfig_run. fold o. rewrite Hcfg. done.
  - intros c valid pre g post Hcfg Hvalid -> Hsub Hg message.
    unfold request_route, try_catch. rewrite Hgs, Ho, He. cbn [orb].
    rewrite bool_decide_eq_false_2 by done.
    unfold createSession. unfold bind at 1. unfold bind at 1.
    rewrite getRecoveryConfig_run. fold o. rewrite Hcfg. cbn [fst snd].
    rewrite Hvalid. unfold JSON_parse. unfold bind at 1. cbn [ret fst snd].
    erewrite bind_Throw by by apply guardian_check_fails.
    cbn [message_of]. fold message.
    destruct (includes message "No recovery config"); [done|].
    unfold message. by rewrite includes_app_r.
Qed.

Lemma request_refused_witness :
  request_route 1500 "sid-9" (mkSessionReq "Q" "EP" (Some ["G1"])) after_distribute
    = (Ret (404, BError "No recovery setup found for this identity")%Z,
       after_distribute)
  ∧ request_route 1500 "sid-9" (mkSessionReq "O" "EP" (Some ["G1"; "G7"; "G2"]))
      after_distribute
    = (Ret (400, BError "G7 is not a guardian for this identity")%Z,
       after_distribute).
Proof.
  split.
  - apply (request_refused 1500 "sid-9" (mkSessionReq "Q" "EP" (Some ["G1"]))
             ["G1"] after_distribute); [exact eq_refl..|done|computed].
  - destruct (loaded_inv (run (getRecoveryConfig "O") after_distribute))
      as [c Hc]; [computed|].
    assert (field (run (getRecoveryConfig "O") after_distribute) "guardianPubkeys"
            = Some (VList ["G1"; "G2"; "G3"])) as Hv by computed.
    rewrite Hc in Hv. cbn [field] in Hv.
    destruct (request_refused 1500 "sid-9"
                (mkSessionReq "O" "EP" (Some ["G1"; "G7"; "G2"]))
                ["G1"; "G7"; "G2"] after_distribute eq_refl eq_refl eq_refl
                ltac:(done)) as [_ H].
    apply (H c ["G1"; "G2"; "G3"] ["G1"] "G7" ["G2"]).
    + exact Hc.
    + exact Hv.
    + exact eq_refl.
    + intros x Hx. apply (bool_decide_unpack _). apply list_elem_of_singleton in Hx.
      subst x. exact I.
    + intros Hin. exact (bool_decide_pack _ Hin).
Defined.

Lemma approveSession_already E σ sid g share d gs sh :
  hashes σ !! sessionKey sid = Some d →
  truthy (d !! "sessionId") = true →
  d !! "status" = Some (VStr "pending") →
  d !! "guardianPubkeys" = Some (VList gs) →
  g ∈ gs →
  strs σ !! sessionShareKey sid g = Some sh → sh ≠ "" →
  approveSession E sid g share σ
    = (Throw (Error "Guardian already approved this session"), σ).
Proof.
  intros Hd Hid Hst Hgs Hg Hsh Hne.
  unfold approveSession. erewrite bind_Ret by by apply getSession_stored.
  unfold is_text. rewrite session_view_status, Hst.
  rewrite bool_decide_eq_true_2 by done. simpl.
  rewrite session_view_guardians, Hgs. unfold JSON_parse.
  erewrite bind_Ret by reflexivity.
  rewrite bool_decide_eq_true_2 by done. simpl.
  unfold bind at 1. unfold getString at 1. rewrite Hsh.
  rewrite bool_decide_eq_false_2; [done|].
  intros [?|?]; congruence.
Qed.

Lemma approve_signed_share E sid req :
  approve_signed E sid req = true → a_reEncryptedShare req ≠ "".
Proof.
  unfold approve_signed. rewrite !andb_true_iff, !negb_true_iff.
  intros ((((_ & Hs) & _) & _) & _) Heq. rewrite Heq in Hs. done.
Qed.

(** X4.  A guardian approves once.  When a signed approval of a pending
    session by one of its guardians is accepted (200, the counter goes
    from [n] to [n + 1]), every later signed approval by the same
    guardian is refused and leaves the store as it is: with 409
    "Guardian already approved this session" while the session is still
    pending, and with 500 once that approval has made it ready. *)
Theorem approve_twice E σ sid req d gs n t :
  approve_signed E sid req = true →
  hashes σ !! sessionKey sid = Some d →
  truthy (d !! "sessionId") = true →
  d !! "status" = Some (VStr "pending") →
  d !! "guardianPubkeys" = Some (VList gs) →
  a_guardianPubkey req ∈ gs →
  strs σ !! sessionShareKey sid (a_guardianPubkey req) = None →
  d !! "approvals" = Some (VNum n) →
  d !! "threshold" = Some (VNum t) →
  ∃ σ1,
    approve_route E sid req σ
      = (Ret (200, BApproval (mkApproval true (Some (n + 1)%Z) (Some t)))%Z, σ1)
    ∧ ∀ req', approve_signed E sid req' = true →
        a_guardianPubkey req' = a_guardianPubkey req →
        approve_route E sid req' σ1
          = (Ret (if (t <=? n + 1)%Z
                  then (500, BError "Failed to approve recovery")%Z
                  else (409, BError "Guardian already approved this session")%Z),
             σ1).
Proof.
  intros Hsig Hd Hid Hst Hgs Hg Hnone Hn Ht.
  pose proof (approveSession_pending E σ sid (a_guardianPubkey req)
                (a_reEncryptedShare req) d gs n t Hd Hid Hst Hgs Hg Hnone Hn Ht)
    as Hrun.
  replace (Z.succ n) with (n + 1)%Z in Hrun by lia.
  eexists. split.
  { rewrite approve_route_signed by done. unfold try_catch.
    erewrite bind_Ret by exact Hrun. reflexivity. }
  intros req' Hsig' Hsame.
  rewrite approve_route_signed by done. unfold try_catch. rewrite Hsame.
  destruct (t <=? n + 1)%Z eqn:Hready.
  - erewrite bind_Throw; cycle 1.
    apply (approveSession_not_pending E _ sid _ _
             (list_to_map [("approvals", VNum (n + 1)); ("status", VStr "ready")] ∪ d)
             "ready"); [by apply approved_store_session| | |done].
    + rewrite lookup_union_r by done. exact Hid.
    + by apply lookup_union_Some_l.
    + reflexivity.
  - erewrite bind_Throw; cycle 1.
    apply (approveSession_already E _ sid _ _
             (list_to_map [("approvals", VNum (n + 1))] ∪ d) gs
             (a_reEncryptedShare req));
      [by apply approved_store_session| | | |done| |by eapply approve_signed_share].
    + rewrite lookup_union_r by done. exact Hid.
    + rewrite lookup_union_r by done. exact Hst.
    + rewrite lookup_union_r by done. exact Hgs.
    + rewrite approved_store_strs. apply lookup_insert_eq.
    + reflexivity.
Qed.

Lemma approve_twice_witness :
  ∃ σ1,
    approve_route test_env "sid-1" (approve_by "G1" "r1") after_request
      = (Ret (200, BApproval (mkApproval true (Some 1%Z) (Some 2%Z)))%Z, σ1)
    ∧ approve_route test_env "sid-1" (approve_by "G1" "again") σ1
      = (Ret (409, BError "Guardian already approved this session")%Z, σ1).
Proof.
  assert (is_Some (hashes after_request !! sessionKey "sid-1")) as [d Hd]
    by decided.
  assert ((hashes after_request !! sessionKey "sid-1") ≫= (.!! "sessionId")
          = Some (VStr "sid-1")) as Hid by computed.
  assert ((hashes after_request !! sessionKey "sid-1") ≫= (.!! "status")
          = Some (VStr "pending")) as Hst by computed.
  assert ((hashes after_request !! sessionKey "sid-1") ≫= (.!! "guardianPubkeys")
          = Some (VList ["G1"; "G2"; "G3"])) as Hgs by computed.
  assert ((hashes after_request !! sessionKey "sid-1") ≫= (.!! "approvals")
          = Some (VNum 0)) as Hn by computed.
  assert ((hashes after_request !! sessionKey "sid-1") ≫= (.!! "threshold")
          = Some (VNum 2)) as Ht by computed.
  rewrite Hd in Hid, Hst, Hgs, Hn, Ht. cbn [mbind option_bind] in *.
  destruct (approve_twice test_env after_request "sid-1" (approve_by "G1" "r1")
              d ["G1"; "G2"; "G3"] 0 2) as (σ1 & H1 & H2).
  - computed.
  - exact Hd.
  - by rewrite Hid.
  - exact Hst.
  - exact Hgs.
  - by left.
  - computed.
  - exact Hn.
  - exact Ht.
  - exists σ1. split; [exact H1|].
    apply (H2 (approve_by "G1" "again")); computed.
Defined.

Lemma getSession_none sid σ :
  run (getSession sid) σ = Ret None → getSession sid σ = (Ret None, σ).
Proof. intros H. by rewrite getSession_run, H. Qed.

(** X5.  An id under which no session is readable (none was stored, or
    the record has expired and is gone) is answered 404 by the three
    session routes, the approval with the message "Session not found or
    expired" of the service, and none of them writes anything. *)
Theorem unknown_session_404 E sid σ :
  run (getSession sid) σ = Ret None →
  status_route sid σ
    = (Ret (404, IError "Session not found or expired")%Z, σ)
  ∧ shares_route sid σ
    = (Ret (404, BError "Session not found or expired")%Z, σ)
  ∧ ∀ req, approve_signed E sid req = true →
      approve_route E sid req σ
        = (Ret (404, BError "Session not found or expired")%Z, σ).
Proof.
  intros Hnone%getSession_none. split_and!.
  - unfold status_route, try_catch. by erewrite bind_Ret by exact Hnone.
  - unfold shares_route, try_catch, getReleasedShares.
    unfold bind at 1. unfold bind at 1. by rewrite Hnone.
  - intros req Hsig. rewrite approve_route_signed by done.
    unfold try_catch, approveSession.
    unfold bind at 1. unfold bind at 1. by rewrite Hnone.
Qed.

Lemma unknown_session_404_witness :
  status_route "sid-0" after_request
    = (Ret (404, IError "Session not found or expired")%Z, after_request)
  ∧ shares_route "sid-0" after_request
    = (Ret (404, BError "Session not found or expired")%Z, after_request).
Proof.
  destruct (unknown_session_404 test_env "sid-0" after_request) as (H1 & H2 & _);
    [computed|].
  by split.
Defined.

Lemma shares_route_not_ready sid σ d :
  hashes σ !! sessionKey sid = Some d →
  truthy (d !! "sessionId") = true →
  d !! "status" ≠ Some (VStr "ready") →
  shares_route sid σ
    = (Ret (403, BError "Not enough guardians have approved yet")%Z, σ).
Proof.
  intros Hd Hid Hst. unfold shares_route, try_catch, getReleasedShares.
  unfold bind at 1. unfold bind at 1.
  rewrite (getSession_stored sid σ d) by done.
  unfold is_text. rewrite session_view_status.
  by rewrite bool_decide_eq_false_2.
Qed.

(** X6.  Shares are released only by a ready session: for a stored
    session whose status is anything but ready, [GET /session/<id>/shares]
    answers 403 "Not enough guardians have approved yet" and returns no
    share, whatever has been stored for the session. *)
Theorem shares_withheld sid σ d :
  hashes σ !! sessionKey sid = Some d →
  truthy (d !! "sessionId") = true →
  d !! "status" ≠ Some (VStr "ready") →
  shares_route sid σ
    = (Ret (403, BError "Not enough guardians have approved yet")%Z, σ).
Proof. apply shares_route_not_ready. Qed.

Lemma shares_withheld_witness :
  shares_route "sid-1" after_request
    = (Ret (403, BError "Not enough guardians have approved yet")%Z, after_request).
Proof.
  assert (is_Some (hashes after_request !! sessionKey "sid-1")) as [d Hd]
    by decided.
  assert ((hashes after_request !! sessionKey "sid-1") ≫= (.!! "sessionId")
          = Some (VStr "sid-1")) as Hid by computed.
  assert ((hashes after_request !! sessionKey "sid-1") ≫= (.!! "status")
          = Some (VStr "pending")) as Hst by computed.
  rewrite Hd in Hid, Hst. cbn [mbind option_bind] in *.
  apply (shares_withheld "sid-1" after_request d Hd).
  - by rewrite Hid.
  - by rewrite Hst.
Defined.

(** ** Sessions: what the status route reports *)

Lemma createSession_run now sid o eph requested t σ :
  configured σ o t requested →
  let session : hash := list_to_map
    [("sessionId", VStr sid); ("ownerPubkey", VStr o);
     ("ephemeralPubkey", VStr eph); ("status", VStr "pending");
     ("approvals", VNum 0); ("threshold", VNum t);
     ("guardianPubkeys", VList requested); ("createdAt", VTime now)] in
  createSession now sid o eph requested σ
    = (Ret session,
       exec (setExpiry (sessionKey sid) SESSION_TTL)
         (exec (setHash (sessionKey sid) session) σ)).
Proof.
  intros (c & valid & Hc & Hown & Ht & Hvalid & Hsub) session.
  unfold createSession, getRecoveryConfig.
  unfold bind at 1. unfold bind at 1. unfold getHash at 1. rewrite Hc, Hown. simpl.
  rewrite Hvalid. unfold JSON_parse. erewrite bind_Ret by reflexivity.
  erewrite bind_Ret by by apply guardian_check_passes.
  rewrite Ht. reflexivity.
Qed.

Lemma status_route_stored sid σ d :
  hashes σ !! sessionKey sid = Some d →
  truthy (d !! "sessionId") = true →
  status_route sid σ
    = (Ret (200, IStatus (d !! "sessionId") (d !! "status")
                   (Some (of_number (Number (d !! "approvals"))))
                   (Some (of_number (Number (d !! "threshold"))))
                   (d !! "ownerPubkey") (d !! "createdAt"))%Z, σ).
Proof.
  intros Hd Hid. unfold status_route, try_catch.
  erewrite bind_Ret by by apply getSession_stored.
  unfold session_view, ret.
  rewrite !(lookup_insert_ne _ "threshold") by done.
  rewrite !(lookup_insert_ne _ "approvals") by done.
  rewrite !lookup_insert_eq. by rewrite !lookup_insert_ne by done.
Qed.

(** X7.  A recovery request that names guardians of the owner's config
    opens a session under the fresh id: the route answers 200 with the id
    and the threshold of the config, the session key expires after 24
    hours, and [GET /session/<id>/status] then reports the session as
    pending, with no approval, the threshold of the config, the owner and
    the time of the request. *)
Theorem status_after_request now sid req gs t σ :
  r_requestedGuardians req = Some gs →
  missing (r_ownerPubkey req) = false →
  missing (r_ephemeralPubkey req) = false →
  gs ≠ [] →
  configured σ (r_ownerPubkey req) t gs →
  fresh_session σ sid →
  ∃ σ0,
    request_route now sid req σ
      = (Ret (200, BRequested (Some (VStr sid)) (Some (VNum t)))%Z, σ0)
    ∧ ttls σ0 !! sessionKey sid = Some (24 * 60 * 60)%Z
    ∧ status_route sid σ0
      = (Ret (200, IStatus (Some (VStr sid)) (Some (VStr "pending"))
                     (Some (VNum 0)) (Some (VNum t))
                     (Some (VStr (r_ownerPubkey req)))
                     (Some (VTime now)))%Z, σ0).
Proof.
  intros Hgs Ho He Hne Hcfg (Hsid & Hfresh & _).
  pose proof (createSession_run now sid (r_ownerPubkey req)
                (r_ephemeralPubkey req) gs t σ Hcfg) as Hrun.
  cbv zeta in Hrun.
  set (session := (list_to_map
    [("sessionId", VStr sid); ("ownerPubkey", VStr (r_ownerPubkey req));
     ("ephemeralPubkey", VStr (r_ephemeralPubkey req)); ("status", VStr "pending");
     ("approvals", VNum 0); ("threshold", VNum t);
     ("guardianPubkeys", VList gs); ("createdAt", VTime now)] : hash)) in *.
  eexists. split; [|split].
  - unfold request_route, try_catch. rewrite Hgs, Ho, He. cbn [orb].
    rewrite bool_decide_eq_false_2 by done.
    erewrite bind_Ret by exact Hrun. reflexivity.
  - apply ttls_timed. unfold exec, setExpiry, setHash. cbn [snd lives].
    apply lookup_insert_eq.
  - rewrite (status_route_stored sid _ session).
    + reflexivity.
    + unfold exec, setExpiry, setHash. cbn [snd hashes].
      rewrite lookup_insert_eq, Hfresh. cbn [default].
      by rewrite (right_id_L ∅ (∪)).
    + cbn. by destruct sid.
Qed.

Lemma status_after_request_witness :
  ∃ σ0,
    request_route 1500 "sid-1" request_O after_distribute
      = (Ret (200, BRequested (Some (VStr "sid-1")) (Some (VNum 2)))%Z, σ0)
    ∧ ttls σ0 !! sessionKey "sid-1" = Some 86400%Z
    ∧ status_route "sid-1" σ0
      = (Ret (200, IStatus (Some (VStr "sid-1")) (Some (VStr "pending"))
                     (Some (VNum 0)) (Some (VNum 2)) (Some (VStr "O"))
                     (Some (VTime 1500)))%Z, σ0).
Proof.
  apply (status_after_request 1500 "sid-1" request_O ["G1"; "G2"; "G3"] 2
           after_distribute); [exact eq_refl|exact eq_refl|exact eq_refl|done| |].
  - assert (is_Some (hashes after_distribute !! configKey "O")) as [c Hc]
      by decided.
    assert ((hashes after_distribute !! configKey "O") ≫= (.!! "ownerPubkey")
            = Some (VStr "O")) as Ho by computed.
    assert ((hashes after_distribute !! configKey "O") ≫= (.!! "threshold")
            = Some (VNum 2)) as Ht by computed.
    assert ((hashes after_distribute !! configKey "O") ≫= (.!! "guardianPubkeys")
            = Some (VList ["G1"; "G2"; "G3"])) as Hg by computed.
    rewrite Hc in Ho, Ht, Hg. cbn [mbind option_bind] in *.
    exists c, ["G1"; "G2"; "G3"]. split_and!; try done. by rewrite Ho.
  - split; [done|]. split; [computed|]. intros g. computed.
Defined.

(** X8.  The status route follows the approvals: after a signed approval
    of a pending session by one of its guardians who had not approved,
    the route reports [n + 1] approvals, and the status ready exactly
    when [n + 1] reaches the threshold, pending otherwise; the other
    fields are those of the session. *)
Theorem status_after_approval E σ sid req d gs n t :
  approve_signed E sid req = true →
  hashes σ !! sessionKey sid = Some d →
  truthy (d !! "sessionId") = true →
  d !! "status" = Some (VStr "pending") →
  d !! "guardianPubkeys" = Some (VList gs) →
  a_guardianPubkey req ∈ gs →
  strs σ !! sessionShareKey sid (a_guardianPubkey req) = None →
  d !! "approvals" = Some (VNum n) →
  d !! "threshold" = Some (VNum t) →
  let σ1 := exec (approve_route E sid req) σ in
  status_route sid σ1
    = (Ret (200, IStatus (d !! "sessionId")
                   (Some (VStr (if (t <=? n + 1)%Z then "ready" else "pending")))
                   (Some (VNum (n + 1))) (Some (VNum t))
                   (d !! "ownerPubkey") (d !! "createdAt"))%Z, σ1).
Proof.
  intros Hsig Hd Hid Hst Hgs Hg Hnone Hn Ht σ1.
  pose proof (approveSession_pending E σ sid (a_guardianPubkey req)
                (a_reEncryptedShare req) d gs n t Hd Hid Hst Hgs Hg Hnone Hn Ht)
    as Hrun.
  replace (Z.succ n) with (n + 1)%Z in Hrun by lia.
  assert (σ1 = approved_store σ sid (a_guardianPubkey req) (a_reEncryptedShare req)
                 (if (t <=? n + 1)%Z
                  then list_to_map [("approvals", VNum (n + 1)); ("status", VStr "ready")]
                  else list_to_map [("approvals", VNum (n + 1))])) as Hσ1.
  { unfold σ1, exec. rewrite approve_route_signed by done. unfold try_catch.
    erewrite bind_Ret by exact Hrun. reflexivity. }
  clearbody σ1. subst σ1.
  erewrite status_route_stored; [|by apply approved_store_session|].
  - destruct (t <=? n + 1)%Z.
    + rewrite (lookup_union_r _ d "sessionId"), (lookup_union_r _ d "threshold"),
        (lookup_union_r _ d "ownerPubkey"), (lookup_union_r _ d "createdAt") by done.
      rewrite (lookup_union_Some_l _ d "approvals" (VNum (n + 1))) by done.
      rewrite (lookup_union_Some_l _ d "status" (VStr "ready")) by done.
      by rewrite Ht.
    + rewrite (lookup_union_r _ d "sessionId"), (lookup_union_r _ d "threshold"),
        (lookup_union_r _ d "ownerPubkey"), (lookup_union_r _ d "createdAt"),
        (lookup_union_r _ d "status") by done.
      rewrite (lookup_union_Some_l _ d "approvals" (VNum (n + 1))) by done.
      by rewrite Ht, Hst.
  - destruct (t <=? n + 1)%Z; rewrite lookup_union_r by done; exact Hid.
Qed.

Lemma status_after_approval_witness :
  status_route "sid-1" after_two_approvals
    = (Ret (200, IStatus (Some (VStr "sid-1")) (Some (VStr "ready"))
                   (Some (VNum 2)) (Some (VNum 2)) (Some (VStr "O"))
                   (Some (VTime 1500)))%Z, after_two_approvals).
Proof.
  set (σ := exec (approve_route test_env "sid-1" (approve_by "G1" "r1")) after_request).
  assert (is_Some (hashes σ !! sessionKey "sid-1")) as [d Hd] by decided.
  assert ((hashes σ !! sessionKey "sid-1") ≫= (.!! "sessionId")
          = Some (VStr "sid-1")) as Hid by computed.
  assert ((hashes σ !! sessionKey "sid-1") ≫= (.!! "status")
          = Some (VStr "pending")) as Hst by computed.
  assert ((hashes σ !! sessionKey "sid-1") ≫= (.!! "guardianPubkeys")
          = Some (VList ["G1"; "G2"; "G3"])) as Hgs by computed.
  assert ((hashes σ !! sessionKey "sid-1") ≫= (.!! "approvals")
          = Some (VNum 1)) as Hn by computed.
  assert ((hashes σ !! sessionKey "sid-1") ≫= (.!! "threshold")
          = Some (VNum 2)) as Ht by computed.
  assert ((hashes σ !! sessionKey "sid-1") ≫= (.!! "ownerPubkey")
          = Some (VStr "O")) as Ho by computed.
  assert ((hashes σ !! sessionKey "sid-1") ≫= (.!! "createdAt")
          = Some (VTime 1500)) as Hc by computed.
  rewrite Hd in Hid, Hst, Hgs, Hn, Ht, Ho, Hc. cbn [mbind option_bind] in *.
  pose proof (status_after_approval test_env σ "sid-1" (approve_by "G2" "r2")
                d ["G1"; "G2"; "G3"] 1 2) as H.
  cbv zeta in H. rewrite Hid, Ho, Hc in H.
  apply H.
  - computed.
  - exact Hd.
  - exact eq_refl.
  - exact Hst.
  - exact Hgs.
  - right; by left.
  - computed.
  - exact Hn.
  - exact Ht.
Defined.

(** ** Sessions: the counter of approvals *)

Lemma size_list_to_set_le (l : list string) :
  (size (list_to_set l : gset string) ≤ length l)%nat.
Proof.
  induction l as [|x l IH]; [done|].
  cbn [list_to_set length].
  destruct (decide (x ∈ (list_to_set l : gset string))) as [Hin|Hnot].
  - replace ({[x]} ∪ list_to_set l : gset string) with (list_to_set l : gset string)
      by set_solver.
    lia.
  - rewrite size_union by set_solver. rewrite size_singleton. lia.
Qed.

Lemma approve_route_open E sid req gs t σ :
  (Z.of_nat (length gs) < t)%Z →
  open_session σ sid gs t →
  let σ' := exec (approve_route E sid req) σ in
  open_session σ' sid gs t
  ∧ ∀ d d', hashes σ !! sessionKey sid = Some d →
      hashes σ' !! sessionKey sid = Some d' →
      ∀ f, f ≠ "approvals" → d' !! f = d !! f.
Proof.
  intros Hlt Hopen σ'.
  assert (σ' = σ → open_session σ' sid gs t
          ∧ ∀ d d', hashes σ !! sessionKey sid = Some d →
              hashes σ' !! sessionKey sid = Some d' →
              ∀ f, f ≠ "approvals" → d' !! f = d !! f) as Hsame.
  { intros ->. split; [done|]. intros d d' H1 H2. congruence. }
  pose proof Hopen as (d & A & Hd & Hid & Hst & Hgs & Ht & Hn & HA & Hne).
  unfold σ' in *. clear σ'.
  unfold exec, approve_route, try_catch in *.
  destruct (missing (a_guardianPubkey req) || missing (a_reEncryptedShare req)
            || missing (a_signature req) || (a_timestamp req =? 0)%Z) eqn:Hmiss;
    [by apply Hsame|].
  destruct (negb (verifySignature E _ _ _ _)); [by apply Hsame|].
  apply orb_false_iff in Hmiss as [Hmiss _].
  apply orb_false_iff in Hmiss as [Hmiss _].
  apply orb_false_iff in Hmiss as [_ Hshare].
  set (g := a_guardianPubkey req) in *.
  destruct (decide (g ∈ gs)) as [Hg|Hg].
  2:{ assert (approveSession E sid g (a_reEncryptedShare req) σ
              = (Throw (Error "Not a valid guardian for this session"), σ)) as Hthrow.
      { unfold approveSession. erewrite bind_Ret by by apply getSession_stored.
        unfold is_text. rewrite session_view_status, Hst.
        rewrite bool_decide_eq_true_2 by done. simpl.
        rewrite session_view_guardians, Hgs. unfold JSON_parse.
        erewrite bind_Ret by reflexivity.
        by rewrite bool_decide_eq_false_2. }
      erewrite bind_Throw in * by exact Hthrow. by apply Hsame. }
  destruct (strs σ !! sessionShareKey sid g) as [sh|] eqn:Hsh.
  { assert (sh ≠ "") as Hsh' by (intros ->; by apply (Hne g)).
    erewrite bind_Throw in *
      by by apply (approveSession_already E σ sid g _ d gs sh).
    by apply Hsame. }
  clear Hsame.
  pose proof (approveSession_pending E σ sid g (a_reEncryptedShare req) d gs
                (Z.of_nat (size A)) t Hd Hid Hst Hgs Hg Hsh Hn Ht) as Hrun.
  assert (g ∉ A) as HgA by (intros [_ Hc]%HA; by apply Hc).
  assert (size ({[g]} ∪ A) = S (size A)) as Hsize
    by (rewrite size_union by set_solver; by rewrite size_singleton).
  assert (size ({[g]} ∪ A) ≤ length gs)%nat as Hle.
  { etrans; [|apply size_list_to_set_le]. apply subseteq_size.
    intros g' [->%elem_of_singleton|Hin]%elem_of_union; apply elem_of_list_to_set;
      [done|by apply HA]. }
  assert ((t <=? Z.succ (Z.of_nat (size A)))%Z = false) as Hpending
    by (apply Z.leb_gt; lia).
  rewrite Hpending in Hrun.
  erewrite bind_Ret by exact Hrun. cbn [ret snd].
  set (updates := (list_to_map [("approvals", VNum (Z.succ (Z.of_nat (size A))))] : hash)).
  assert (hashes (approved_store σ sid g (a_reEncryptedShare req) updates)
            !! sessionKey sid = Some (updates ∪ d)) as Hd'
    by by apply approved_store_session.
  split.
  2:{ intros d0 d' Hd0 Hd0' f Hf. rewrite Hd in Hd0. injection Hd0 as <-.
      rewrite Hd' in Hd0'. injection Hd0' as <-.
      apply lookup_union_r. unfold updates. cbn.
      rewrite lookup_insert_ne by done. apply lookup_empty. }
  exists (updates ∪ d), ({[g]} ∪ A).
  split; [done|].
  split; [rewrite lookup_union_r by done; exact Hid|].
  split; [rewrite lookup_union_r by done; exact Hst|].
  split; [rewrite lookup_union_r by done; exact Hgs|].
  split; [rewrite lookup_union_r by done; exact Ht|].
  split.
  { erewrite lookup_union_Some_l by done. by rewrite Hsize, Nat2Z.inj_succ. }
  rewrite approved_store_strs. split.
  - intros g'. destruct (decide (g' = g)) as [->|Hneq].
    + rewrite lookup_insert_eq. set_solver.
    + rewrite lookup_insert_ne by (by intros ?%sessionShareKey_inj).
      rewrite elem_of_union, elem_of_singleton, HA. naive_solver.
  - intros g' Hg'. destruct (decide (g' = g)) as [->|Hneq].
    + rewrite lookup_insert_eq. intros [=Heq]. rewrite Heq in Hshare. done.
    + rewrite lookup_insert_ne by (by intros ?%sessionShareKey_inj).
      by apply Hne.
Qed.

(** X9.  The request route does not compare the number of requested
    guardians with the threshold.  A request that names fewer guardians
    than the threshold of the owner's config is accepted (200), and the
    session it opens can never be completed: after any sequence of
    approve requests to it the session is still pending, with at most as
    many approvals as guardians were requested, and the shares route
    answers 403. *)
Theorem undersized_session_never_ready E now sid req gs t σ reqs :
  r_requestedGuardians req = Some gs →
  missing (r_ownerPubkey req) = false →
  missing (r_ephemeralPubkey req) = false →
  gs ≠ [] →
  configured σ (r_ownerPubkey req) t gs →
  fresh_session σ sid →
  (Z.of_nat (length gs) < t)%Z →
  let σ0 := exec (request_route now sid req) σ in
  let σn := approve_all E sid reqs σ0 in
  run (request_route now sid req) σ
    = Ret (200, BRequested (Some (VStr sid)) (Some (VNum t)))%Z
  ∧ (∃ k, (k ≤ Z.of_nat (length gs))%Z
       ∧ status_route sid σn
         = (Ret (200, IStatus (Some (VStr sid)) (Some (VStr "pending"))
                        (Some (VNum k)) (Some (VNum t))
                        (Some (VStr (r_ownerPubkey req)))
                        (Some (VTime now)))%Z, σn))
  ∧ shares_route sid σn
    = (Ret (403, BError "Not enough guardians have approved yet")%Z, σn).
Proof.
  intros Hgs Ho He Hne Hcfg Hfresh Hlt σ0 σn.
  pose proof (createSession_run now sid (r_ownerPubkey req)
                (r_ephemeralPubkey req) gs t σ Hcfg) as Hrun.
  cbv zeta in Hrun.
  set (session := (list_to_map
    [("sessionId", VStr sid); ("ownerPubkey", VStr (r_ownerPubkey req));
     ("ephemeralPubkey", VStr (r_ephemeralPubkey req)); ("status", VStr "pending");
     ("approvals", VNum 0); ("threshold", VNum t);
     ("guardianPubkeys", VList gs); ("createdAt", VTime now)] : hash)) in *.
  assert (request_route now sid req σ
          = (Ret (200, BRequested (Some (VStr sid)) (Some (VNum t)))%Z,
             exec (setExpiry (sessionKey sid) SESSION_TTL)
               (exec (setHash (sessionKey sid) session) σ))) as Hreq.
  { unfold request_route, try_catch. rewrite Hgs, Ho, He. cbn [orb].
    rewrite bool_decide_eq_false_2 by done.
    erewrite bind_Ret by exact Hrun. reflexivity. }
  split; [unfold run; by rewrite Hreq|].
  destruct Hfresh as (Hsid & Hfresh & Hnoshare).
  (* the session and the fields that approvals leave as they are *)
  set (J := λ s : Store,
    open_session s sid gs t
    ∧ ∃ d, hashes s !! sessionKey sid = Some d
        ∧ d !! "sessionId" = Some (VStr sid)
        ∧ d !! "ownerPubkey" = Some (VStr (r_ownerPubkey req))
        ∧ d !! "createdAt" = Some (VTime now)).
  assert (J σ0) as H0.
  { assert (hashes σ0 !! sessionKey sid = Some session) as Hd.
    { unfold σ0, exec. rewrite Hreq. cbn [snd].
      unfold exec, setExpiry, setHash. cbn [snd hashes].
      rewrite lookup_insert_eq, Hfresh. cbn [default].
      by rewrite (right_id_L ∅ (∪)). }
    assert (strs σ0 = strs σ) as Hstrs
      by (unfold σ0, exec; rewrite Hreq; reflexivity).
    split; [|by exists session].
    exists session, ∅. split; [done|].
    split; [cbn; by destruct sid|].
    do 4 (split; [done|]). rewrite Hstrs. split.
    - intros g. split; [set_solver|]. intros [_ Hc]. by destruct Hc.
    - intros g _. by rewrite Hnoshare. }
  assert (J σn) as Hn.
  { unfold σn, approve_all. generalize σ0 H0. clear H0.
    induction reqs as [|r reqs IH]; intros s Hs; [exact Hs|].
    cbn [foldl]. apply IH. destruct Hs as [Hopen (d & Hd & H1 & H2 & H3)].
    destruct (approve_route_open E sid r gs t s Hlt Hopen) as [Hopen' Hfields].
    split; [exact Hopen'|].
    pose proof Hopen' as (d' & A' & Hd' & _).
    exists d'. split; [done|].
    rewrite !(Hfields d d' Hd Hd') by done. done. }
  destruct Hn as [(d & A & Hd & Hid & Hst & Hg & Ht & Hcount & HA & Hne') (d' & Hd' & H1 & H2 & H3)].
  rewrite Hd in Hd'. injection Hd' as <-.
  split.
  - exists (Z.of_nat (size A)). split.
    + apply inj_le.
      etrans; [|apply size_list_to_set_le]. apply subseteq_size.
      intros g Hin. apply elem_of_list_to_set. by apply HA.
    + rewrite (status_route_stored sid σn d) by done.
      by rewrite H1, Hst, Hcount, Ht, H2, H3.
  - apply (shares_route_not_ready sid σn d); [done..|]. by rewrite Hst.
Qed.

Lemma undersized_session_never_ready_witness :
  let σn := approve_all test_env "sid-2"
              [approve_by "G1" "r1"; approve_by "G2" "r2"; approve_by "G1" "r3"]
              after_request_one in
  run (request_route 1500 "sid-2" request_one) after_distribute
    = Ret (200, BRequested (Some (VStr "sid-2")) (Some (VNum 2)))%Z
  ∧ shares_route "sid-2" σn
    = (Ret (403, BError "Not enough guardians have approved yet")%Z, σn).
Proof.
  destruct (undersized_session_never_ready test_env 1500 "sid-2" request_one
              ["G1"] 2 after_distribute
              [approve_by "G1" "r1"; approve_by "G2" "r2"; approve_by "G1" "r3"])
    as (H1 & _ & H3); [exact eq_refl|exact eq_refl|exact eq_refl|done| | |cbn; lia|].
  - assert (is_Some (hashes after_distribute !! configKey "O")) as [c Hc]
      by decided.
    assert ((hashes after_distribute !! configKey "O") ≫= (.!! "ownerPubkey")
            = Some (VStr "O")) as Ho by computed.
    assert ((hashes after_distribute !! configKey "O") ≫= (.!! "threshold")
            = Some (VNum 2)) as Ht by computed.
    assert ((hashes after_distribute !! configKey "O") ≫= (.!! "guardianPubkeys")
            = Some (VList ["G1"; "G2"; "G3"])) as Hg by computed.
    rewrite Hc in Ho, Ht, Hg. cbn [mbind option_bind] in *.
    exists c, ["G1"; "G2"; "G3"]. split_and!; try done.
    + by rewrite Ho.
    + intros x ->%list_elem_of_singleton. by left.
  - split; [done|]. split; [computed|]. intros g. computed.
  - split; [exact H1|exact H3].
Defined.

(** ** Revocation and open sessions *)

Lemma sessionKey_configKey sid o : sessionKey sid ≠ configKey o.
Proof. done. Qed.

Lemma sessionKey_shareKey sid g o : sessionKey sid ≠ shareKey g o.
Proof. done. Qed.

Lemma sessionShareKey_configKey sid g o : sessionShareKey sid g ≠ configKey o.
Proof. done. Qed.

Lemma sessionShareKey_shareKey sid g g' o : sessionShareKey sid g ≠ shareKey g' o.
Proof. done. Qed.

Lemma run_bind {A B} (m : M A) (k : A → M B) σ :
  run (let* x := m in k x) σ
  = match m σ with
    | (Ret a, σ') => run (k a) σ'
    | (Throw e, _) => Throw e
    end.
Proof. unfold run, bind. by destruct (m σ) as [[a|e] σ']. Qed.

(** The loop of [getReleasedShares]: the shares stored for the guardians
    of the list, in its order. *)
Lemma released_loop_run sid (gs : list string) (acc : list (string * string)) σ :
  foldM gs acc (λ shares g,
    let* share := getString (sessionShareKey sid g) in
    match share with
    | Some sh => if negb (String.eqb sh "") then ret (shares ++ [(g, sh)])%list
                 else ret shares
    | None => ret shares
    end) σ
  = (Ret (acc ++ omap (λ g, match strs σ !! sessionShareKey sid g with
                            | Some sh => if negb (String.eqb sh "")
                                         then Some (g, sh) else None
                            | None => None
                            end) gs)%list, σ).
Proof.
  revert acc. induction gs as [|g gs IH]; intros acc.
  - cbn. by rewrite app_nil_r.
  - cbn [foldM omap list_omap]. unfold bind at 1. unfold bind at 1. unfold getString at 1.
    cbn [fst snd].
    destruct (strs σ !! sessionShareKey sid g) as [sh|];
      [destruct (negb (String.eqb sh ""))|];
      unfold ret at 1; cbn beta iota; rewrite IH; [|done..].
    by rewrite <- app_assoc.
Qed.

(** The part of the store that the session functions read. *)
Lemma session_reads E sid σ σ' :
  hashes σ' !! sessionKey sid = hashes σ !! sessionKey sid →
  (∀ g, strs σ' !! sessionShareKey sid g = strs σ !! sessionShareKey sid g) →
  run (getSession sid) σ' = run (getSession sid) σ
  ∧ run (getReleasedShares sid) σ' = run (getReleasedShares sid) σ
  ∧ ∀ g share, run (approveSession E sid g share) σ'
               = run (approveSession E sid g share) σ.
Proof.
  intros Hh Hs.
  assert (run (getSession sid) σ' = run (getSession sid) σ) as Hget.
  { unfold run, getSession, bind, getHash. simpl. rewrite Hh.
    destruct (hashes σ !! sessionKey sid) as [d|]; [|done].
    by destruct (truthy (d !! "sessionId")). }
  split; [done|]. split.
  - unfold getReleasedShares. rewrite !run_bind, !getSession_run, Hget.
    destruct (run (getSession sid) σ) as [[s|]|e]; [|done..].
    destruct (negb (is_text (s !! "status") "ready")); [done|].
    rewrite !run_bind.
    destruct (s !! "guardianPubkeys") as [[| | |gs|]|]; try done.
    cbn [JSON_parse ret]. unfold run. rewrite !released_loop_run. cbn [fst].
    do 2 f_equal. apply omap_ext_in. intros g _. by rewrite Hs.
  - intros g share. unfold approveSession.
    rewrite !run_bind, !getSession_run, Hget.
    destruct (run (getSession sid) σ) as [[s|]|e]; [|done..].
    destruct (negb (is_text (s !! "status") "pending")); [done|].
    rewrite !run_bind.
    destruct (s !! "guardianPubkeys") as [[| | |gs|]|]; try done.
    cbn [JSON_parse ret].
    destruct (negb (bool_decide (g ∈ gs))); [done|].
    rewrite !run_bind. unfold getString. rewrite Hs.
    destruct (negb (bool_decide _)); done.
Qed.

Lemma revokeShares_sessions o σ sid :
  hashes (exec (revokeShares o) σ) !! sessionKey sid = hashes σ !! sessionKey sid
  ∧ ∀ g, strs (exec (revokeShares o) σ) !! sessionShareKey sid g
         = strs σ !! sessionShareKey sid g.
Proof.
  set (P := λ s : Store,
    hashes s !! sessionKey sid = hashes σ !! sessionKey sid
    ∧ ∀ g, strs s !! sessionShareKey sid g = strs σ !! sessionShareKey sid g).
  assert (∀ k s, sessionKey sid ≠ k → (∀ g, sessionShareKey sid g ≠ k) →
            P s → P (exec (deleteKey k) s)) as Hdel.
  { intros k s Hk1 Hk2 [H1 H2]. unfold exec, deleteKey. split; cbn.
    - by rewrite lookup_delete_ne.
    - intros g. rewrite lookup_delete_ne by (apply not_eq_sym, Hk2). apply H2. }
  change (P (exec (revokeShares o) σ)).
  unfold exec, revokeShares. unfold bind at 1. rewrite getRecoveryConfig_run.
  cbn [fst snd].
  assert (∀ s, P s → P (deleteKey (configKey o) s).2) as Hlast.
  { intros s Hs. apply (Hdel (configKey o) s); [done| |done].
    intros g. apply sessionShareKey_configKey. }
  assert (P σ) as H0 by done.
  destruct (run (getRecoveryConfig o) σ) as [[c|]|e]; [| |done].
  - unfold bind at 1. unfold bind at 1.
    destruct (c !! "guardianPubkeys") as [[| | |gs|]|]; try done.
    cbn [JSON_parse ret].
    pose proof (forM_invariant P gs (λ g, deleteKey (shareKey g o))) as Hloop.
    unfold exec in Hloop at 2.
    specialize (Hloop (λ g s Hs, Hdel (shareKey g o) s (sessionKey_shareKey sid g o)
                         (λ g', sessionShareKey_shareKey sid g' g o) Hs) σ H0).
    destruct (forM_ gs _ σ) as [[[]|e] s]; cbn [fst snd] in *; [|done].
    by apply Hlast.
  - unfold bind. cbn [ret fst snd]. by apply Hlast.
Qed.

Lemma distributeShares_sessions now o t gs σ sid :
  hashes (exec (distributeShares now o t gs) σ) !! sessionKey sid
    = hashes σ !! sessionKey sid
  ∧ strs (exec (distributeShares now o t gs) σ) = strs σ.
Proof.
  unfold exec. rewrite distributeShares_run. cbn [snd].
  set (σc := exec (setHash (configKey o) _) σ).
  assert (hashes σc !! sessionKey sid = hashes σ !! sessionKey sid
          ∧ strs σc = strs σ) as H0.
  { unfold σc, exec, setHash. cbn. split; [|done].
    apply lookup_insert_ne, not_eq_sym, sessionKey_configKey. }
  clearbody σc. revert σc H0.
  induction gs as [|g gs IH]; intros σc H0; [done|].
  cbn [foldl]. apply IH. destruct H0 as [H1 H2].
  unfold write_share, exec, setHash. cbn. split; [|done].
  rewrite lookup_insert_ne by apply not_eq_sym, sessionKey_shareKey. done.
Qed.

(** X10.  Revocation and redistribution do not touch sessions: whatever
    a revoke or a distribute request does to the store, every session
    record and every share released to a session is left as it was, so
    that an open session reads, releases its shares and accepts or
    refuses an approval exactly as before the request. *)
Theorem sessions_survive_revocation E σ σ' sid :
  (∃ req, σ' = exec (revoke_route E req) σ)
  ∨ (∃ now req, σ' = exec (distribute_route E now req) σ) →
  run (getSession sid) σ' = run (getSession sid) σ
  ∧ run (getReleasedShares sid) σ' = run (getReleasedShares sid) σ
  ∧ ∀ g share, run (approveSession E sid g share) σ'
               = run (approveSession E sid g share) σ.
Proof.
  intros Hstep. apply session_reads.
  - destruct Hstep as [[req ->]|(now & req & ->)].
    + unfold exec, revoke_route, try_catch.
      repeat (match goal with
              | |- context [if ?c then _ else _] => destruct c
              end; [done|]).
      destruct (revokeShares_sessions (s_senderPubkey req) σ sid) as [H _].
      unfold exec, bind in *.
      by destruct (revokeShares (s_senderPubkey req) σ) as [[[]|e] σr].
    + unfold exec, distribute_route, try_catch.
      destruct (d_guardians req) as [gs|]; [|done].
      repeat (match goal with
              | |- context [if ?c then _ else _] => destruct c
              end; [done|]).
      destruct (revokeShares_sessions (d_senderPubkey req) σ sid) as [H _].
      unfold exec, bind in *.
      destruct (revokeShares (d_senderPubkey req) σ) as [[[]|e] σr];
        cbn [fst snd] in *; [|done].
      destruct (distributeShares_sessions now (d_senderPubkey req)
                  (d_threshold req) gs σr sid) as [H' _].
      unfold exec in H'. rewrite distributeShares_run in *. cbn [fst snd] in *.
      unfold ret at 1. cbn [fst snd]. congruence.
  - intros g. destruct Hstep as [[req ->]|(now & req & ->)].
    + unfold exec, revoke_route, try_catch.
      repeat (match goal with
              | |- context [if ?c then _ else _] => destruct c
              end; [done|]).
      destruct (revokeShares_sessions (s_senderPubkey req) σ sid) as [_ H].
      specialize (H g). unfold exec, bind in *.
      by destruct (revokeShares (s_senderPubkey req) σ) as [[[]|e] σr].
    + unfold exec, distribute_route, try_catch.
      destruct (d_guardians req) as [gs|]; [|done].
      repeat (match goal with
              | |- context [if ?c then _ else _] => destruct c
              end; [done|]).
      destruct (revokeShares_sessions (d_senderPubkey req) σ sid) as [_ H].
      specialize (H g). unfold exec, bind in *.
      destruct (revokeShares (d_senderPubkey req) σ) as [[[]|e] σr];
        cbn [fst snd] in *; [|done].
      destruct (distributeShares_sessions now (d_senderPubkey req)
                  (d_threshold req) gs σr sid) as [_ H'].
      unfold exec in H'. rewrite distributeShares_run in *. cbn [fst snd] in *.
      unfold ret at 1. cbn [fst snd]. congruence.
Qed.

Lemma sessions_survive_revocation_witness :
  run (getReleasedShares "sid-1")
    (exec (revoke_route test_env revoke_O) after_two_approvals)
  = run (getReleasedShares "sid-1") after_two_approvals.
Proof.
  destruct (sessions_survive_revocation test_env after_two_approvals
              (exec (revoke_route test_env revoke_O) after_two_approvals) "sid-1")
    as (_ & H & _); [|exact H].
  left. by exists revoke_O.
Defined.

(** ** Shares: what is stored and what is read back *)

(** X11.  The distribute route does not look into the guardian entries.
    After a request answered 200, a guardian whose key occurs once in the
    request reads back, through [getShareForGuardian], the share and the
    index the request gave — provided the share is not empty; an entry
    with an empty [encryptedShare] is stored all the same, and reads back
    as no share. *)
Theorem share_read_back E now req σ b σ1 gs g :
  distribute_route E now req σ = (Ret (200, b)%Z, σ1) →
  d_guardians req = Some gs →
  g ∈ gs →
  (∀ g', g' ∈ gs → pubkey g' = pubkey g → g' = g) →
  let o := d_senderPubkey req in
  is_Some (hashes σ1 !! shareKey (pubkey g) o)
  ∧ (encryptedShare g ≠ "" →
       ∃ h, getShareForGuardian (pubkey g) o σ1 = (Ret (Some h), σ1)
         ∧ h !! "encryptedShare" = Some (VStr (encryptedShare g))
         ∧ h !! "shareIndex" = Some (VNum (shareIndex g)))
  ∧ (encryptedShare g = "" →
       getShareForGuardian (pubkey g) o σ1 = (Ret None, σ1)).
Proof.
  intros Hd Hgs Hin Huniq o.
  destruct (distribute_route_ok _ _ _ _ _ _ Hd) as (gs' & σr & Hgs' & _ & _ & -> & _).
  rewrite Hgs in Hgs'. injection Hgs' as <-.
  assert (∃ h, hashes (exec (distributeShares now o (d_threshold req) gs) σr)
                 !! shareKey (pubkey g) o = Some h
               ∧ h !! "encryptedShare" = Some (VStr (encryptedShare g))
               ∧ h !! "shareIndex" = Some (VNum (shareIndex g)))
    as (h & Hh & Hshare & Hidx).
  { unfold exec. rewrite distributeShares_run. cbn [snd].
    by apply write_shares_share. }
  split; [by exists h|].
  unfold getShareForGuardian, bind, getHash. cbn [fst snd].
  split.
  - intros Hne. exists h. fold o. rewrite Hh, Hshare. cbn [truthy].
    destruct (String.eqb_spec (encryptedShare g) ""); done.
  - intros Hempty. fold o. rewrite Hh, Hshare, Hempty. done.
Qed.

Lemma share_read_back_witness :
  ∃ h, getShareForGuardian "G2" "O" after_distribute
         = (Ret (Some h), after_distribute)
    ∧ h !! "encryptedShare" = Some (VStr "c2")
    ∧ h !! "shareIndex" = Some (VNum 1).
Proof.
  destruct (share_read_back test_env 1000 distribute_O empty_store
              (BDistributed 3 2) after_distribute three_guardians
              (mkGuardian "G2" "c2" 1)) as (_ & H & _).
  - apply run_exec. computed.
  - exact eq_refl.
  - right; by left.
  - intros g' Hg' Hpk.
    repeat (apply elem_of_cons in Hg' as [->|Hg']; [done || discriminate|]).
    by apply elem_of_nil in Hg'.
  - apply H. discriminate.
Defined.

(** X12.  The shares route releases exactly what was stored for the
    session: for a ready session it answers 200 with one entry for each
    guardian of the session, in the order of the session's list, that has
    a non-empty share stored under the session, and with nothing else. *)
Theorem released_shares_exact sid σ d gs :
  hashes σ !! sessionKey sid = Some d →
  truthy (d !! "sessionId") = true →
  d !! "status" = Some (VStr "ready") →
  d !! "guardianPubkeys" = Some (VList gs) →
  ∃ shares,
    shares_route sid σ = (Ret (200, BShares shares)%Z, σ)
    ∧ map fst shares `sublist_of` gs
    ∧ ∀ g sh, (g, sh) ∈ shares ↔
        g ∈ gs ∧ strs σ !! sessionShareKey sid g = Some sh ∧ sh ≠ "".
Proof.
  intros Hd Hid Hst Hgs.
  set (f := λ g, match strs σ !! sessionShareKey sid g with
                 | Some sh => if negb (String.eqb sh "") then Some (g, sh) else None
                 | None => None
                 end).
  assert (∀ g p, f g = Some p ↔
            p.1 = g ∧ strs σ !! sessionShareKey sid g = Some p.2 ∧ p.2 ≠ "") as Hf.
  { intros g [g' sh']. unfold f. cbn [fst snd].
    destruct (strs σ !! sessionShareKey sid g) as [sh|]; [|naive_solver].
    destruct (String.eqb_spec sh ""); cbn [negb]; naive_solver. }
  exists (omap f gs). split; [|split].
  - unfold shares_route, try_catch.
    rewrite (bind_Ret _ _ σ (omap f gs) σ); [done|].
    rewrite (getReleasedShares_ready sid σ d gs) by done.
    by rewrite released_loop_run.
  - clear Hgs. induction gs as [|g gs IH]; [done|].
    cbn [omap list_omap].
    destruct (f g) as [[g' sh']|] eqn:Hfg.
    + apply Hf in Hfg as (Hg' & _). cbn [fst] in Hg'. subst g'.
      cbn [map fst]. by apply sublist_skip.
    + by apply sublist_cons.
  - intros g sh. rewrite list_elem_of_omap. split.
    + intros (g' & Hin & (Hg' & Hsh & Hne)%Hf). cbn [fst snd] in *. by subst g'.
    + intros (Hin & Hsh & Hne). exists g. split; [done|]. by apply Hf.
Qed.

Lemma released_shares_exact_witness :
  ∃ shares,
    shares_route "sid-1" after_two_approvals
      = (Ret (200, BShares shares)%Z, after_two_approvals)
    ∧ map fst shares `sublist_of` ["G1"; "G2"; "G3"].
Proof.
  assert (is_Some (hashes after_two_approvals !! sessionKey "sid-1")) as [d Hd]
    by decided.
  assert ((hashes after_two_approvals !! sessionKey "sid-1") ≫= (.!! "sessionId")
          = Some (VStr "sid-1")) as Hid by computed.
  assert ((hashes after_two_approvals !! sessionKey "sid-1") ≫= (.!! "status")
          = Some (VStr "ready")) as Hst by computed.
  assert ((hashes after_two_approvals !! sessionKey "sid-1")
            ≫= (.!! "guardianPubkeys")
          = Some (VList ["G1"; "G2"; "G3"])) as Hgs by computed.
  rewrite Hd in Hid, Hst, Hgs. cbn [mbind option_bind] in *.
  destruct (released_shares_exact "sid-1" after_two_approvals d
              ["G1"; "G2"; "G3"] Hd) as (shares & H1 & H2 & _).
  - rewrite Hid. exact eq_refl.
  - exact Hst.
  - exact Hgs.
  - exists shares. split; assumption.
Defined.

(** ** Guardianships: the owner read from a share key *)

Lemma split_colon_free (o : string) :
  colon_free o → split o ":" = [o].
Proof.
  unfold colon_free. induction o as [|c o IH]; intros Hfree; [done|].
  cbn [split list_ascii_of_string] in *.
  apply not_elem_of_cons in Hfree as [Hc Ho].
  rewrite IH by done.
  destruct (Ascii.eqb_spec c ":"); [congruence|done].
Qed.

Lemma split_last_piece (a o : string) :
  colon_free o →
  ∃ p l, split (a +:+ ":" +:+ o) ":" = (p :: l ++ [o])%list.
Proof.
  intros Hfree. induction a as [|c a (p & l & IH)].
  - exists "", []. change ("" +:+ ":" +:+ o) with (String ":" o).
    cbn [split]. by rewrite split_colon_free.
  - change (String c a +:+ ":" +:+ o) with (String c (a +:+ ":" +:+ o)).
    cbn [split]. rewrite IH.
    destruct (Ascii.eqb c ":").
    + by exists "", (p :: l).
    + by exists (String c p), l.
Qed.

Lemma append_assoc (a b c : string) : (a +:+ b) +:+ c = a +:+ (b +:+ c).
Proof.
  induction a as [|x a IH]; [done|].
  change (String x ((a +:+ b) +:+ c) = String x (a +:+ (b +:+ c))).
  by rewrite IH.
Qed.

Lemma owner_of_shareKey g o :
  colon_free o →
  default "undefined" (last (split (shareKey g o) ":")) = o.
Proof.
  intros Hfree. unfold shareKey.
  rewrite <- (append_assoc "recovery:share:" g).
  destruct (split_last_piece ("recovery:share:" +:+ g) o Hfree) as (p & l & ->).
  by rewrite app_comm_cons, last_snoc.
Qed.

(** X13.  [getGuardianships] reads the owner of a share back from its
    key.  When the scan returns the share keys that the key builder made
    for the guardian and some owners, the function returns these owners,
    in the order of the scan, provided no owner key contains a colon (a
    base58 key does not); the owner of a key whose owner part contains
    colons is reported as the text after its last colon. *)
Theorem guardianships_owners findKeys g owners σ σ' :
  findKeys ("recovery:share:" +:+ g +:+ ":*") σ
    = (Ret (map (shareKey g) owners), σ') →
  (Forall colon_free owners →
     guardianships_route findKeys g σ = (Ret (200, IGuardianships owners)%Z, σ'))
  ∧ ∀ a b, owners = [a +:+ ":" +:+ b] → colon_free b →
      guardianships_route findKeys g σ = (Ret (200, IGuardianships [b])%Z, σ').
Proof.
  intros Hscan. split.
  - intros Hfree. unfold guardianships_route, try_catch, getGuardianships.
    unfold bind at 1. unfold bind at 1. rewrite Hscan. cbn [ret fst snd].
    assert (map (λ k, default "undefined" (last (split k ":")))
              (map (shareKey g) owners) = owners) as ->; [|done].
    clear Hscan. rewrite map_map.
    induction Hfree as [|o owners Ho _ IH]; [done|].
    cbn [map]. by rewrite owner_of_shareKey, IH.
  - intros a b -> Hfree. unfold guardianships_route, try_catch, getGuardianships.
    unfold bind at 1. unfold bind at 1. rewrite Hscan. cbn [ret fst snd map].
    assert (default "undefined" (last (split (shareKey g (a +:+ ":" +:+ b)) ":")) = b)
      as ->; [|done].
    unfold shareKey.
    rewrite <- (append_assoc g ":" (a +:+ ":" +:+ b)).
    rewrite <- (append_assoc (g +:+ ":") a (":" +:+ b)).
    rewrite <- (append_assoc "recovery:share:" ((g +:+ ":") +:+ a) (":" +:+ b)).
    destruct (split_last_piece ("recovery:share:" +:+ (g +:+ ":") +:+ a) b Hfree)
      as (p & l & ->).
    by rewrite app_comm_cons, last_snoc.
Qed.

Lemma guardianships_owners_witness :
  guardianships_route scan_G1 "G1" empty_store
    = (Ret (200, IGuardianships ["O"; "P"])%Z, empty_store).
Proof.
  destruct (guardianships_owners scan_G1 "G1" ["O"; "P"] empty_store
              empty_store) as [H _]; [exact eq_refl|].
  apply H. repeat constructor; unfold colon_free; cbn;
    intros Hc; repeat (apply elem_of_cons in Hc as [Hc|Hc]; [discriminate|]);
    by apply elem_of_nil in Hc.
Defined.

(** * Further properties of the dead-man's switches *)

(** ** The sweep: what it leaves alone *)

(** The loop of the sweep over any list of switches: it ends, every
    switch adds one to the counter or one error, and the switches that
    are not in the list are left as they are. *)
Lemma sweep_frame E now (l : list hash) acc σc :
  ∃ res σ',
    foldM l acc (process_switch E now) σc = (Ret res, σ')
    ∧ (processed res + length (errors res)
       = processed acc + length (errors acc) + length l)%nat
    ∧ (∀ k, (∀ sw, sw ∈ l → switchKey (tid E sw) ≠ k) →
         hashes σ' !! k = hashes σc !! k)
    ∧ (∀ k, (∀ sw, sw ∈ l → releaseKey (tid E sw) ≠ k) →
         strs σ' !! k = strs σc !! k ∧ ttls σ' !! k = ttls σc !! k)
    ∧ (∀ k, k ≠ ACTIVE_SET → members σ' k = members σc k)
    ∧ (∀ id, (∀ sw, sw ∈ l → tid E sw ≠ id) →
         id ∈ members σ' ACTIVE_SET ↔ id ∈ members σc ACTIVE_SET).
Proof.
  revert acc σc. induction l as [|x l IH]; intros acc σc.
  { exists acc, σc. split; [done|]. split; [cbn; lia|]. by split_and!. }
  cbn [foldM]. destruct (deliverable E σc x) as [p|] eqn:Hd.
  - erewrite bind_Ret by by apply process_switch_delivered.
    destruct (IH (mkSweep (S (processed acc)) (errors acc)
                    (counted acc ++ [tid E x])%list) (release E now x p σc))
      as (res & σ' & Hrun & Hcount & Hh & Hs & Hm & Ha).
    cbn [processed errors] in Hcount.
    exists res, σ'. split; [done|]. split; [cbn [length]; lia|]. split_and!.
    + intros k Hk. rewrite Hh
        by (intros sw Hin; apply Hk; by apply list_elem_of_further).
      rewrite release_hashes, decide_False; [done|].
      apply Hk, list_elem_of_here.
    + intros k Hk.
      destruct (Hs k) as [-> ->];
        [intros sw Hin; apply Hk; by apply list_elem_of_further|].
      destruct (release_strs E now x p σc) as [-> ->].
      rewrite !lookup_insert_ne by (apply Hk, list_elem_of_here). done.
    + intros k Hk. rewrite Hm by done.
      rewrite release_members, decide_False by done. done.
    + intros id Hid. rewrite Ha
        by (intros sw Hin; apply Hid; by apply list_elem_of_further).
      rewrite release_members, decide_True by done.
      assert (tid E x ≠ id) by apply Hid, list_elem_of_here.
      set_solver.
  - destruct (process_switch_failed E now acc x σc Hd) as [e He].
    erewrite bind_Ret by exact He.
    destruct (IH (mkSweep (processed acc) (errors acc ++ [e])%list (counted acc)) σc)
      as (res & σ' & Hrun & Hcount & Hh & Hs & Hm & Ha).
    cbn [processed errors] in Hcount. rewrite length_app in Hcount.
    cbn [length] in Hcount.
    exists res, σ'. split; [done|]. split; [cbn [length]; lia|]. split_and!.
    + intros k Hk. apply Hh. intros sw Hin. apply Hk. by apply list_elem_of_further.
    + intros k Hk. apply Hs. intros sw Hin. apply Hk. by apply list_elem_of_further.
    + done.
    + intros id Hid. apply Ha. intros sw Hin. apply Hid.
      by apply list_elem_of_further.
Qed.

Lemma cron_authorised_inv E secret :
  cron_authorised E secret = true →
  secret = Some (dmsCronSecret E) ∧ dmsCronSecret E ≠ "".
Proof.
  unfold cron_authorised. rewrite andb_true_iff, negb_true_iff.
  intros [->%bool_decide_eq_true_1 Hne]. split; [done|].
  intros Heq. rewrite Heq in Hne. by rewrite bool_decide_eq_true_2 in Hne.
Qed.

(** The two ways of the process route. *)
Lemma process_route_cases E now secret σ :
  (cron_authorised E secret = false
   ∧ process_route E now secret σ = (Ret (401, BError "Invalid cron secret")%Z, σ))
  ∨ (cron_authorised E secret = true
     ∧ ∃ res σ',
         sweep E now (overdue_switches σ now) (cleaned σ) = (Ret res, σ')
         ∧ process_route E now secret σ
           = (Ret (200, if bool_decide (overdue_switches σ now = [])
                        then BNoOverdue
                        else BProcessed (processed res)
                               (length (overdue_switches σ now)) (errors res))%Z,
              σ')).
Proof.
  destruct (cron_authorised E secret) eqn:Hauth.
  - right. split; [done|].
    apply cron_authorised_inv in Hauth as [-> Hne].
    destruct (sweep_frame E now (overdue_switches σ now) (mkSweep 0 [] []) (cleaned σ))
      as (res & σ' & Hrun & _).
    exists res, σ'. split; [exact Hrun|].
    rewrite process_route_run by done. unfold try_catch.
    erewrite bind_Ret by apply getOverdueSwitches_run.
    case_bool_decide as Hnil.
    + rewrite Hnil in Hrun. cbn in Hrun. by injection Hrun as _ <-.
    + by erewrite bind_Ret by exact Hrun.
  - left. split; [done|]. unfold process_route, try_catch.
    unfold cron_authorised in Hauth.
    destruct (bool_decide (secret = Some (dmsCronSecret E))); [|done].
    cbn [andb negb orb] in *. apply negb_false_iff in Hauth. by rewrite Hauth.
Qed.

(** X14.  The sweep needs the cron secret.  A request whose header is
    missing, is empty or differs from the configured secret is answered
    401 and changes nothing; in particular, when the configured secret is
    the empty text, no request at all is let through. *)
Theorem process_needs_secret E now secret σ :
  secret ≠ Some (dmsCronSecret E) ∨ dmsCronSecret E = "" →
  process_route E now secret σ
    = (Ret (401, BError "Invalid cron secret")%Z, σ).
Proof.
  intros Hbad.
  destruct (process_route_cases E now secret σ) as [[_ H]|[Hauth _]]; [done|].
  apply cron_authorised_inv in Hauth as [-> Hne]. by destruct Hbad.
Qed.

Lemma process_needs_secret_witness :
  process_route test_env (t0 + 2 * HOUR_MS) (Some "guess") after_create
    = (Ret (401, BError "Invalid cron secret")%Z, after_create)
  ∧ process_route test_env (t0 + 2 * HOUR_MS) None after_create
    = (Ret (401, BError "Invalid cron secret")%Z, after_create).
Proof.
  split; apply process_needs_secret; left; discriminate.
Defined.

(** X15.  The answer of the sweep accounts for every overdue switch:
    whenever the process route answers with counters, [processed] plus
    the number of reported errors is [total]. *)
Theorem sweep_accounts E now secret σ p total errs σ' :
  process_route E now secret σ = (Ret (200, BProcessed p total errs)%Z, σ') →
  (p + length errs = total)%nat.
Proof.
  intros Hrun.
  destruct (process_route_cases E now secret σ)
    as [[_ H]|[_ (res & σ1 & Hsweep & H)]]; rewrite H in Hrun; [discriminate|].
  destruct (sweep_frame E now (overdue_switches σ now) (mkSweep 0 [] []) (cleaned σ))
    as (res' & σ2 & Hrun' & Hcount & _).
  unfold sweep in Hsweep. rewrite Hsweep in Hrun'. injection Hrun' as <- <-.
  cbn [processed errors length] in Hcount.
  case_bool_decide; [discriminate|].
  injection Hrun as <- <- <- _. lia.
Qed.

Lemma sweep_accounts_witness :
  process_route test_env (t0 + 2 * HOUR_MS) (Some "cron-secret") after_create
    = (Ret (200, BProcessed 1 1 [])%Z, after_sweep)
  ∧ (1 + length (@nil string) = 1)%nat.
Proof.
  assert (process_route test_env (t0 + 2 * HOUR_MS) (Some "cron-secret") after_create
          = (Ret (200, BProcessed 1 1 [])%Z, after_sweep)) as Hrun
    by (apply run_exec; computed).
  split; [exact Hrun|].
  exact (sweep_accounts test_env (t0 + 2 * HOUR_MS) (Some "cron-secret")
           after_create 1 1 [] after_sweep Hrun).
Defined.

Lemma process_route_spares E now secret σ id h :
  dms_inv σ →
  hashes σ !! switchKey id = Some h →
  h !! "status" ≠ Some (VStr "active") ∨ is_overdue now h = false →
  let σ' := exec (process_route E now secret) σ in
  hashes σ' !! switchKey id = Some h
  ∧ strs σ' !! ("dms:release:" +:+ id) = strs σ !! ("dms:release:" +:+ id)
  ∧ ttls σ' !! ("dms:release:" +:+ id) = ttls σ !! ("dms:release:" +:+ id)
  ∧ (h !! "status" = Some (VStr "active") →
     id ∈ members σ ACTIVE_SET → id ∈ members σ' ACTIVE_SET).
Proof.
  intros Hinv Hh Hnot σ'. unfold σ', exec.
  change ("dms:release:" +:+ id) with (releaseKey id).
  destruct (process_route_cases E now secret σ)
    as [[_ ->]|[_ (res & σ1 & Hsweep & ->)]]; [done|].
  cbn [snd]. clear σ'.
  assert (∀ sw, sw ∈ overdue_switches σ now → tid E sw ≠ id) as Hother.
  { intros sw Hin Heq.
    destruct (overdue_switches_record E σ now sw Hinv Hin) as [Hsw _].
    rewrite Heq, Hh in Hsw. injection Hsw as <-.
    apply overdue_switches_elem in Hin as (_ & _ & _ & Hst & Hov).
    destruct Hnot; congruence. }
  destruct (sweep_frame E now (overdue_switches σ now) (mkSweep 0 [] []) (cleaned σ))
    as (res' & σ2 & Hrun & _ & Hhashes & Hstrs & _ & Hact).
  unfold sweep in Hsweep. rewrite Hsweep in Hrun. injection Hrun as <- <-.
  destruct (clean_frame σ (elements (members σ ACTIVE_SET)) σ)
    as (Hch & Hcs & Hct & _ & _ & Hkept).
  fold (cleaned σ) in Hch, Hcs, Hct, Hkept.
  split_and!.
  - rewrite Hhashes, Hch; [done|].
    intros sw Hin Heq%switchKey_inj. by apply (Hother sw).
  - destruct (Hstrs (releaseKey id)) as [-> _]; [|by rewrite Hcs].
    intros sw Hin Heq%releaseKey_inj. by apply (Hother sw).
  - destruct (Hstrs (releaseKey id)) as [_ ->]; [|by rewrite Hct].
    intros sw Hin Heq%releaseKey_inj. by apply (Hother sw).
  - intros Hst Hin. apply Hact; [done|]. apply Hkept; [done|].
    unfold is_active. rewrite (visible_wf σ id h) by done.
    by apply bool_decide_eq_true_2.
Qed.

(** X16.  The sweep touches only switches that are active and past
    their deadline.  For any other stored switch — active with a deadline
    not before [now], or triggered, or cancelled — a request to the
    process route, whatever its secret, leaves the record as it is and
    neither writes nor rewrites a released message for it; an active
    switch that is in the active index stays there.  So a switch is not
    delivered before its deadline, a delivered switch is not delivered
    again, and a cancelled switch is never delivered. *)
Theorem sweep_touches_only_due E now secret σ id h :
  dms_inv σ →
  hashes σ !! switchKey id = Some h →
  h !! "status" ≠ Some (VStr "active") ∨ is_overdue now h = false →
  let σ' := exec (process_route E now secret) σ in
  hashes σ' !! switchKey id = Some h
  ∧ strs σ' !! ("dms:release:" +:+ id) = strs σ !! ("dms:release:" +:+ id)
  ∧ ttls σ' !! ("dms:release:" +:+ id) = ttls σ !! ("dms:release:" +:+ id)
  ∧ (h !! "status" = Some (VStr "active") →
     id ∈ members σ ACTIVE_SET → id ∈ members σ' ACTIVE_SET).
Proof. apply process_route_spares. Qed.

Lemma sweep_touches_only_due_witness :
  ∃ h, hashes after_create !! switchKey "sw-1" = Some h
    ∧ hashes (exec (process_route test_env (t0 + 1000) (Some "cron-secret"))
                after_create) !! switchKey "sw-1" = Some h
    ∧ strs (exec (process_route test_env (t0 + 1000) (Some "cron-secret"))
              after_create) !! "dms:release:sw-1" = None.
Proof.
  assert (dms_inv after_create) as Hinv
    by (apply dms_inv_create_route; [apply dms_inv_empty|done|exact eq_refl]).
  assert (is_Some (hashes after_create !! switchKey "sw-1")) as [h Hh] by decided.
  assert ((hashes after_create !! switchKey "sw-1") ≫= (.!! "nextDeadline")
          = Some (VTime (t0 + HOUR_MS))) as Hdl by computed.
  rewrite Hh in Hdl. cbn [mbind option_bind] in Hdl.
  destruct (sweep_touches_only_due test_env (t0 + 1000) (Some "cron-secret")
              after_create "sw-1" h Hinv Hh) as (H1 & H2 & _).
  - right. unfold is_overdue. rewrite Hdl. exact eq_refl.
  - exists h. split; [exact Hh|]. split; [exact H1|].
    etrans; [exact H2|]. computed.
Defined.

(** ** Check-in and sweep *)

Lemma bump_all_frame E now (l : list hash) σ :
  strs (foldl (λ s sw, bump E now sw s) σ l) = strs σ
  ∧ ttls (foldl (λ s sw, bump E now sw s) σ l) = ttls σ
  ∧ sets (foldl (λ s sw, bump E now sw s) σ l) = sets σ.
Proof.
  revert σ. induction l as [|sw l IH]; intros σ; [done|].
  cbn [foldl]. destruct (IH (bump E now sw σ)) as (-> & -> & ->). done.
Qed.

(** The store a signed check-in leaves. *)
Lemma checkin_route_store E now req σ :
  dms_inv σ →
  signed_by E "dms:checkin:" req = true →
  exec (checkin_route E now req) σ
    = foldl (λ s sw, bump E now sw s) σ (active_switches σ (s_senderPubkey req)).
Proof.
  intros Hinv Hsig. unfold exec. rewrite checkin_route_signed by done.
  unfold try_catch. erewrite bind_Ret by by apply refreshDeadlines_run. done.
Qed.

(** X17.  A check-in buys the whole interval.  After a signed check-in
    at [now], an active switch of the sender with interval [n] has the
    deadline [now + n] hours, and a sweep at any time up to that deadline
    leaves it alone: the switch is still active with that deadline, and
    no released message has been written for it. *)
Theorem checkin_postpones E now now' secret σ req id h n :
  dms_inv σ →
  signed_by E "dms:checkin:" req = true →
  active_of σ (s_senderPubkey req) id h →
  h !! "intervalHours" = Some (VNum n) →
  (now' ≤ now + n * HOUR_MS)%Z →
  let σ1 := exec (checkin_route E now req) σ in
  let σ2 := exec (process_route E now' secret) σ1 in
  (∃ h', hashes σ2 !! switchKey id = Some h'
         ∧ h' !! "status" = Some (VStr "active")
         ∧ h' !! "nextDeadline" = Some (VTime (now + n * HOUR_MS)))
  ∧ strs σ2 !! ("dms:release:" +:+ id) = strs σ !! ("dms:release:" +:+ id).
Proof.
  intros Hinv Hsig Hact Hn Hle σ1 σ2.
  pose proof Hinv as [Hrec Hown]. pose proof Hact as (Hh & Ho & Hst).
  set (o := s_senderPubkey req) in *.
  set (l := active_switches σ o).
  assert (σ1 = foldl (λ s sw, bump E now sw s) σ l) as Hσ1
    by by apply checkin_route_store.
  assert (dms_inv σ1) as Hinv1 by by apply dms_inv_checkin_route.
  destruct (bump_all_lookup E now l σ (switchKey id) h Hh)
    as (h' & Hh' & Hkeep & _ & Hnew).
  rewrite <- Hσ1 in Hh'.
  assert (h' !! "nextDeadline" = Some (VTime (now + n * HOUR_MS))) as Hdl.
  { apply Hnew.
    - exists h. split; [apply active_switches_elem; eauto|].
      destruct (Hrec id h Hh) as [Hwf _]. by rewrite (wf_switch_tid E id h Hwf).
    - intros sw (id' & Hh2 & _)%active_switches_elem Hk; [|done].
      destruct (Hrec id' sw Hh2) as [Hwf _].
      rewrite (wf_switch_tid E id' sw Hwf) in Hk. apply switchKey_inj in Hk.
      subst id'. assert (sw = h) as -> by congruence.
      unfold bumped_deadline. by rewrite Hn. }
  assert (h' !! "status" = Some (VStr "active")) as Hst'
    by (rewrite Hkeep by done; exact Hst).
  destruct (process_route_spares E now' secret σ1 id h' Hinv1 Hh')
    as (H1 & H2 & _).
  { right. unfold is_overdue. rewrite Hdl. cbn [Date_of]. by apply Z.ltb_ge. }
  split; [by exists h'|].
  fold σ2 in H2. rewrite H2, Hσ1.
  by destruct (bump_all_frame E now l σ) as (-> & _).
Qed.

Lemma checkin_postpones_witness :
  let σ1 := exec (checkin_route test_env (t0 + 3000000) signed_S) after_create in
  let σ2 := exec (process_route test_env (t0 + 3900000) (Some "cron-secret")) σ1 in
  (∃ h', hashes σ2 !! switchKey "sw-1" = Some h'
         ∧ h' !! "status" = Some (VStr "active")
         ∧ h' !! "nextDeadline" = Some (VTime (t0 + 3000000 + 1 * HOUR_MS)))
  ∧ strs σ2 !! "dms:release:sw-1" = strs after_create !! "dms:release:sw-1".
Proof.
  assert (dms_inv after_create) as Hinv
    by (apply dms_inv_create_route; [apply dms_inv_empty|done|exact eq_refl]).
  assert (is_Some (hashes after_create !! switchKey "sw-1")) as [h Hh] by decided.
  assert ((hashes after_create !! switchKey "sw-1") ≫= (.!! "senderPubkey")
          = Some (VStr "S")) as Ho by computed.
  assert ((hashes after_create !! switchKey "sw-1") ≫= (.!! "status")
          = Some (VStr "active")) as Hst by computed.
  assert ((hashes after_create !! switchKey "sw-1") ≫= (.!! "intervalHours")
          = Some (VNum 1)) as Hn by computed.
  rewrite Hh in Ho, Hst, Hn. cbn [mbind option_bind] in *.
  apply (checkin_postpones test_env (t0 + 3000000) (t0 + 3900000)
           (Some "cron-secret") after_create signed_S "sw-1" h 1 Hinv).
  - computed.
  - split; [exact Hh|]. split; [exact Ho|exact Hst].
  - exact Hn.
  - vm_compute. discriminate.
Defined.

(** ** The sweep: a delivery that fails *)

Lemma sweep_errors_mono E now (l : list hash) acc σc res σ' :
  foldM l acc (process_switch E now) σc = (Ret res, σ') →
  ∀ e, e ∈ errors acc → e ∈ errors res.
Proof.
  revert acc σc. induction l as [|x l IH]; intros acc σc Hrun e He.
  { cbn in Hrun. by injection Hrun as <- _. }
  cbn [foldM] in Hrun. destruct (deliverable E σc x) as [p|] eqn:Hd.
  - erewrite bind_Ret in Hrun by by apply process_switch_delivered.
    by apply (IH _ _ Hrun).
  - destruct (process_switch_failed E now acc x σc Hd) as [e' He'].
    erewrite bind_Ret in Hrun by exact He'.
    apply (IH _ _ Hrun). cbn [errors]. apply elem_of_app. by left.
Qed.

Lemma process_switch_unresolved E now acc sw σ :
  getUserAccount E (sw !! "recipientUsername") = false →
  process_switch E now acc sw σ
    = (Ret (mkSweep (processed acc)
              (errors acc ++ [tid E sw +:+ ": recipient @"
                               +:+ text_of E (sw !! "recipientUsername")
                               +:+ " not found"])%list
              (counted acc)), σ).
Proof. intros H. unfold process_switch, try_catch. by rewrite H. Qed.

Lemma deliverable_unresolved E σ sw :
  getUserAccount E (sw !! "recipientUsername") = false → deliverable E σ sw = None.
Proof. intros H. unfold deliverable. by rewrite H. Qed.

Lemma sweep_unresolved E now (l : list hash) acc σc sw res σ' :
  NoDup (map (tid E) l) →
  sw ∈ l →
  getUserAccount E (sw !! "recipientUsername") = false →
  foldM l acc (process_switch E now) σc = (Ret res, σ') →
  (tid E sw +:+ ": recipient @" +:+ text_of E (sw !! "recipientUsername")
     +:+ " not found") ∈ errors res
  ∧ hashes σ' !! switchKey (tid E sw) = hashes σc !! switchKey (tid E sw)
  ∧ (tid E sw ∈ members σ' ACTIVE_SET ↔ tid E sw ∈ members σc ACTIVE_SET)
  ∧ strs σ' !! releaseKey (tid E sw) = strs σc !! releaseKey (tid E sw).
Proof.
  revert acc σc. induction l as [|x l IH]; intros acc σc Hnd Hin Hun Hrun.
  { by apply elem_of_nil in Hin. }
  cbn [map] in Hnd. apply NoDup_cons in Hnd as [Hx Hnd].
  cbn [foldM] in Hrun.
  apply elem_of_cons in Hin as [->|Hin].
  - (* the switch itself: an error, and the rest of the loop leaves it *)
    erewrite bind_Ret in Hrun by by apply process_switch_unresolved.
    destruct (sweep_frame E now l
                (mkSweep (processed acc)
                   (errors acc ++ [tid E x +:+ ": recipient @"
                                    +:+ text_of E (x !! "recipientUsername")
                                    +:+ " not found"])%list (counted acc)) σc)
      as (res' & σ2 & Hrun' & _ & Hh & Hs & _ & Ha).
    rewrite Hrun in Hrun'. injection Hrun' as <- <-.
    assert (∀ sw', sw' ∈ l → tid E sw' ≠ tid E x) as Hother.
    { intros sw' Hin' Heq. apply Hx. rewrite <- Heq.
      apply list_elem_of_fmap. by exists sw'. }
    split_and!.
    + apply (sweep_errors_mono _ _ _ _ _ _ _ Hrun). cbn [errors].
      apply elem_of_app. right. apply list_elem_of_here.
    + apply Hh. intros sw' Hin' Heq%switchKey_inj. by apply (Hother sw').
    + by apply Ha.
    + apply Hs. intros sw' Hin' Heq%releaseKey_inj. by apply (Hother sw').
  - (* another switch first *)
    assert (tid E x ≠ tid E sw) as Hne.
    { intros Heq. apply Hx. rewrite Heq. apply list_elem_of_fmap. by exists sw. }
    destruct (deliverable E σc x) as [p|] eqn:Hd.
    + erewrite bind_Ret in Hrun by by apply process_switch_delivered.
      destruct (IH _ _ Hnd Hin Hun Hrun) as (He & Hh & Ha & Hs).
      split; [done|]. split; [|split].
      * rewrite Hh, release_hashes, decide_False; [done|].
        by intros ?%switchKey_inj.
      * rewrite Ha, release_members, decide_True by done. set_solver.
      * rewrite Hs. destruct (release_strs E now x p σc) as [-> _].
        apply lookup_insert_ne. by intros ?%releaseKey_inj.
    + destruct (process_switch_failed E now acc x σc Hd) as [e' He'].
      erewrite bind_Ret in Hrun by exact He'.
      by apply (IH _ _ Hnd Hin Hun Hrun).
Qed.

Lemma is_overdue_mono now now' sw :
  (now ≤ now')%Z → is_overdue now sw = true → is_overdue now' sw = true.
Proof.
  unfold is_overdue. intros Hle. destruct (Date_of (sw !! "nextDeadline")); [|done].
  rewrite !Z.ltb_lt. lia.
Qed.

(** X18.  A delivery that cannot be made is tried again.  When the
    recipient of an overdue switch does not resolve, the sweep reports
    "<id>: recipient @<name> not found" among its errors, leaves the
    record as it is, active and in the active index, and writes no
    released message for it; the switch is therefore overdue again for
    every later sweep. *)
Theorem unresolved_recipient_retried E now σ sw :
  dms_inv σ →
  dmsCronSecret E ≠ "" →
  sw ∈ overdue_switches σ now →
  getUserAccount E (sw !! "recipientUsername") = false →
  let id := text_of E (sw !! "switchId") in
  let σ' := exec (process_route E now (Some (dmsCronSecret E))) σ in
  (∃ p total errs,
     run (process_route E now (Some (dmsCronSecret E))) σ
       = Ret (200, BProcessed p total errs)%Z
     ∧ (id +:+ ": recipient @" +:+ text_of E (sw !! "recipientUsername")
          +:+ " not found") ∈ errs)
  ∧ hashes σ' !! switchKey id = Some sw
  ∧ id ∈ members σ' ACTIVE_SET
  ∧ strs σ' !! ("dms:release:" +:+ id) = strs σ !! ("dms:release:" +:+ id)
  ∧ ∀ now', (now ≤ now')%Z → sw ∈ overdue_switches σ' now'.
Proof.
  intros Hinv Hsecret Hin Hun id σ'.
  change id with (tid E sw) in *. clear id.
  change ("dms:release:" +:+ tid E sw) with (releaseKey (tid E sw)).
  destruct (overdue_switches_record E σ now sw Hinv Hin) as [Hsw Hwf].
  pose proof Hin as (id0 & Hact0 & Hv0 & Hst & Hov)%overdue_switches_elem.
  assert (id0 = tid E sw) as ->.
  { apply visible_Some in Hv0 as [Hh0 _]. destruct Hinv as [Hrec _].
    destruct (Hrec id0 sw Hh0) as [Hwf0 _]. by rewrite (wf_switch_tid E id0 sw Hwf0). }
  destruct (sweep_run E now (overdue_switches σ now) (mkSweep 0 [] []) (cleaned σ)
              (overdue_switches_NoDup E σ now Hinv))
    as (res & σ1 & Hrun & (new & Hc & _ & Hnew) & _ & _ & Hstrs).
  assert (process_route E now (Some (dmsCronSecret E)) σ
          = (Ret (200, BProcessed (processed res)
                         (length (overdue_switches σ now)) (errors res))%Z, σ1))
    as Hroute.
  { rewrite process_route_run by done. unfold try_catch.
    erewrite bind_Ret by apply getOverdueSwitches_run.
    rewrite bool_decide_eq_false_2
      by (intros Hnil; rewrite Hnil in Hin; by apply elem_of_nil in Hin).
    by erewrite bind_Ret by exact Hrun. }
  assert (σ' = σ1) as -> by (unfold σ', exec; by rewrite Hroute).
  destruct (sweep_unresolved E now (overdue_switches σ now) (mkSweep 0 [] [])
              (cleaned σ) sw res σ1 (overdue_switches_NoDup E σ now Hinv)
              Hin Hun Hrun) as (Herr & Hh & Ha & Hs).
  destruct (clean_frame σ (elements (members σ ACTIVE_SET)) σ)
    as (Hch & Hcs & _ & _ & _ & Hkept).
  fold (cleaned σ) in Hch, Hcs, Hkept.
  assert (hashes σ1 !! switchKey (tid E sw) = Some sw) as Hsw1
    by by rewrite Hh, Hch.
  assert (tid E sw ∈ members σ1 ACTIVE_SET) as Hact1.
  { apply Ha, Hkept; [done|]. unfold is_active. rewrite Hv0.
    by apply bool_decide_eq_true_2. }
  split; [|split; [done|split; [done|split]]].
  - exists (processed res), (length (overdue_switches σ now)), (errors res).
    split; [unfold run; by rewrite Hroute|done].
  - by rewrite Hs, Hcs.
  - intros now' Hle. apply overdue_switches_elem. exists (tid E sw).
    split; [done|]. split; [|split; [done|by eapply is_overdue_mono]].
    apply visible_Some. split; [done|]. by eapply wf_switch_truthy.
Qed.

Lemma unresolved_recipient_retried_witness :
  ∃ sw p total errs,
    hashes after_create_bob !! switchKey "sw-2" = Some sw
    ∧ run (process_route test_env (t0 + 2 * HOUR_MS) (Some "cron-secret"))
        after_create_bob
      = Ret (200, BProcessed p total errs)%Z
    ∧ "sw-2: recipient @bob not found" ∈ errs
    ∧ hashes (exec (process_route test_env (t0 + 2 * HOUR_MS) (Some "cron-secret"))
                after_create_bob) !! switchKey "sw-2" = Some sw.
Proof.
  assert (dms_inv after_create_bob) as Hinv
    by (apply dms_inv_createSwitch; [apply dms_inv_empty|done|exact eq_refl]).
  assert (is_Some (hashes after_create_bob !! switchKey "sw-2")) as [sw Hsw]
    by decided.
  assert ((hashes after_create_bob !! switchKey "sw-2") ≫= (.!! "switchId")
          = Some (VStr "sw-2")) as Hid by computed.
  assert ((hashes after_create_bob !! switchKey "sw-2") ≫= (.!! "recipientUsername")
          = Some (VStr "bob")) as Hr by computed.
  assert ((hashes after_create_bob !! switchKey "sw-2") ≫= (.!! "status")
          = Some (VStr "active")) as Hst by computed.
  assert ((hashes after_create_bob !! switchKey "sw-2") ≫= (.!! "nextDeadline")
          = Some (VTime (t0 + HOUR_MS))) as Hdl by computed.
  rewrite Hsw in Hid, Hr, Hst, Hdl. cbn [mbind option_bind] in *.
  assert ("sw-2" ∈ members after_create_bob ACTIVE_SET) as Hact by decided.
  pose proof (unresolved_recipient_retried test_env (t0 + 2 * HOUR_MS)
                after_create_bob sw Hinv) as H.
  cbv zeta in H. rewrite Hid, Hr in H. cbn [text_of] in H.
  destruct H as ((p & total & errs & Hrun & Herr) & Hkept & _).
  - discriminate.
  - apply overdue_switches_elem. exists "sw-2". split; [exact Hact|].
    split; [apply visible_wf; assumption|]. split; [exact Hst|].
    unfold is_overdue. rewrite Hdl. exact eq_refl.
  - exact eq_refl.
  - exists sw, p, total, errs. split; [exact Hsw|]. split; [exact Hrun|].
    split; [exact Herr|exact Hkept].
Defined.

(** ** Creating and listing *)

Lemma create_route_rejects E now uuid rand upload req σ :
  create_accepts E req = false →
  ∃ status error,
    create_route E now uuid rand upload req σ = (Ret (status, BError error), σ)
    ∧ status ∈ [400; 401; 403; 404]%Z
    ∧ ((c_checkInIntervalHours req < 1 ∨ 8760 < c_checkInIntervalHours req)%Z →
       status = 400%Z).
Proof.
  intros Hacc. unfold create_route, try_catch.
  destruct (missing (c_recipientUsername req) || missing (c_encryptedMessage req)
            || (c_checkInIntervalHours req =? 0)%Z || missing (c_senderPubkey req))
    eqn:Hmiss.
  { exists 400%Z, "Missing required fields". split; [done|].
    split; [set_solver|done]. }
  destruct ((c_checkInIntervalHours req <? 1)%Z || (8760 <? c_checkInIntervalHours req)%Z)
    eqn:Hrange.
  { exists 400%Z, "Interval must be between 1 and 8760 hours". split; [done|].
    split; [set_solver|done]. }
  apply orb_false_iff in Hrange as [Hlo%Z.ltb_ge Hhi%Z.ltb_ge].
  destruct (missing (c_signature req) || (c_timestamp req =? 0)%Z) eqn:Hsigned.
  { exists 401%Z, "Request must be signed". split; [done|].
    split; [set_solver|lia]. }
  destruct (verifySignature E (c_signature req) (c_timestamp req) _ _) eqn:Hv;
    cbn [negb]; cycle 1.
  { exists 403%Z, "Invalid signature". split; [done|]. split; [set_solver|lia]. }
  destruct (getUserAccount E (Some (VStr (c_recipientUsername req)))) eqn:Hres;
    cbn [negb]; cycle 1.
  { exists 404%Z, "Recipient username not found on-chain". split; [done|].
    split; [set_solver|lia]. }
  exfalso. unfold create_accepts in Hacc.
  apply orb_false_iff in Hmiss as [Hmiss Hs].
  apply orb_false_iff in Hmiss as [Hmiss _].
  apply orb_false_iff in Hmiss as [Hr Hm].
  apply orb_false_iff in Hsigned as [Hsg Hts].
  rewrite Hr, Hm, Hs, Hsg, Hts, Hv, Hres in Hacc. cbn [negb andb] in Hacc.
  rewrite !andb_true_r in Hacc. apply andb_false_iff in Hacc as [Hc|Hc]; lia.
Qed.

(** X19.  A create request that fails one of the checks of the route
    leaves no trace.  When a field is missing, the interval is outside
    1..8760 hours, the request is unsigned, the signature is refused or
    the recipient does not resolve, the route answers 400, 400, 401, 403
    or 404 with an error, in that order of precedence, and the store is
    left as it was: no payload is kept and no switch is created.  An
    interval outside the range is always a 400. *)
Theorem create_refused E now uuid rand upload req σ :
  create_accepts E req = false →
  ∃ status error,
    create_route E now uuid rand upload req σ = (Ret (status, BError error), σ)
    ∧ status ∈ [400; 401; 403; 404]%Z
    ∧ ((c_checkInIntervalHours req < 1 ∨ 8760 < c_checkInIntervalHours req)%Z →
       status = 400%Z).
Proof. apply create_route_rejects. Qed.

Lemma create_refused_witness :
  ∃ status error,
    create_route test_env t0 "sw-3" "x7k2p9" (Some "tx-3")
      (mkCreateReq "alice" "ciphertext" 9000 "S" "sig-S" 999000) after_create
    = (Ret (status, BError error), after_create)
    ∧ status = 400%Z.
Proof.
  destruct (create_refused test_env t0 "sw-3" "x7k2p9" (Some "tx-3")
              (mkCreateReq "alice" "ciphertext" 9000 "S" "sig-S" 999000)
              after_create eq_refl) as (status & error & Hrun & _ & H400).
  exists status, error. split; [exact Hrun|]. apply H400. right. cbn. lia.
Defined.

(** The store an accepted create leaves, with the record in full. *)
Lemma create_route_run E now uuid rand upload req σ :
  create_accepts E req = true →
  let record : hash := list_to_map
    [("switchId", VStr uuid);
     ("senderPubkey", VStr (c_senderPubkey req));
     ("recipientUsername", VStr (c_recipientUsername req));
     ("arweaveTxId", VStr (payload_handle now rand upload));
     ("intervalHours", VNum (c_checkInIntervalHours req));
     ("nextDeadline", VTime (now + c_checkInIntervalHours req * HOUR_MS));
     ("status", VStr "active");
     ("createdAt", VTime now)] in
  create_route E now uuid rand upload req σ =
    (Ret (200, BCreated (Some (VStr uuid))
                 (Some (VTime (now + c_checkInIntervalHours req * HOUR_MS))))%Z,
     exec (sadd ACTIVE_SET uuid)
       (exec (sadd (userSwitchesKey (c_senderPubkey req)) uuid)
          (exec (setHash (switchKey uuid) record)
             (payload_stored now rand upload req σ)))).
Proof.
  intros Hacc record. unfold create_accepts in Hacc.
  rewrite !andb_true_iff, !negb_true_iff in Hacc.
  destruct Hacc as ((((((((Hr & Hm) & Hlo) & Hhi) & Hs) & Hsig) & Hts) & Hv) & Hacc).
  unfold create_route, try_catch. rewrite Hr, Hm, Hs, Hsig, Hts, Hv, Hacc.
  assert ((c_checkInIntervalHours req =? 0)%Z = false) as -> by lia.
  assert ((c_checkInIntervalHours req <? 1)%Z = false) as -> by lia.
  assert ((8760 <? c_checkInIntervalHours req)%Z = false) as -> by lia.
  cbn [orb negb].
  rewrite (bind_Ret _ _ σ (payload_handle now rand upload)
             (payload_stored now rand upload req σ))
    by (by destruct upload).
  reflexivity.
Qed.

(** X20.  A created switch is listed.  After a create request that
    passes the checks, with a fresh id, [GET /list/<sender>] answers 200
    and its list holds the entry of the new switch: the id, the
    recipient, the interval, the deadline [now + interval], the status
    active and the creation time — and neither the payload handle nor the
    sender's key, nor a [triggeredAt]. *)
Theorem created_switch_listed E now uuid rand upload req σ :
  dms_inv σ → uuid ≠ "" → hashes σ !! switchKey uuid = None →
  create_accepts E req = true →
  let σ1 := exec (create_route E now uuid rand upload req) σ in
  ∃ l, list_route (c_senderPubkey req) σ1 = (Ret (200, BList l)%Z, σ1)
    ∧ [("switchId", VStr uuid);
       ("recipientUsername", VStr (c_recipientUsername req));
       ("intervalHours", VNum (c_checkInIntervalHours req));
       ("nextDeadline", VTime (now + c_checkInIntervalHours req * HOUR_MS));
       ("status", VStr "active");
       ("createdAt", VTime now)] ∈ l.
Proof.
  intros Hinv Hne Hfresh Hacc σ1.
  pose proof (create_route_run E now uuid rand upload req σ Hacc) as Hrun.
  cbv zeta in Hrun.
  set (record := (list_to_map
    [("switchId", VStr uuid);
     ("senderPubkey", VStr (c_senderPubkey req));
     ("recipientUsername", VStr (c_recipientUsername req));
     ("arweaveTxId", VStr (payload_handle now rand upload));
     ("intervalHours", VNum (c_checkInIntervalHours req));
     ("nextDeadline", VTime (now + c_checkInIntervalHours req * HOUR_MS));
     ("status", VStr "active");
     ("createdAt", VTime now)] : hash)) in *.
  assert (hashes (payload_stored now rand upload req σ) = hashes σ) as Hhs
    by (by destruct upload).
  assert (hashes σ1 !! switchKey uuid = Some record) as Hrec.
  { unfold σ1, exec at 1. rewrite Hrun. cbn [snd].
    rewrite created_hashes, decide_True by done.
    rewrite Hhs, Hfresh. cbn [default]. by rewrite (right_id_L ∅ (∪)). }
  assert (uuid ∈ members σ1 (userSwitchesKey (c_senderPubkey req))) as Hin.
  { unfold σ1, exec at 1. rewrite Hrun. cbn [snd].
    rewrite created_members, decide_True by (by left).
    apply elem_of_union_l, elem_of_singleton. done. }
  assert (visible σ1 uuid = Some record) as Hvis.
  { apply visible_Some. split; [done|]. cbn. by destruct uuid. }
  eexists. split.
  - unfold list_route, try_catch.
    erewrite bind_Ret by apply getUserSwitches_run. reflexivity.
  - apply list_elem_of_fmap. exists record. split; [reflexivity|].
    apply list_elem_of_omap. exists uuid. split; [|done].
    by apply elem_of_elements.
Qed.

Lemma created_switch_listed_witness :
  ∃ l, list_route "S" after_create = (Ret (200, BList l)%Z, after_create)
    ∧ [("switchId", VStr "sw-1"); ("recipientUsername", VStr "alice");
       ("intervalHours", VNum 1); ("nextDeadline", VTime (t0 + 1 * HOUR_MS));
       ("status", VStr "active"); ("createdAt", VTime t0)] ∈ l.
Proof.
  apply (created_switch_listed test_env t0 "sw-1" "x7k2p9" (Some "tx-1") create_S
           empty_store dms_inv_empty).
  - discriminate.
  - exact eq_refl.
  - exact eq_refl.
Defined.

(** X21.  What the list shows.  In a store that satisfies the invariant
    of the switch store, [GET /list/<pk>] answers 200 with the entries of
    exactly the switches that the index of [pk] holds; each of them is a
    switch of [pk] and is not cancelled, and every active switch of [pk]
    is among them.  The route changes nothing. *)
Theorem list_route_shows pk σ :
  dms_inv σ →
  ∃ l, list_route pk σ = (Ret (200, BList (map list_entry l))%Z, σ)
    ∧ (∀ sw, sw ∈ l ↔
         ∃ id, id ∈ members σ (userSwitchesKey pk)
               ∧ hashes σ !! switchKey id = Some sw)
    ∧ (∀ sw, sw ∈ l →
         sw !! "senderPubkey" = Some (VStr pk)
         ∧ sw !! "status" ≠ Some (VStr "cancelled"))
    ∧ (∀ id sw, hashes σ !! switchKey id = Some sw →
         sw !! "senderPubkey" = Some (VStr pk) →
         sw !! "status" = Some (VStr "active") → sw ∈ l).
Proof.
  intros Hinv. pose proof Hinv as [Hrec Hown].
  exists (omap (visible σ) (elements (members σ (userSwitchesKey pk)))).
  assert (∀ sw, sw ∈ omap (visible σ) (elements (members σ (userSwitchesKey pk))) ↔
            ∃ id, id ∈ members σ (userSwitchesKey pk)
                  ∧ hashes σ !! switchKey id = Some sw) as Hl.
  { intros sw. rewrite list_elem_of_omap. split.
    - intros (id & Hin%elem_of_elements & Hv%visible_Some). exists id. tauto.
    - intros (id & Hin & Hh). exists id. split; [by apply elem_of_elements|].
      by apply visible_wf. }
  split; [|split; [done|split]].
  - unfold list_route, try_catch.
    erewrite bind_Ret by apply getUserSwitches_run. reflexivity.
  - intros sw (id & Hin & Hh)%Hl.
    destruct (Hown pk id Hin) as (h & Hh' & Hpk).
    assert (h = sw) as -> by congruence. split; [done|].
    intros Hc. destruct (Hrec id sw Hh) as [_ Hidx].
    destruct (Hidx pk Hpk) as (_ & Hcancelled & _).
    by destruct (Hcancelled Hc).
  - intros id sw Hh Hpk Hst. apply Hl. exists id. split; [|done].
    destruct (Hrec id sw Hh) as [_ Hidx].
    by destruct (Hidx pk Hpk) as ([? _] & _).
Qed.

Lemma list_route_shows_witness :
  ∃ l, list_route "S" after_create = (Ret (200, BList (map list_entry l))%Z, after_create)
    ∧ (∃ sw, sw ∈ l ∧ sw !! "status" = Some (VStr "active"))
    ∧ ∀ sw, sw ∈ l → sw !! "status" ≠ Some (VStr "cancelled").
Proof.
  assert (dms_inv after_create) as Hinv
    by (apply dms_inv_create_route; [apply dms_inv_empty|done|exact eq_refl]).
  assert (is_Some (hashes after_create !! switchKey "sw-1")) as [sw Hsw]
    by decided.
  assert ((hashes after_create !! switchKey "sw-1") ≫= (.!! "senderPubkey")
          = Some (VStr "S")) as Hpk by computed.
  assert ((hashes after_create !! switchKey "sw-1") ≫= (.!! "status")
          = Some (VStr "active")) as Hst by computed.
  rewrite Hsw in Hpk, Hst. cbn [mbind option_bind] in Hpk, Hst.
  destruct (list_route_shows "S" after_create Hinv) as (l & H1 & _ & H3 & H4).
  exists l. split; [exact H1|]. split.
  - exists sw. split; [exact (H4 "sw-1" sw Hsw Hpk Hst)|exact Hst].
  - intros sw' Hsw'. exact (proj2 (H3 sw' Hsw')).
Defined.

(** ** The two services side by side *)

Lemma same_at_refl σ k : same_at σ σ k.
Proof. by split_and!. Qed.

Lemma same_at_trans σ1 σ2 σ3 k :
  same_at σ1 σ2 k → same_at σ2 σ3 k → same_at σ1 σ3 k.
Proof.
  intros (H1 & H2 & H3 & H4) (H1' & H2' & H3' & H4').
  split_and!; congruence.
Qed.

Lemma same_at_setHash σ key d k : k ≠ key → same_at σ (exec (setHash key d) σ) k.
Proof.
  intros Hk. unfold exec, setHash. split_and!; cbn; [|done..].
  by rewrite lookup_insert_ne.
Qed.

Lemma same_at_sadd σ key x k : k ≠ key → same_at σ (exec (sadd key x) σ) k.
Proof.
  intros Hk. unfold exec, sadd. split_and!; cbn; [done|done| |done].
  by rewrite lookup_insert_ne.
Qed.

Lemma same_at_srem σ key x k : k ≠ key → same_at σ (exec (srem key x) σ) k.
Proof.
  intros Hk. unfold exec, srem. split_and!; cbn; [done|done| |done].
  by rewrite lookup_insert_ne.
Qed.

Lemma same_at_setString σ key v t k :
  k ≠ key → same_at σ (exec (setStringWithExpiry key v t) σ) k.
Proof.
  intros Hk. unfold exec, setStringWithExpiry. split_and!; cbn; [done| |done|].
  - by rewrite lookup_insert_ne.
  - by rewrite lookup_insert_ne.
Qed.

Lemma recovery_key_dms k s : recovery_key k → k ≠ "dms:" +:+ s.
Proof. by intros [t ->]. Qed.

Lemma same_recovery_refl σ : same_recovery σ σ.
Proof. intros k _. apply same_at_refl. Qed.

(** A write under a key of the switch service. *)
Lemma same_recovery_step σ s s' key :
  (∀ k, k ≠ "dms:" +:+ key → same_at s s' k) →
  same_recovery σ s → same_recovery σ s'.
Proof.
  intros Hstep Hs k Hk. eapply same_at_trans; [by apply Hs|].
  apply Hstep. by apply recovery_key_dms.
Qed.

Lemma same_recovery_createSwitch σ now uuid input s :
  same_recovery σ s → same_recovery σ (exec (createSwitch now uuid input) s).
Proof.
  intros Hs. destruct (createSwitch_run now uuid input s) as (r & Hrun & _).
  unfold exec at 1. rewrite Hrun. cbn [snd].
  eapply (same_recovery_step σ _ _ "active"); [intros k Hk; by apply same_at_sadd|].
  eapply (same_recovery_step σ _ _ ("user:" +:+ in_senderPubkey input));
    [intros k Hk; by apply same_at_sadd|].
  eapply (same_recovery_step σ _ _ ("switch:" +:+ uuid));
    [intros k Hk; by apply same_at_setHash|].
  done.
Qed.

Lemma same_recovery_create_route E now uuid rand upload req σ :
  same_recovery σ (exec (create_route E now uuid rand upload req) σ).
Proof.
  destruct (create_accepts E req) eqn:Hacc.
  - unfold exec at 1. rewrite create_route_run by done. cbn [snd].
    eapply (same_recovery_step σ _ _ "active"); [intros k Hk; by apply same_at_sadd|].
    eapply (same_recovery_step σ _ _ ("user:" +:+ c_senderPubkey req));
      [intros k Hk; by apply same_at_sadd|].
    eapply (same_recovery_step σ _ _ ("switch:" +:+ uuid));
      [intros k Hk; by apply same_at_setHash|].
    destruct upload as [txid|]; [apply same_recovery_refl|].
    cbn [payload_stored]. unfold storeMessageBlob.
    eapply (same_recovery_step σ _ _ ("local-" +:+ pretty now +:+ "-" +:+ rand));
      [intros k Hk; by apply same_at_setString|].
    apply same_recovery_refl.
  - destruct (create_route_rejects E now uuid rand upload req σ Hacc)
      as (status & error & Hrun & _).
    unfold exec. rewrite Hrun. apply same_recovery_refl.
Qed.

Lemma same_recovery_checkin_route E now req σ :
  same_recovery σ (exec (checkin_route E now req) σ).
Proof.
  unfold exec, checkin_route, try_catch.
  repeat (match goal with
          | |- context [if ?c then _ else _] => destruct c
          end; [apply same_recovery_refl|]).
  assert (same_recovery σ (exec (refreshDeadlines E now (s_senderPubkey req)) σ)) as H.
  { unfold exec, refreshDeadlines. unfold bind at 1. rewrite getUserSwitches_run.
    cbn [fst snd].
    set (active := filter _ _).
    pose proof (foldM_invariant (same_recovery σ) active
      (λ (latestDeadline : option Z) (sw : hash),
         let* iso := ISO ((λ n, now + n * HOUR_MS)%Z <$> Number (sw !! "intervalHours")) in
         do setHash (switchKey (text_of E (sw !! "switchId")))
              {[ "nextDeadline" := VTime iso ]} in
         ret (later iso latestDeadline))) as Hloop.
    unfold exec in Hloop at 2.
    assert (∀ (acc : option Z) (x : hash) s, same_recovery σ s →
              same_recovery σ
                (exec (let* iso := ISO ((λ n, now + n * HOUR_MS)%Z
                                          <$> Number (x !! "intervalHours")) in
                       do setHash (switchKey (text_of E (x !! "switchId")))
                            {[ "nextDeadline" := VTime iso ]} in
                       ret (later iso acc)) s)) as Hbody.
    { intros acc x s Hs. unfold exec, bind.
      destruct (Number (x !! "intervalHours")) as [n|]; cbn; [|done].
      eapply (same_recovery_step σ s _ ("switch:" +:+ text_of E (x !! "switchId")));
        [|done].
      intros k Hk. by apply (same_at_setHash s). }
    specialize (Hloop Hbody None σ (same_recovery_refl σ)).
    unfold bind.
    by destruct (foldM active None _ σ) as [[r|e] s]. }
  unfold exec, bind in *.
  by destruct (refreshDeadlines E now (s_senderPubkey req) σ) as [[r|e] s].
Qed.

Lemma same_recovery_cancel_route E id req σ :
  same_recovery σ (exec (cancel_route E id req) σ).
Proof.
  unfold exec, cancel_route, try_catch.
  repeat (match goal with
          | |- context [if ?c then _ else _] => destruct c
          end; [apply same_recovery_refl|]).
  assert (same_recovery σ (exec (cancelSwitch id (s_senderPubkey req)) σ)) as H.
  { unfold exec at 1.
    destruct (visible σ id) as [h|] eqn:Hv;
      [|rewrite cancelSwitch_refused by (by left); apply same_recovery_refl].
    destruct (decide (h !! "senderPubkey" = Some (VStr (s_senderPubkey req))))
      as [Ho|Ho];
      [|rewrite cancelSwitch_refused by (right; eauto); apply same_recovery_refl].
    rewrite (cancelSwitch_owner id (s_senderPubkey req) σ h) by done. cbn [snd].
    eapply (same_recovery_step σ _ _ ("user:" +:+ s_senderPubkey req));
      [intros k Hk; by apply same_at_srem|].
    eapply (same_recovery_step σ _ _ "active"); [intros k Hk; by apply same_at_srem|].
    eapply (same_recovery_step σ _ _ ("switch:" +:+ id));
      [intros k Hk; by apply same_at_setHash|].
    apply same_recovery_refl. }
  unfold exec, bind in *.
  destruct (cancelSwitch id (s_senderPubkey req) σ) as [[[]|e] s]; done.
Qed.

Lemma same_recovery_clean σ σ0 (ids : list string) s :
  same_recovery σ s → same_recovery σ (foldl (clean σ0) s ids).
Proof.
  revert s. induction ids as [|id ids IH]; intros s Hs; [done|].
  cbn [foldl]. apply IH. unfold clean. destruct (is_active σ0 id); [done|].
  eapply (same_recovery_step σ s _ "active"); [|done].
  intros k Hk. by apply same_at_srem.
Qed.

Lemma same_recovery_release σ E now sw p s :
  same_recovery σ s → same_recovery σ (release E now sw p s).
Proof.
  intros Hs. unfold release, markTriggered, storeMessageBlob.
  unfold exec at 1. unfold bind. cbn [fst snd setHash].
  eapply (same_recovery_step σ _ _ "active"); [intros k Hk; by apply same_at_srem|].
  eapply (same_recovery_step σ _ _ ("switch:" +:+ tid E sw));
    [intros k Hk; by apply (same_at_setHash _ (switchKey (tid E sw)))|].
  eapply (same_recovery_step σ _ _ ("release:" +:+ tid E sw));
    [intros k Hk; by apply same_at_setString|].
  done.
Qed.

Lemma same_recovery_process_route E now secret σ :
  same_recovery σ (exec (process_route E now secret) σ).
Proof.
  unfold exec.
  destruct (process_route_cases E now secret σ)
    as [[_ ->]|[_ (res & σ1 & Hsweep & ->)]]; [apply same_recovery_refl|].
  cbn [snd].
  pose proof (foldM_invariant (same_recovery σ) (overdue_switches σ now)
                (process_switch E now)) as Hloop.
  assert (∀ acc x s, same_recovery σ s →
            same_recovery σ (exec (process_switch E now acc x) s)) as Hbody.
  { intros acc x s Hs. unfold exec.
    destruct (deliverable E s x) as [p|] eqn:Hd.
    - rewrite (process_switch_delivered E now acc x s p) by done.
      by apply same_recovery_release.
    - destruct (process_switch_failed E now acc x s Hd) as [e ->]. done. }
  specialize (Hloop Hbody (mkSweep 0 [] []) (cleaned σ)
                (same_recovery_clean σ σ _ σ (same_recovery_refl σ))).
  unfold exec, sweep in *. by rewrite Hsweep in Hloop.
Qed.

(** X22.  The two services keep to their own keys.  No request to a
    recovery route changes a switch record, a user's index of switches or
    the active index; no request to a switch route changes anything
    stored under a key that begins with [recovery:], that is, any
    config, share, session or released share; and the routes that only
    read (shares, list) change nothing at all. *)
Theorem services_keep_apart E σ :
  (∀ now req, same_switches σ (exec (distribute_route E now req) σ))
  ∧ (∀ now uuid req, same_switches σ (exec (request_route now uuid req) σ))
  ∧ (∀ sid req, same_switches σ (exec (approve_route E sid req) σ))
  ∧ (∀ req, same_switches σ (exec (revoke_route E req) σ))
  ∧ (∀ sid, exec (shares_route sid) σ = σ)
  ∧ (∀ now uuid rand upload req,
       same_recovery σ (exec (create_route E now uuid rand upload req) σ))
  ∧ (∀ now req, same_recovery σ (exec (checkin_route E now req) σ))
  ∧ (∀ id req, same_recovery σ (exec (cancel_route E id req) σ))
  ∧ (∀ now secret, same_recovery σ (exec (process_route E now secret) σ))
  ∧ (∀ pk, exec (list_route pk) σ = σ).
Proof.
  split_and!; intros.
  - apply same_switches_distribute_route.
  - apply same_switches_request_route.
  - apply same_switches_approve_route.
  - apply same_switches_revoke_route.
  - apply shares_route_pure.
  - apply same_recovery_create_route.
  - apply same_recovery_checkin_route.
  - apply same_recovery_cancel_route.
  - apply same_recovery_process_route.
  - apply list_route_pure.
Qed.

(** * The client's clock: [getTimeRemaining] *)

(** X23.  The time shown for a deadline is the distance to it, cut to
    whole minutes: for a valid deadline [d] read at [now], [hours] and
    [minutes] are numbers with [0 ≤ minutes < 60] and
    [hours·60 + minutes] whole minutes fit into [|d − now|] with less
    than a minute left over.  The switch is shown as overdue exactly
    when [d < now], which is the comparison by which the sweep of the
    server takes a switch as overdue. *)
Theorem time_remaining_split now d :
  let r := getTimeRemaining now (Some d) in
  ∃ h m,
    tr_hours r = Some h ∧ tr_minutes r = Some m
    ∧ (0 ≤ h)%Z ∧ (0 ≤ m < 60)%Z
    ∧ (h * 3600000 + m * 60000 ≤ Z.abs (d - now)
       < h * 3600000 + (m + 1) * 60000)%Z
    ∧ (tr_isOverdue r = true ↔ (d < now)%Z)
    ∧ ∀ sw, Date_of (sw !! "nextDeadline") = Some d →
        tr_isOverdue r = is_overdue now sw.
Proof.
  intros r. unfold r, getTimeRemaining.
  cbn [fmap option_fmap option_map tr_hours tr_minutes tr_isOverdue].
  set (a := Z.abs (d - now)).
  assert (0 ≤ a)%Z as Ha by apply Z.abs_nonneg.
  exists (a / (60 * 60 * 1000))%Z, (a mod (60 * 60 * 1000) / (60 * 1000))%Z.
  split; [done|]. split; [done|].
  change (60 * 60 * 1000)%Z with 3600000%Z. change (60 * 1000)%Z with 60000%Z.
  pose proof (Z.div_mod a 3600000 ltac:(lia)) as Hdm.
  pose proof (Z.mod_pos_bound a 3600000 ltac:(lia)) as Hmod.
  pose proof (Z.div_pos a 3600000 Ha ltac:(lia)) as Hdiv.
  set (q := (a / 3600000)%Z) in *. set (rem := (a mod 3600000)%Z) in *.
  pose proof (Z.div_mod rem 60000 ltac:(lia)) as Hdm2.
  pose proof (Z.mod_pos_bound rem 60000 ltac:(lia)) as Hmod2.
  pose proof (Z.div_pos rem 60000 ltac:(lia) ltac:(lia)) as Hdiv2.
  assert (rem / 60000 < 60)%Z as Hlt by (apply Z.div_lt_upper_bound; lia).
  split; [lia|]. split; [lia|]. split; [lia|]. split.
  - by rewrite Z.ltb_lt, Z.lt_sub_0.
  - intros sw Hsw. unfold is_overdue. rewrite Hsw.
    apply eq_true_iff_eq. rewrite !Z.ltb_lt. lia.
Qed.

(** X24.  The label of a deadline.  A deadline in the past reads
    "Overdue by <h>h <m>m".  A deadline ahead reads "<h>h <m>m remaining"
    up to and including 24 hours and 59 minutes, and from 25 hours on
    "<days>d <rest>h remaining", where [days ≥ 1], [0 ≤ rest < 24] and
    [days·24 + rest] is the number of whole hours; the minutes are then
    not shown.  A text that is no date is not overdue and reads
    "NaNh NaNm remaining". *)
Theorem time_remaining_label now deadline :
  let r := getTimeRemaining now deadline in
  match deadline with
  | None =>
      tr_isOverdue r = false ∧ tr_label r = "NaNh NaNm remaining"
  | Some d =>
      ∃ h m, tr_hours r = Some h ∧ tr_minutes r = Some m
        ∧ ((d < now)%Z →
             tr_label r = "Overdue by " +:+ pretty h +:+ "h " +:+ pretty m +:+ "m")
        ∧ ((now ≤ d)%Z → (h ≤ 24)%Z →
             tr_label r = pretty h +:+ "h " +:+ pretty m +:+ "m remaining")
        ∧ ((now ≤ d)%Z → (24 < h)%Z →
             ∃ days rest,
               tr_label r = pretty days +:+ "d " +:+ pretty rest +:+ "h remaining"
               ∧ (1 ≤ days)%Z ∧ (0 ≤ rest < 24)%Z ∧ (days * 24 + rest = h)%Z)
  end.
Proof.
  intros r. destruct deadline as [d|]; [|done].
  unfold r, getTimeRemaining.
  cbn [fmap option_fmap option_map tr_hours tr_minutes tr_isOverdue tr_label
       number_text].
  set (h := (Z.abs (d - now) / (60 * 60 * 1000))%Z).
  set (m := (Z.abs (d - now) mod (60 * 60 * 1000) / (60 * 1000))%Z).
  exists h, m. split; [done|]. split; [done|]. split_and!.
  - intros Hlt. by rewrite (proj2 (Z.ltb_lt (d - now) 0)) by lia.
  - intros Hle Hh. rewrite (proj2 (Z.ltb_ge (d - now) 0)) by lia.
    by rewrite (proj2 (Z.ltb_ge 24 h)) by lia.
  - intros Hle Hh. rewrite (proj2 (Z.ltb_ge (d - now) 0)) by lia.
    rewrite (proj2 (Z.ltb_lt 24 h)) by lia.
    exists (h / 24)%Z, (h mod 24)%Z. split; [done|].
    pose proof (Z.div_mod h 24 ltac:(lia)) as Hdm.
    pose proof (Z.mod_pos_bound h 24 ltac:(lia)) as Hmod.
    assert (1 ≤ h / 24)%Z by (apply Z.div_le_lower_bound; lia).
    lia.
Qed.

(** * The signature gate *)

(** X25.  No signed route writes without an accepted signature.  When
    the signature check of the middleware refuses the signature of the
    request for the message the route expects — [recovery:distribute:<ts>],
    [recovery:approve:<session>:<ts>], [recovery:revoke:<ts>],
    [dms:create:<recipient>:<ts>], [dms:checkin:<ts>] or
    [dms:cancel:<switch>:<ts>], each checked against the key the request
    claims — the route answers with an error status and leaves the store
    as it was. *)
Theorem unsigned_requests_change_nothing E σ :
  (∀ now req,
     verifySignature E (d_signature req) (d_timestamp req)
       ("recovery:distribute:" +:+ pretty (d_timestamp req)) (d_senderPubkey req)
       = false →
     ∃ status error,
       distribute_route E now req σ = (Ret (status, BError error), σ)
       ∧ (400 ≤ status < 500)%Z)
  ∧ (∀ sid req,
       verifySignature E (a_signature req) (a_timestamp req)
         ("recovery:approve:" +:+ sid +:+ ":" +:+ pretty (a_timestamp req))
         (a_guardianPubkey req) = false →
       ∃ status error,
         approve_route E sid req σ = (Ret (status, BError error), σ)
         ∧ (400 ≤ status < 500)%Z)
  ∧ (∀ req,
       verifySignature E (s_signature req) (s_timestamp req)
         ("recovery:revoke:" +:+ pretty (s_timestamp req)) (s_senderPubkey req)
         = false →
       ∃ status error,
         revoke_route E req σ = (Ret (status, BError error), σ)
         ∧ (400 ≤ status < 500)%Z)
  ∧ (∀ now uuid rand upload req,
       verifySignature E (c_signature req) (c_timestamp req)
         ("dms:create:" +:+ c_recipientUsername req +:+ ":"
            +:+ pretty (c_timestamp req)) (c_senderPubkey req) = false →
       ∃ status error,
         create_route E now uuid rand upload req σ = (Ret (status, BError error), σ)
         ∧ (400 ≤ status < 500)%Z)
  ∧ (∀ now req,
       verifySignature E (s_signature req) (s_timestamp req)
         ("dms:checkin:" +:+ pretty (s_timestamp req)) (s_senderPubkey req)
         = false →
       ∃ status error,
         checkin_route E now req σ = (Ret (status, BError error), σ)
         ∧ (400 ≤ status < 500)%Z)
  ∧ (∀ id req,
       verifySignature E (s_signature req) (s_timestamp req)
         ("dms:cancel:" +:+ id +:+ ":" +:+ pretty (s_timestamp req))
         (s_senderPubkey req) = false →
       ∃ status error,
         cancel_route E id req σ = (Ret (status, BError error), σ)
         ∧ (400 ≤ status < 500)%Z).
Proof.
  split_and!.
  - intros now req Hv. unfold distribute_route, try_catch.
    destruct (d_guardians req) as [gs|]; [|by eexists _, _].
    repeat (match goal with
            | |- context [if ?c then _ else _] =>
                lazymatch c with
                | negb (verifySignature _ _ _ _ _) => fail
                | _ => destruct c
                end
            end; [by eexists _, _|]).
    rewrite Hv. by eexists _, _.
  - intros sid req Hv. unfold approve_route, try_catch.
    repeat (match goal with
            | |- context [if ?c then _ else _] =>
                lazymatch c with
                | negb (verifySignature _ _ _ _ _) => fail
                | _ => destruct c
                end
            end; [by eexists _, _|]).
    rewrite Hv. by eexists _, _.
  - intros req Hv. unfold revoke_route, try_catch.
    repeat (match goal with
            | |- context [if ?c then _ else _] =>
                lazymatch c with
                | negb (verifySignature _ _ _ _ _) => fail
                | _ => destruct c
                end
            end; [by eexists _, _|]).
    rewrite Hv. by eexists _, _.
  - intros now uuid rand upload req Hv.
    destruct (create_route_rejects E now uuid rand upload req σ)
      as (status & error & Hrun & Hst & _).
    + unfold create_accepts. rewrite Hv. by rewrite andb_false_r.
    + exists status, error. split; [done|].
      repeat (apply elem_of_cons in Hst as [->|Hst]; [lia|]).
      by apply elem_of_nil in Hst.
  - intros now req Hv. unfold checkin_route, try_catch.
    repeat (match goal with
            | |- context [if ?c then _ else _] =>
                lazymatch c with
                | negb (verifySignature _ _ _ _ _) => fail
                | _ => destruct c
                end
            end; [by eexists _, _|]).
    rewrite Hv. by eexists _, _.
  - intros id req Hv. unfold cancel_route, try_catch.
    repeat (match goal with
            | |- context [if ?c then _ else _] =>
                lazymatch c with
                | negb (verifySignature _ _ _ _ _) => fail
                | _ => destruct c
                end
            end; [by eexists _, _|]).
    rewrite Hv. by eexists _, _.
Qed.

(** * The active index in the stores the API reaches *)

Lemma sound_empty : active_index_sound empty_store.
Proof.
  intros id Hin. unfold members in Hin. simpl in Hin.
  rewrite lookup_empty in Hin. set_solver.
Qed.

Lemma sound_same σ σ' :
  same_switches σ σ' → active_index_sound σ → active_index_sound σ'.
Proof.
  intros (Hh & _ & Ha) Hs id Hin. rewrite Hh. apply Hs.
  unfold members in *. by rewrite <- Ha.
Qed.

Lemma sound_frame σ σ' :
  hashes σ' = hashes σ → members σ' ACTIVE_SET ⊆ members σ ACTIVE_SET →
  active_index_sound σ → active_index_sound σ'.
Proof. intros Hh Hsub Hs id Hin. rewrite Hh. apply Hs. set_solver. Qed.

(** Fields other than the status are written to a record. *)
Lemma sound_setHash σ id d :
  d !! "status" = None →
  active_index_sound σ → active_index_sound (exec (setHash (switchKey id) d) σ).
Proof.
  intros Hd Hs id' Hin. rewrite members_setHash in Hin.
  destruct (Hs id' Hin) as (h & Hh & Hst).
  rewrite hashes_setHash. case_decide as Hk.
  - apply switchKey_inj in Hk as <-. rewrite Hh. eexists. split; [done|].
    cbn [default]. by rewrite lookup_union_r.
  - by exists h.
Qed.

(** A record is rewritten and its id leaves the active index. *)
Lemma sound_retire σ σ' id :
  (∀ k, switchKey id ≠ k → hashes σ' !! k = hashes σ !! k) →
  members σ' ACTIVE_SET = members σ ACTIVE_SET ∖ {[id]} →
  active_index_sound σ → active_index_sound σ'.
Proof.
  intros Hh Hm Hs id' Hin. rewrite Hm in Hin.
  apply elem_of_difference in Hin as [Hin Hne].
  rewrite Hh by (intros ?%switchKey_inj; set_solver). by apply Hs.
Qed.

Lemma sound_createSwitch now uuid input σ :
  hashes σ !! switchKey uuid = None →
  active_index_sound σ → active_index_sound (exec (createSwitch now uuid input) σ).
Proof.
  intros Hfresh Hs.
  destruct (createSwitch_run now uuid input σ)
    as (r & Hrun & _ & _ & _ & _ & _ & _ & Hst & _).
  unfold exec at 1. rewrite Hrun. cbn [snd].
  intros id. rewrite created_members, decide_True by (by right).
  rewrite created_hashes. intros Hin. case_decide as Hk.
  - eexists. split; [done|]. rewrite Hfresh. cbn [default].
    by rewrite (right_id_L ∅ (∪)).
  - apply Hs. apply elem_of_union in Hin as [Hin|Hin]; [|done].
    apply elem_of_singleton in Hin. by subst.
Qed.

Lemma sound_cancelSwitch id o σ :
  active_index_sound σ → active_index_sound (exec (cancelSwitch id o) σ).
Proof.
  intros Hs. destruct (visible σ id) as [h|] eqn:Hv.
  - destruct (decide (h !! "senderPubkey" = Some (VStr o))) as [Ho|Hne].
    + unfold exec at 1. rewrite (cancelSwitch_owner _ _ _ _ Hv Ho). cbn [snd].
      apply (sound_retire σ (cancelled_store σ id o) id); [| |done].
      * intros k Hk. by rewrite cancelled_store_hashes, decide_False.
      * by rewrite cancelled_store_members, decide_True by (by right).
    + unfold exec. rewrite cancelSwitch_refused by (right; eauto). done.
  - unfold exec. rewrite cancelSwitch_refused by (by left). done.
Qed.

Lemma sound_release E now sw p σ :
  active_index_sound σ → active_index_sound (release E now sw p σ).
Proof.
  apply (sound_retire σ _ (tid E sw)).
  - intros k Hk. by rewrite release_hashes, decide_False.
  - by rewrite release_members, decide_True.
Qed.

Lemma sound_sweep E now (l : list hash) acc σ :
  active_index_sound σ →
  active_index_sound (exec (foldM l acc (process_switch E now)) σ).
Proof.
  revert acc σ. induction l as [|x l IH]; intros acc σ Hs; [done|].
  unfold exec. cbn [foldM].
  destruct (deliverable E σ x) as [p|] eqn:Hd.
  - erewrite bind_Ret by by apply process_switch_delivered.
    apply IH. by apply sound_release.
  - destruct (process_switch_failed E now acc x σ Hd) as [e He].
    erewrite bind_Ret by exact He. by apply IH.
Qed.

Lemma sound_cleaned σ : active_index_sound σ → active_index_sound (cleaned σ).
Proof.
  unfold cleaned.
  destruct (clean_frame σ (elements (members σ ACTIVE_SET)) σ)
    as (Hh & _ & _ & _ & Hsub & _).
  by apply sound_frame.
Qed.

Lemma sound_bumps E now (l : list hash) σ :
  active_index_sound σ →
  active_index_sound (foldl (λ s sw, bump E now sw s) σ l).
Proof.
  revert σ. induction l as [|sw l IH]; intros σ Hs; [done|].
  cbn [foldl]. apply IH. unfold bump. by apply sound_setHash.
Qed.

(** The scan of a sound index finds nothing to clean up. *)
Lemma cleaned_sound σ :
  dms_inv σ → active_index_sound σ → cleaned σ = σ.
Proof.
  intros [Hrec _] Hs. unfold cleaned.
  assert (∀ ids σc, (∀ id, id ∈ ids → is_active σ id = true) →
            foldl (clean σ) σc ids = σc) as Hfold.
  { induction ids as [|id ids IH]; intros σc Hact; [done|].
    cbn [foldl]. unfold clean at 2. rewrite Hact by by left.
    apply IH. intros id' Hin. apply Hact. by right. }
  apply Hfold. intros id Hin%elem_of_elements.
  destruct (Hs id Hin) as (h & Hh & Hst).
  unfold is_active.
  assert (visible σ id = Some h) as ->.
  { apply visible_Some. split; [done|]. eapply wf_switch_truthy, Hrec, Hh. }
  by apply bool_decide_eq_true_2.
Qed.

Lemma api_step_sound E σ σ' :
  api_step E σ σ' → switches_untimed σ → dms_inv σ →
  active_index_sound σ → active_index_sound σ'.
Proof.
  intros Hstep Hunt Hinv Hs. destruct Hstep as
    [now req|now uuid req|sid req|sid|req|now uuid rand upload req Hne Hfresh
    |now req|pk|id req|now secret|δ Hδ].
  - eapply sound_same; [apply same_switches_distribute_route|exact Hs].
  - eapply sound_same; [apply same_switches_request_route|exact Hs].
  - eapply sound_same; [apply same_switches_approve_route|exact Hs].
  - by rewrite shares_route_pure.
  - eapply sound_same; [apply same_switches_revoke_route|exact Hs].
  - unfold exec, create_route, try_catch.
    destruct (_ || _ || _ || _); [done|]. destruct (_ || _); [done|].
    destruct (_ || _); [done|]. destruct (negb _); [done|].
    destruct (negb _); [done|].
    destruct upload as [txid|].
    + erewrite bind_Ret by reflexivity.
      set (input := mkInput _ _ _ _).
      destruct (createSwitch_run now uuid input σ) as (r & Hrun & _).
      pose proof (sound_createSwitch now uuid input σ Hfresh Hs) as H.
      unfold exec in H. unfold bind. rewrite Hrun in *. done.
    + set (fallbackId := "local-" +:+ pretty now +:+ "-" +:+ rand).
      set (σb := exec (storeMessageBlob ("dms:" +:+ fallbackId)
                         (c_encryptedMessage req) YEAR_S) σ).
      rewrite (bind_Ret _ _ σ ("local:" +:+ fallbackId) σb) by reflexivity.
      set (input := mkInput _ _ _ _).
      assert (active_index_sound σb) as Hb by (by eapply sound_frame; [| |exact Hs]).
      destruct (createSwitch_run now uuid input σb) as (r & Hrun & _).
      pose proof (sound_createSwitch now uuid input σb Hfresh Hb) as H.
      unfold exec in H. unfold bind. rewrite Hrun in *. done.
  - unfold exec, checkin_route, try_catch.
    destruct (_ || _); [done|]. destruct (negb _); [done|].
    unfold bind. rewrite refreshDeadlines_run by done. cbn [fst snd].
    by apply sound_bumps.
  - by rewrite list_route_pure.
  - unfold exec, cancel_route, try_catch.
    destruct (_ || _); [done|]. destruct (negb _); [done|].
    pose proof (sound_cancelSwitch id (s_senderPubkey req) σ Hs) as H.
    unfold exec, bind in *.
    by destruct (cancelSwitch id (s_senderPubkey req) σ) as [[[]|e] σ'].
  - unfold exec, process_route, try_catch.
    destruct (negb _ || _); [done|].
    unfold bind at 1. rewrite getOverdueSwitches_run.
    case_bool_decide as Hnil; [by apply sound_cleaned|].
    pose proof (sound_sweep E now (overdue_switches σ now) (mkSweep 0 [] [])
                  (cleaned σ) (sound_cleaned σ Hs)) as Hsw.
    unfold exec, sweep, bind in *.
    by destruct (foldM _ _ _ _) as [[res|e] σ'].
  - eapply sound_same; [by apply same_switches_elapse|exact Hs].
Qed.

(** X26.  In every store that requests to the routes produce from the
    empty store — creates drawing fresh switch ids, and any time passing
    between the requests — the invariant of the switch store holds, the
    active index holds only ids of stored, active switches, and the
    sweep's scan therefore has nothing to clean up: [getOverdueSwitches]
    returns the active switches past their deadline and leaves the store
    as it is. *)
Theorem reachable_index_sound E σ :
  reachable E σ →
  dms_inv σ
  ∧ active_index_sound σ
  ∧ ∀ now, getOverdueSwitches now σ = (Ret (overdue_switches σ now), σ).
Proof.
  intros Hr.
  assert (switches_untimed σ ∧ dms_inv σ ∧ active_index_sound σ)
    as (Hunt & Hinv & Hs).
  { revert σ Hr. apply rtc_ind_r.
    - split_and!;
        [apply switches_untimed_empty|apply dms_inv_empty|apply sound_empty].
    - intros σ1 σ2 _ Hstep (Hunt & Hinv & Hs). split_and!.
      + by eapply api_step_untimed.
      + by eapply api_step_dms_inv.
      + by eapply api_step_sound. }
  split_and!; [done|done|].
  intros now. rewrite getOverdueSwitches_run. by rewrite cleaned_sound.
Qed.

Lemma reachable_index_sound_witness :
  active_index_sound (elapse 1800000 after_create)
  ∧ "sw-1" ∈ members (elapse 1800000 after_create) ACTIVE_SET
  ∧ ∀ now, getOverdueSwitches now (elapse 1800000 after_create)
           = (Ret (overdue_switches (elapse 1800000 after_create) now),
              elapse 1800000 after_create).
Proof.
  destruct (reachable_index_sound test_env (elapse 1800000 after_create))
    as (_ & H1 & H2).
  - eapply rtc_l; [|eapply rtc_l; [|apply rtc_refl]].
    + apply (step_create test_env empty_store t0 "sw-1" "x7k2p9" (Some "tx-1")
               create_S); [discriminate|exact eq_refl].
    + apply (step_elapse test_env after_create 1800000). discriminate.
  - split; [exact H1|]. split; [decided|exact H2].
Defined.

(** ** Sessions expire *)

(** X27.  A session lives 24 hours.  After an accepted recovery request
    the status route reports the session as pending for as long as less
    than 24 hours have passed; once 24 hours have passed the session is
    gone: the status route, the shares route and a signed approval are
    answered 404 "Session not found or expired", and write nothing. *)
Theorem session_expires E now sid req gs t σ δ :
  r_requestedGuardians req = Some gs →
  missing (r_ownerPubkey req) = false →
  missing (r_ephemeralPubkey req) = false →
  gs ≠ [] →
  configured σ (r_ownerPubkey req) t gs →
  fresh_session σ sid →
  let σ1 := elapse δ (exec (request_route now sid req) σ) in
  ((δ < 24 * 60 * 60 * 1000)%Z →
     status_route sid σ1
       = (Ret (200, IStatus (Some (VStr sid)) (Some (VStr "pending"))
                      (Some (VNum 0)) (Some (VNum t))
                      (Some (VStr (r_ownerPubkey req)))
                      (Some (VTime now)))%Z, σ1))
  ∧ ((24 * 60 * 60 * 1000 ≤ δ)%Z →
     status_route sid σ1
       = (Ret (404, IError "Session not found or expired")%Z, σ1)
     ∧ shares_route sid σ1
       = (Ret (404, BError "Session not found or expired")%Z, σ1)
     ∧ ∀ areq, approve_signed E sid areq = true →
         approve_route E sid areq σ1
           = (Ret (404, BError "Session not found or expired")%Z, σ1)).
Proof.
  intros Hgs Ho He Hne Hcfg (Hsid & Hfresh & _).
  pose proof (createSession_run now sid (r_ownerPubkey req)
                (r_ephemeralPubkey req) gs t σ Hcfg) as Hrun.
  cbv zeta in Hrun.
  set (session := (list_to_map
    [("sessionId", VStr sid); ("ownerPubkey", VStr (r_ownerPubkey req));
     ("ephemeralPubkey", VStr (r_ephemeralPubkey req)); ("status", VStr "pending");
     ("approvals", VNum 0); ("threshold", VNum t);
     ("guardianPubkeys", VList gs); ("createdAt", VTime now)] : hash)) in *.
  set (σ0 := exec (setExpiry (sessionKey sid) SESSION_TTL)
               (exec (setHash (sessionKey sid) session) σ)) in *.
  assert (exec (request_route now sid req) σ = σ0) as ->.
  { unfold exec, request_route, try_catch. rewrite Hgs, Ho, He. cbn [orb].
    rewrite bool_decide_eq_false_2 by done.
    by erewrite bind_Ret by exact Hrun. }
  assert (lives σ0 !! sessionKey sid = Some (24 * 60 * 60 * 1000)%Z) as Hlife.
  { unfold σ0, exec, setExpiry, setHash. cbn [snd lives]. apply lookup_insert_eq. }
  assert (hashes σ0 !! sessionKey sid = Some session) as Hrec.
  { unfold σ0, exec, setExpiry, setHash. cbn [snd hashes].
    rewrite lookup_insert_eq, Hfresh. cbn [default].
    by rewrite (right_id_L ∅ (∪)). }
  intros σ1. split.
  - intros Hlt. destruct (elapse_alive δ σ0 _ _ Hlife Hlt) as (Hh & _).
    fold σ1 in Hh. rewrite Hrec in Hh.
    rewrite (status_route_stored sid σ1 session Hh); [reflexivity|].
    cbn. by destruct sid.
  - intros Hge. destruct (elapse_dead δ σ0 _ _ Hlife Hge) as (Hh & _).
    fold σ1 in Hh.
    assert (getSession sid σ1 = (Ret None, σ1)) as Hnone
      by (unfold getSession, bind, getHash; cbn [fst snd]; by rewrite Hh).
    split_and!.
    + unfold status_route, try_catch. by erewrite bind_Ret by exact Hnone.
    + unfold shares_route, try_catch, getReleasedShares.
      unfold bind at 1. unfold bind at 1. by rewrite Hnone.
    + intros areq Hsig. rewrite approve_route_signed by done.
      unfold try_catch, approveSession.
      unfold bind at 1. unfold bind at 1. by rewrite Hnone.
Qed.

Lemma session_expires_witness :
  status_route "sid-1" (elapse 86400000 after_request)
    = (Ret (404, IError "Session not found or expired")%Z,
       elapse 86400000 after_request)
  ∧ status_route "sid-1" (elapse 86399999 after_request)
    = (Ret (200, IStatus (Some (VStr "sid-1")) (Some (VStr "pending"))
                   (Some (VNum 0)) (Some (VNum 2)) (Some (VStr "O"))
                   (Some (VTime 1500)))%Z,
       elapse 86399999 after_request).
Proof.
  assert (configured after_distribute "O" 2 ["G1"; "G2"; "G3"]) as Hcfg.
  { assert (is_Some (hashes after_distribute !! configKey "O")) as [c Hc]
      by decided.
    assert ((hashes after_distribute !! configKey "O") ≫= (.!! "ownerPubkey")
            = Some (VStr "O")) as H1 by computed.
    assert ((hashes after_distribute !! configKey "O") ≫= (.!! "threshold")
            = Some (VNum 2)) as H2 by computed.
    assert ((hashes after_distribute !! configKey "O") ≫= (.!! "guardianPubkeys")
            = Some (VList ["G1"; "G2"; "G3"])) as H3 by computed.
    rewrite Hc in H1, H2, H3. cbn [mbind option_bind] in H1, H2, H3.
    exists c, ["G1"; "G2"; "G3"]. split; [exact Hc|].
    split; [rewrite H1; exact eq_refl|]. split; [exact H2|].
    split; [exact H3|]. intros x Hx. exact Hx. }
  assert (fresh_session after_distribute "sid-1") as Hfresh.
  { split; [discriminate|]. split; [computed|]. intros g. exact eq_refl. }
  split.
  - destruct (session_expires test_env 1500 "sid-1" request_O
                ["G1"; "G2"; "G3"] 2 after_distribute 86400000
                eq_refl eq_refl eq_refl ltac:(discriminate) Hcfg Hfresh)
      as [_ H].
    destruct (H ltac:(discriminate)) as [H1 _]. exact H1.
  - destruct (session_expires test_env 1500 "sid-1" request_O
                ["G1"; "G2"; "G3"] 2 after_distribute 86399999
                eq_refl eq_refl eq_refl ltac:(discriminate) Hcfg Hfresh)
      as [H _].
    exact (H eq_refl).
Defined.
